(** * mcp_espn_ff: credential store, cookie capture and league cache

    A shallow embedding of the credential and cache subsystem of the
    repository, as written in
      - [src/mcp_espn_ff/auth.py]          (module [Auth]),
      - [src/mcp_espn_ff/espn_service.py]  (module [Service]),
      - [src/espn_fantasy_server.py]       (module [Server]),
    and an interleaving model of the asyncio tasks that run
    [ensure_authenticated] (module [Tasks]).

    Conventions.  A Python [str] is a Rocq [string]; its characters are the
    code points 0..255.  [Optional[str]] is [option string].  A [dict] with
    string keys is a [gmap string _], a [set] of strings a [gset string].
    The process environment is the POSIX one: names are case sensitive.
    Clock readings ([loop.time()], [time.time()]) are integers; the code only
    adds the timeout to one reading and compares readings with [<]. *)

From Stdlib Require Import ZArith List Bool Ascii String Lia.
From stdpp Require Import base tactics option list strings gmap fin_maps pretty.

Open Scope string_scope.
Open Scope Z_scope.
Open Scope list_scope.

(* ===================================================================== *)
(** ** Python built-ins used by the code *)
(* ===================================================================== *)

Module Py.

(** [bool(v)] for an [Optional[str]]: [None] and [""] are falsy. *)
Definition truthy (v : option string) : bool :=
  match v with
  | Some (String _ _) => true
  | _ => false
  end.

(** [x or y]: the first operand when it is truthy, else the second. *)
Definition or_ (x y : option string) : option string :=
  if truthy x then x else y.

(** [x or ""] where the result is used as a [str]. *)
Definition or_empty (x : option string) : string :=
  match x with
  | Some (String c s) => String c s
  | _ => ""
  end.

(** [c * n] for a one-character string [c] and an [int] [n]; a count that
    is not positive gives [""]. *)
Definition repeat_char (c : ascii) (n : Z) : string :=
  string_of_list_ascii (List.repeat c (Z.to_nat n)).

(** [s[n:]] for a natural [n]. *)
Fixpoint drop (n : nat) (s : string) : string :=
  match n, s with
  | O, _ => s
  | S n', String _ s' => drop n' s'
  | S _, EmptyString => EmptyString
  end.

(** [s[i:]] for an [int] [i]: a negative index counts from the end and is
    clipped at the start of the string; [-0] is [0]. *)
Definition slice_from (i : Z) (s : string) : string :=
  let n := Z.of_nat (String.length s) in
  if i <? 0 then drop (Z.to_nat (Z.max (n + i) 0)) s
  else drop (Z.to_nat i) s.

(** [line.startswith(p)]. *)
Definition startswith (p line : string) : bool := String.prefix p line.

(** The characters at which [str.splitlines] breaks a line, among the code
    points 0..255: LF, VT, FF, CR, FS, GS, RS and NEL. *)
Definition is_linebreak (c : ascii) : bool :=
  let n := nat_of_ascii c in
  ((10 <=? n)%nat && (n <=? 13)%nat) || ((28 <=? n)%nat && (n <=? 30)%nat)
  || (n =? 133)%nat.

Definition is_cr (c : ascii) : bool := (nat_of_ascii c =? 13)%nat.
Definition is_lf (c : ascii) : bool := (nat_of_ascii c =? 10)%nat.

(** Puts character [c] in front of the first line of [ls]. *)
Definition cons_line (c : ascii) (ls : list string) : list string :=
  match ls with
  | [] => [String c ""]
  | l :: ls' => String c l :: ls'
  end.

(** [s.splitlines()]: line terminators are dropped, CR LF counts as one
    terminator, and there is no empty last line after a final terminator. *)
Fixpoint splitlines (s : string) : list string :=
  match s with
  | EmptyString => []
  | String c s' =>
      if is_linebreak c then
        match s' with
        | String c' s'' =>
            if is_cr c && is_lf c' then "" :: splitlines s''
            else "" :: splitlines s'
        | EmptyString => [""]
        end
      else cons_line c (splitlines s')
  end.

(** [sep.join(ls)]. *)
Fixpoint join (sep : string) (ls : list string) : string :=
  match ls with
  | [] => ""
  | [l] => l
  | l :: ls' => l +:+ sep +:+ join sep ls'
  end.

(** What a text-mode [f.read()] returns for the stored characters
    (universal newlines: CR LF and a lone CR are read as LF). *)
Fixpoint read_text (raw : string) : string :=
  match raw with
  | EmptyString => ""
  | String c s' =>
      if is_cr c then
        match s' with
        | String c' s'' =>
            if is_lf c' then String "010" (read_text s'')
            else String "010" (read_text s')
        | EmptyString => String "010" ""
        end
      else String c (read_text s')
  end.

(** [c.isspace()] among the code points 0..255. *)
Definition isspace (c : ascii) : bool :=
  let n := nat_of_ascii c in
  ((9 <=? n)%nat && (n <=? 13)%nat) || ((28 <=? n)%nat && (n <=? 32)%nat)
  || (n =? 133)%nat || (n =? 160)%nat.

Fixpoint lstrip (s : string) : string :=
  match s with
  | String c s' => if isspace c then lstrip s' else s
  | EmptyString => ""
  end.

(** [s.rstrip()]: the string without its trailing white space. *)
Fixpoint rstrip (s : string) : string :=
  match s with
  | EmptyString => ""
  | String c s' =>
      match rstrip s' with
      | EmptyString => if isspace c then "" else String c ""
      | r => String c r
      end
  end.

(** [s.strip()]. *)
Definition strip (s : string) : string := rstrip (lstrip s).

(** [c.upper()] on ASCII letters (the cookie names the code compares are
    ASCII). *)
Definition upper_char (c : ascii) : ascii :=
  let n := nat_of_ascii c in
  if ((97 <=? n)%nat && (n <=? 122)%nat) then ascii_of_nat (n - 32) else c.

Fixpoint upper (s : string) : string :=
  match s with
  | EmptyString => ""
  | String c s' => String (upper_char c) (upper s')
  end.

End Py.

(** Results of fallible code: a value or the exception raised. *)
Inductive exn :=
  | RuntimeError (msg : string)
  | TimeoutError (msg : string)
  | OSError (msg : string)
  | DriverError (msg : string)
  | ApiError (msg : string).

Inductive result (A : Type) :=
  | Ok (a : A)
  | Raise (e : exn).
Arguments Ok {A} a.
Arguments Raise {A} e.

(* ===================================================================== *)
(** ** The browser driver, as the code uses it *)
(* ===================================================================== *)

Module Browser.

(** One entry of [context.cookies()]: a dict with keys ["name"] and
    ["value"]. *)
Abbreviation cookie := (gmap string string).

(** What the surroundings do during one call: whether each driver
    operation succeeds, the successive readings of the clock the polling
    loop uses, the successive answers of [context.cookies()] ([None] when
    the call raises) and the readings of [time.time()] taken by
    [CredentialManager.get]. *)
Record oracle := {
  import_ok : bool;
  start_ok : bool;
  launch_ok : bool;
  new_context_ok : bool;
  new_page_ok : bool;
  goto_ok : bool;
  close_ok : bool;
  time_at : nat → Z;
  cookies_at : nat → option (list cookie);
  wall_at : nat → Z
}.

(** The driver operations a call performs, in order, each with whether it
    succeeded.  [EvStart] and [EvStop] are the entry and the exit of the
    [async with async_playwright()] block. *)
Inductive event :=
  | EvStart (ok : bool)
  | EvLaunch (headless ok : bool)
  | EvNewContext (ok : bool)
  | EvNewPage (ok : bool)
  | EvGoto (ok : bool)
  | EvCookies (ok : bool)
  | EvSleep
  | EvClose (ok : bool)
  | EvStop.

(** Whether a launched browser is still running after the operations
    [tr].  A browser runs from a successful launch until a successful
    [browser.close()] or until the playwright block is left, which stops
    the driver together with every browser it launched. *)
Definition running_after (r : bool) (e : event) : bool :=
  match e with
  | EvLaunch _ true => true
  | EvClose true => false
  | EvStop => false
  | _ => r
  end.

Definition browser_running (tr : list event) : bool :=
  fold_left running_after tr false.

(** The number of browsers launched by the operations [tr]. *)
Definition is_launch (e : event) : bool :=
  match e with EvLaunch _ _ => true | _ => false end.

Definition launches (tr : list event) : nat :=
  length (List.filter is_launch tr).

(** How the polling loop ended. *)
Inductive poll_end :=
  | PollExit (found_espn_s2 found_swid : option string)
  | PollRaised (e : exn).

End Browser.

(* ===================================================================== *)
(** ** src/mcp_espn_ff/auth.py *)
(* ===================================================================== *)

Module Auth.

Inductive CredentialSource := process_env | dot_env | none.

(** [AuthState]; [masked] is the dict with keys ["espn_s2"] and ["SWID"]. *)
Record AuthState := {
  source : CredentialSource;
  is_valid : bool;
  last_checked : Z;
  masked : gmap string string
}.

(** [mask_secret(value, show_last)]. *)
Definition mask_secret (value : option string) (show_last : Z) : string :=
  match value with
  | None => ""
  | Some EmptyString => ""
  | Some v =>
      let n := Z.of_nat (String.length v) in
      if n <=? show_last then Py.repeat_char "*" n
      else Py.repeat_char "*" (n - show_last) +:+ Py.slice_from (- show_last) v
  end.

Inductive persist_mode := pm_memory | pm_env | pm_dot_env.

(** The file [./.env]: absent, a text file with the given characters, or a
    file that exists and cannot be read as UTF-8 text. *)
Inductive file :=
  | NoFile
  | FileText (raw : string)
  | FileUnreadable.

(** What the credential manager reads and writes: its [_memory] dict, the
    process environment, the [.env] file of the working directory and
    whether that file can be opened for writing. *)
Record world := {
  memory : gmap string (option string);
  environ : gmap string string;
  dotenv : file;
  dotenv_writable : bool
}.

(** [CredentialManager.__init__]. *)
Definition init_memory : gmap string (option string) :=
  <["SWID" := None]> (<["ESPN_S2" := None]> ∅).

(** [self._memory.get(k)]. *)
Definition memory_get (w : world) (k : string) : option string :=
  mjoin (memory w !! k).

(** [CredentialManager.get]; [now] is the reading of [time.time()]. *)
Definition get (now : Z) (w : world)
  : option string * option string * AuthState :=
  let env_espn_s2 := Py.or_ (environ w !! "ESPN_S2") (environ w !! "espn_s2") in
  let env_swid := Py.or_ (environ w !! "SWID") (environ w !! "swid") in
  let espn_s2 := Py.or_ (memory_get w "ESPN_S2") env_espn_s2 in
  let swid := Py.or_ (memory_get w "SWID") env_swid in
  let source :=
    if Py.truthy env_espn_s2 && Py.truthy env_swid then process_env
    else if Py.truthy espn_s2 && Py.truthy swid then dot_env
    else none in
  let is_valid := Py.truthy espn_s2 && Py.truthy swid in
  (espn_s2, swid,
   {| source := source; is_valid := is_valid; last_checked := now;
      masked := <["SWID" := mask_secret swid 4]>
                  (<["espn_s2" := mask_secret espn_s2 4]> ∅) |}).

(** The inner function [upsert] of [_write_dotenv], with its loop written
    as a recursion that carries [found] and [new_lines]. *)
Fixpoint upsert_loop (lines : list string) (key value : string)
    (found : bool) (new_lines : list string) : bool * list string :=
  match lines with
  | [] => (found, new_lines)
  | line :: rest =>
      if Py.startswith (key +:+ "=") line
      then upsert_loop rest key value true (new_lines ++ [key +:+ "=" +:+ value])
      else upsert_loop rest key value found (new_lines ++ [line])
  end.

Definition upsert (lines : list string) (key value : string) : list string :=
  let '(found, new_lines) := upsert_loop lines key value false [] in
  if negb found then new_lines ++ [key +:+ "=" +:+ value] else new_lines.

(** The lines [_write_dotenv] starts from. *)
Definition dotenv_read_lines (f : file) : list string :=
  match f with
  | FileText raw => Py.splitlines (Py.read_text raw)
  | NoFile => []
  | FileUnreadable => []
  end.

(** [CredentialManager._write_dotenv]. *)
Definition _write_dotenv (espn_s2 swid : string) (w : world)
  : world * result unit :=
  let lines := dotenv_read_lines (dotenv w) in
  let lines := upsert lines "ESPN_S2" espn_s2 in
  let lines := upsert lines "SWID" swid in
  if dotenv_writable w then
    ({| memory := memory w; environ := environ w;
        dotenv := FileText (Py.join (String "010" "") lines +:+ String "010" "");
        dotenv_writable := true |}, Ok tt)
  else (w, Raise (OSError "cannot open .env for writing")).

(** [os.environ[k] = v] raises [ValueError] when [v] holds a NUL. *)
Fixpoint has_nul (s : string) : bool :=
  match s with
  | EmptyString => false
  | String c s' => (nat_of_ascii c =? 0)%nat || has_nul s'
  end.

(** The two assignments to [os.environ] inside [try ... except: pass]. *)
Definition set_environ (espn_s2 swid : string) (env : gmap string string)
  : gmap string string :=
  if has_nul espn_s2 then env
  else
    let env := <["espn_s2" := espn_s2]> env in
    if has_nul swid then env else <["SWID" := swid]> env.

(** [CredentialManager.set]. *)
Definition set (espn_s2 swid : string) (mode : persist_mode) (w : world)
  : world * result unit :=
  let mem := <["SWID" := Some swid]> (<["espn_s2" := Some espn_s2]> (memory w)) in
  let env :=
    match mode with
    | pm_env | pm_dot_env => set_environ espn_s2 swid (environ w)
    | pm_memory => environ w
    end in
  let w1 := {| memory := mem; environ := env; dotenv := dotenv w;
               dotenv_writable := dotenv_writable w |} in
  match mode with
  | pm_dot_env => _write_dotenv espn_s2 swid w1
  | _ => (w1, Ok tt)
  end.

(** A fresh manager in a process with the given environment. *)
Definition fresh_world (env : gmap string string) (f : file) : world :=
  {| memory := init_memory; environ := env; dotenv := f;
     dotenv_writable := true |}.

Import Browser.

(** The body of [for cookie in cookies] in [authenticate_browser]. *)
Definition scan_cookie (found : option string * option string) (c : cookie)
  : option string * option string :=
  let '(found_espn_s2, found_swid) := found in
  let name := c !! "name" in
  let found_espn_s2 :=
    if bool_decide (name = Some "espn_s2") && negb (Py.truthy found_espn_s2)
    then c !! "value" else found_espn_s2 in
  let found_swid :=
    if bool_decide (name = Some "SWID") && negb (Py.truthy found_swid)
    then c !! "value" else found_swid in
  (found_espn_s2, found_swid).

(** The loop [while loop.time() < deadline] of [authenticate_browser].
    Reading [S k] of the clock is the one of the [k]-th test of the loop
    condition and [cookies_at o k] the answer to the [k]-th poll.  [None]
    means that [fuel] tests were not enough. *)
Fixpoint poll_loop (o : oracle) (deadline : Z) (fuel k : nat)
    (found_espn_s2 found_swid : option string) (tr : list event)
  : option (list event * poll_end) :=
  match fuel with
  | O => None
  | S fuel' =>
      if time_at o (S k) <? deadline then
        match cookies_at o k with
        | None => Some (tr ++ [EvCookies false],
                        PollRaised (DriverError "context.cookies"))
        | Some cookies =>
            let '(f2, fw) := fold_left scan_cookie cookies
                               (found_espn_s2, found_swid) in
            if Py.truthy f2 && Py.truthy fw
            then Some (tr ++ [EvCookies true], PollExit f2 fw)
            else poll_loop o deadline fuel' (S k) f2 fw
                   (tr ++ [EvCookies true; EvSleep])
        end
      else Some (tr, PollExit found_espn_s2 found_swid)
  end.

Definition timeout_msg : string :=
  "Timed out waiting for login. Please log into ESPN in the opened browser window, then retry.".

Definition launch_msg : string :=
  "Failed to launch Chromium. You may need to install Playwright browsers. Run: python -m playwright install chromium".

Definition import_msg : string :=
  "Playwright is required for browser authentication. Install browsers with: python -m playwright install chromium".

(** What follows the polling loop: the [finally] clause closes the
    browser, then the timeout is raised or the cookies are returned, and
    the playwright block is left. *)
Definition after_poll (o : oracle) (tr : list event) (pe : poll_end)
  : list event * result (string * string) :=
  if close_ok o then
    match pe with
    | PollRaised e => (tr ++ [EvClose true; EvStop], Raise e)
    | PollExit found_espn_s2 found_swid =>
        match found_espn_s2, found_swid with
        | Some s2, Some sw =>
            if negb (Py.truthy found_espn_s2 && Py.truthy found_swid)
            then (tr ++ [EvClose true; EvStop], Raise (TimeoutError timeout_msg))
            else (tr ++ [EvClose true; EvStop], Ok (s2, sw))
        | _, _ => (tr ++ [EvClose true; EvStop], Raise (TimeoutError timeout_msg))
        end
    end
  else (tr ++ [EvClose false; EvStop], Raise (DriverError "browser.close")).

(** [authenticate_browser(timeout_seconds, headless)], run by one task
    that holds [_auth_lock] from the start of the playwright block to its
    end.  The result comes with the driver operations performed. *)
Definition authenticate_browser (timeout_seconds : Z) (headless : bool)
    (fuel : nat) (o : oracle)
  : option (list event * result (string * string)) :=
  if negb (import_ok o) then Some ([], Raise (RuntimeError import_msg))
  else if negb (start_ok o) then
    Some ([EvStart false], Raise (DriverError "async_playwright"))
  else if negb (launch_ok o) then
    Some ([EvStart true; EvLaunch headless false; EvStop],
          Raise (RuntimeError launch_msg))
  else if negb (new_context_ok o) then
    Some ([EvStart true; EvLaunch headless true; EvNewContext false; EvStop],
          Raise (DriverError "browser.new_context"))
  else if negb (new_page_ok o) then
    Some ([EvStart true; EvLaunch headless true; EvNewContext true;
           EvNewPage false; EvStop],
          Raise (DriverError "context.new_page"))
  else if negb (goto_ok o) then
    Some ([EvStart true; EvLaunch headless true; EvNewContext true;
           EvNewPage true; EvGoto false; EvStop],
          Raise (DriverError "page.goto"))
  else
    let deadline := time_at o 0 + timeout_seconds in
    match poll_loop o deadline fuel 0 None None
            [EvStart true; EvLaunch headless true; EvNewContext true;
             EvNewPage true; EvGoto true] with
    | None => None
    | Some (tr, pe) => Some (after_poll o tr pe)
    end.

(** [ensure_authenticated(headless, persist_mode)]: the new world, the
    driver operations performed and the result. *)
Definition ensure_authenticated (headless : bool) (mode : persist_mode)
    (fuel : nat) (o : oracle) (w : world)
  : option (world * list event * result (string * string * AuthState)) :=
  let '(espn_s2, swid, state) := get (wall_at o 0) w in
  if is_valid state then
    Some (w, [], Ok (Py.or_empty espn_s2, Py.or_empty swid, state))
  else
    match authenticate_browser 180 headless fuel o with
    | None => None
    | Some (tr, Raise e) => Some (w, tr, Raise e)
    | Some (tr, Ok (new_espn_s2, new_swid)) =>
        match set new_espn_s2 new_swid mode w with
        | (w', Raise e) => Some (w', tr, Raise e)
        | (w', Ok _) =>
            let '(espn_s2, swid, state) := get (wall_at o 1) w' in
            Some (w', tr, Ok (Py.or_empty espn_s2, Py.or_empty swid, state))
        end
    end.

End Auth.

(* ===================================================================== *)
(** ** The external client [espn_api.football.League] *)
(* ===================================================================== *)

Module Espn.

(** A [League] object: its identity and the arguments it was constructed
    with.  The identity is the index of the constructor call that built
    it, so two objects are the same instance exactly when they are
    equal. *)
Record League := {
  obj_id : nat;
  lg_league_id : Z;
  lg_year : Z;
  lg_espn_s2 : option string;
  lg_swid : option string
}.

(** [League(league_id=.., year=.., espn_s2=.., swid=..)].  [calls] is the
    number of constructor calls made so far and [ok k] tells whether call
    number [k] succeeds (the client talks to the network). *)
Definition construct (ok : nat → bool) (calls : nat) (league_id year : Z)
    (espn_s2 swid : option string) : nat * result League :=
  if ok calls then
    (S calls, Ok {| obj_id := calls; lg_league_id := league_id;
                    lg_year := year; lg_espn_s2 := espn_s2;
                    lg_swid := swid |})
  else (S calls, Raise (ApiError "League")).

End Espn.

(* ===================================================================== *)
(** ** src/mcp_espn_ff/espn_service.py *)
(* ===================================================================== *)

Module Service.

Import Browser Espn.

(** [LeagueService], with the state [ensure_authenticated] works on and
    the count of [League] constructor calls. *)
Record state := {
  world : Auth.world;
  calls : nat;
  _cache : gmap (Z * Z) League;
  _last_creds : option (string * string)
}.

(** [LeagueService.__init__] in a given world. *)
Definition init (w : Auth.world) : state :=
  {| world := w; calls := 0%nat; _cache := ∅; _last_creds := None |}.

(** [self._last_creds is not None and self._last_creds != current_creds]. *)
Definition creds_changed (last : option (string * string))
    (current : string * string) : bool :=
  match last with
  | Some l => negb (bool_decide (l = current))
  | None => false
  end.

(** [LeagueService.get_league(league_id, year)]: the new state, the driver
    operations performed and the result. *)
Definition get_league (ok : nat → bool) (league_id year : Z) (fuel : nat)
    (o : oracle) (st : state)
  : option (state * list event * result League) :=
  match Auth.ensure_authenticated false Auth.pm_env fuel o (world st) with
  | None => None
  | Some (w, tr, Raise e) =>
      Some ({| world := w; calls := calls st; _cache := _cache st;
               _last_creds := _last_creds st |}, tr, Raise e)
  | Some (w, tr, Ok (espn_s2, swid, _)) =>
      let current_creds := (espn_s2, swid) in
      let cache :=
        if creds_changed (_last_creds st) current_creds then ∅
        else _cache st in
      let key := (league_id, year) in
      match cache !! key with
      | Some lg =>
          Some ({| world := w; calls := calls st; _cache := cache;
                   _last_creds := Some current_creds |}, tr, Ok lg)
      | None =>
          match construct ok (calls st) league_id year
                  (Some espn_s2) (Some swid) with
          | (n, Raise e) =>
              Some ({| world := w; calls := n; _cache := cache;
                       _last_creds := Some current_creds |}, tr, Raise e)
          | (n, Ok lg) =>
              Some ({| world := w; calls := n; _cache := <[key := lg]> cache;
                       _last_creds := Some current_creds |}, tr, Ok lg)
          end
      end
  end.

End Service.

(* ===================================================================== *)
(** ** src/espn_fantasy_server.py *)
(* ===================================================================== *)

Module Server.

Import Browser Espn.

(** [_resolve_session_id(session_id)] in a process with environment
    [env]. *)
Definition _resolve_session_id (env : gmap string string)
    (session_id : option string) : string :=
  let sid := Py.strip (Py.or_empty session_id) in
  if Py.truthy (Some sid) then sid
  else Py.or_empty
         (Py.or_ (Py.or_ (env !! "MCP_SESSION_ID") (env !! "SESSION_ID"))
                 (Some "default_session")).

(** The body of [for c in cookies] in [_capture_cookies_via_browser]. *)
Definition scan_cookie (found : option string * option string) (c : cookie)
  : option string * option string :=
  let '(espn_s2_value, swid_value) := found in
  let name := Py.upper (Py.or_empty (c !! "name")) in
  let espn_s2_value :=
    if bool_decide (name = "ESPN_S2") && negb (Py.truthy espn_s2_value)
    then c !! "value" else espn_s2_value in
  let swid_value :=
    if bool_decide (name = "SWID") && negb (Py.truthy swid_value)
    then c !! "value" else swid_value in
  (espn_s2_value, swid_value).

(** [v is None]. *)
Definition is_None (v : option string) : bool :=
  match v with None => true | Some _ => false end.

(** The loop of [_capture_cookies_via_browser]; clock readings and polls
    are numbered as in [Auth.poll_loop]. *)
Fixpoint poll_loop (o : oracle) (deadline : Z) (fuel k : nat)
    (espn_s2_value swid_value : option string) (tr : list event)
  : option (list event * poll_end) :=
  match fuel with
  | O => None
  | S fuel' =>
      if (time_at o (S k) <? deadline)
         && (is_None espn_s2_value || is_None swid_value) then
        match cookies_at o k with
        | None => Some (tr ++ [EvCookies false],
                        PollRaised (DriverError "context.cookies"))
        | Some cookies =>
            let '(v2, vw) := fold_left scan_cookie cookies
                               (espn_s2_value, swid_value) in
            if Py.truthy v2 && Py.truthy vw
            then Some (tr ++ [EvCookies true], PollExit v2 vw)
            else poll_loop o deadline fuel' (S k) v2 vw
                   (tr ++ [EvCookies true; EvSleep])
        end
      else Some (tr, PollExit espn_s2_value swid_value)
  end.

(** [_capture_cookies_via_browser(headless, timeout_seconds)]: every
    exception is caught and turned into [(None, None)]. *)
Definition _capture_cookies_via_browser (headless : bool)
    (timeout_seconds : Z) (fuel : nat) (o : oracle)
  : option (list event * (option string * option string)) :=
  if negb (start_ok o) then Some ([EvStart false], (None, None))
  else if negb (launch_ok o) then
    Some ([EvStart true; EvLaunch headless false; EvStop], (None, None))
  else if negb (new_context_ok o) then
    Some ([EvStart true; EvLaunch headless true; EvNewContext false; EvStop],
          (None, None))
  else if negb (new_page_ok o) then
    Some ([EvStart true; EvLaunch headless true; EvNewContext true;
           EvNewPage false; EvStop], (None, None))
  else if negb (goto_ok o) then
    Some ([EvStart true; EvLaunch headless true; EvNewContext true;
           EvNewPage true; EvGoto false; EvStop], (None, None))
  else
    let deadline := time_at o 0 + timeout_seconds in
    match poll_loop o deadline fuel 0 None None
            [EvStart true; EvLaunch headless true; EvNewContext true;
             EvNewPage true; EvGoto true] with
    | None => None
    | Some (tr, PollRaised _) => Some (tr ++ [EvStop], (None, None))
    | Some (tr, PollExit v2 vw) =>
        if close_ok o then Some (tr ++ [EvClose true; EvStop], (v2, vw))
        else Some (tr ++ [EvClose false; EvStop], (None, None))
    end.

(** [ESPNFantasyFootballAPI], with the count of [League] constructor
    calls.  [credentials] maps a session id to the dict with keys
    ['espn_s2'] and ['swid']. *)
Record api := {
  leagues : gmap string League;
  credentials : gmap string (gmap string string);
  session_to_league_keys : gmap string (gset string);
  calls : nat
}.

(** [ESPNFantasyFootballAPI.__init__]. *)
Definition init : api :=
  {| leagues := ∅; credentials := ∅; session_to_league_keys := ∅;
     calls := 0%nat |}.

(** The f-string [f"{session_id}:{league_id}:{year}"]. *)
Definition cache_key (session_id : string) (league_id year : Z) : string :=
  session_id +:+ ":" +:+ pretty league_id +:+ ":" +:+ pretty year.

(** The end of [get_league]: the key is indexed under the session and the
    cached object is returned. *)
Definition index_and_return (session_id cache_key : string)
    (lgs : gmap string League) (n : nat) (a : api) : api * result League :=
  let keys := default ∅ (session_to_league_keys a !! session_id) in
  let a' := {| leagues := lgs; credentials := credentials a;
               session_to_league_keys :=
                 <[session_id := keys ∪ {[cache_key]}]>
                   (session_to_league_keys a);
               calls := n |} in
  match lgs !! cache_key with
  | Some lg => (a', Ok lg)
  | None => (a', Raise (ApiError "KeyError"))
  end.

(** [ESPNFantasyFootballAPI.get_league(session_id, league_id, year)]. *)
Definition get_league (ok : nat → bool) (session_id : string)
    (league_id year : Z) (a : api) : api * result League :=
  let key := cache_key session_id league_id year in
  let espn_s2 := credentials a !! session_id ≫= (.!! "espn_s2") in
  let swid := credentials a !! session_id ≫= (.!! "swid") in
  match leagues a !! key with
  | None =>
      match construct ok (calls a) league_id year espn_s2 swid with
      | (n, Raise e) =>
          ({| leagues := leagues a; credentials := credentials a;
              session_to_league_keys := session_to_league_keys a;
              calls := n |}, Raise e)
      | (n, Ok lg) =>
          index_and_return session_id key (<[key := lg]> (leagues a)) n a
      end
  | Some _ => index_and_return session_id key (leagues a) (calls a) a
  end.

(** [for k in list(keys): self.leagues.pop(k, None)]. *)
Definition purge (keys : gset string) (lgs : gmap string League)
  : gmap string League :=
  fold_left (λ m k, delete k m) (elements keys) lgs.

(** [ESPNFantasyFootballAPI.store_credentials(session_id, espn_s2, swid)]. *)
Definition store_credentials (session_id espn_s2 swid : string) (a : api)
  : api :=
  let keys := default ∅ (session_to_league_keys a !! session_id) in
  {| leagues := if bool_decide (keys = ∅) then leagues a
                else purge keys (leagues a);
     credentials :=
       <[session_id := <["swid" := swid]> (<["espn_s2" := espn_s2]> ∅)]>
         (credentials a);
     session_to_league_keys := delete session_id (session_to_league_keys a);
     calls := calls a |}.

(** [ESPNFantasyFootballAPI.clear_credentials(session_id)]. *)
Definition clear_credentials (session_id : string) (a : api) : api :=
  let keys := default ∅ (session_to_league_keys a !! session_id) in
  {| leagues := if bool_decide (keys = ∅) then leagues a
                else purge keys (leagues a);
     credentials := delete session_id (credentials a);
     session_to_league_keys := delete session_id (session_to_league_keys a);
     calls := calls a |}.

Definition auth_failed_msg : string :=
  "Authentication failed: cookies not detected. Please complete login in the opened browser window.".

Definition auth_ok_msg (s2 sw : string) : string :=
  "Authentication successful." +:+ String "010" (String "010" "")
  +:+ "ESPN_S2: " +:+ s2 +:+ String "010" "" +:+ "SWID: " +:+ sw
  +:+ String "010" (String "010" "")
  +:+ "State these values to the user explicitly so you can reuse them.".

(** The tool [authenticate(timeout_seconds, session_id)] in a process with
    environment [env]: the new state of [api], the driver operations and
    the text returned. *)
Definition authenticate (env : gmap string string) (timeout_seconds : Z)
    (session_id : option string) (fuel : nat) (o : oracle) (a : api)
  : option (api * list event * string) :=
  let sid := _resolve_session_id env session_id in
  match _capture_cookies_via_browser false timeout_seconds fuel o with
  | None => None
  | Some (tr, (s2, sw)) =>
      if negb (Py.truthy s2) || negb (Py.truthy sw)
      then Some (a, tr, auth_failed_msg)
      else Some (store_credentials sid (Py.or_empty s2) (Py.or_empty sw) a,
                 tr, auth_ok_msg (Py.or_empty s2) (Py.or_empty sw))
  end.

(** The tool [logout(session_id)]. *)
Definition logout (env : gmap string string) (session_id : option string)
    (a : api) : api * string :=
  (clear_credentials (_resolve_session_id env session_id) a,
   "Authentication credentials have been cleared.").

End Server.

(* ===================================================================== *)
(** ** Concurrent calls of [ensure_authenticated] *)
(* ===================================================================== *)

(** asyncio runs the calls as tasks of one event loop: a task runs alone
    until it waits, and the scheduler then picks the next task.  A call of
    [ensure_authenticated] waits in two places only: in
    [async with _auth_lock] when the lock is taken, and inside the block
    under the lock while the browser session is in progress.  From the end
    of the browser session to its [return] the call does not wait: it leaves
    the lock, calls [set] and [get] and returns. *)
Module Tasks.

(** Where a call stands. *)
Inductive pc :=
  | Ready
  | Waiting
  | Capturing (n : nat)
  | Done (slow : bool) (r : result (string * string)).

(** The shared state: the world of the credential manager, [_auth_lock]
    ([locked] and its first-in first-out queue of waiting tasks), the
    tasks, and the number of browser sessions started so far. *)
Record sys := {
  world : Auth.world;
  locked : bool;
  waiters : list nat;
  tasks : list pc;
  captures : nat
}.

(** [state.is_valid] and the tokens of [CredentialManager.get()], which do
    not depend on the clock. *)
Definition valid (w : Auth.world) : bool := Auth.is_valid (Auth.get 0 w).2.

Definition tokens (w : Auth.world) : string * string :=
  (Py.or_empty (Auth.get 0 w).1.1, Py.or_empty (Auth.get 0 w).1.2).

Section Run.

(** The persist mode of the calls and the outcome of the [n]-th browser
    session, that is of the [n]-th run of the block under the lock in
    [authenticate_browser].  The import of playwright, which comes before
    the lock, is taken to succeed: it succeeds or fails for the whole
    process, and when it fails no call reaches the lock. *)
Variable mode : Auth.persist_mode.
Variable capture : nat → result (string * string).

Definition with_task (i : nat) (p : pc) (w : Auth.world) (l : bool)
    (q : list nat) (c : nat) (s : sys) : sys :=
  {| world := w; locked := l; waiters := q;
     tasks := <[i := p]> (tasks s); captures := c |}.

(** The end of a browser session of task [i]: the lock is left, and on
    success the cookies are stored and read back. *)
Definition finish (i n : nat) (s : sys) : sys :=
  match capture n with
  | Raise e =>
      with_task i (Done true (Raise e)) (world s) false (waiters s)
        (captures s) s
  | Ok (new_espn_s2, new_swid) =>
      match Auth.set new_espn_s2 new_swid mode (world s) with
      | (w', Raise e) =>
          with_task i (Done true (Raise e)) w' false (waiters s)
            (captures s) s
      | (w', Ok _) =>
          with_task i (Done true (Ok (tokens w'))) w' false (waiters s)
            (captures s) s
      end
  end.

(** Task [i] runs until it waits or returns; [None] when it cannot run
    (it has returned, or it waits for a lock that is not its to take). *)
Definition run_task (i : nat) (s : sys) : option sys :=
  match tasks s !! i with
  | Some Ready =>
      if valid (world s) then
        Some (with_task i (Done false (Ok (tokens (world s)))) (world s)
                (locked s) (waiters s) (captures s) s)
      else if negb (locked s) && bool_decide (waiters s = []) then
        Some (with_task i (Capturing (captures s)) (world s) true []
                (S (captures s)) s)
      else
        Some (with_task i Waiting (world s) (locked s) (waiters s ++ [i])
                (captures s) s)
  | Some Waiting =>
      match waiters s with
      | j :: rest =>
          if negb (locked s) && bool_decide (j = i) then
            Some (with_task i (Capturing (captures s)) (world s) true rest
                    (S (captures s)) s)
          else None
      | [] => None
      end
  | Some (Capturing n) => Some (finish i n s)
  | Some (Done _ _) => None
  | None => None
  end.

(** The tasks run in the order the scheduler picks them. *)
Fixpoint exec (sched : list nat) (s : sys) : option sys :=
  match sched with
  | [] => Some s
  | i :: sched' =>
      match run_task i s with
      | Some s' => exec sched' s'
      | None => None
      end
  end.

End Run.

(** [n] calls made at once in world [w]. *)
Definition init (w : Auth.world) (n : nat) : sys :=
  {| world := w; locked := false; waiters := []; tasks := replicate n Ready;
     captures := 0%nat |}.

Definition is_capturing (p : pc) : bool :=
  match p with Capturing _ => true | _ => false end.

(** The calls that went past the first check into [authenticate_browser]
    and got the lock. *)
Definition took_lock (p : pc) : bool :=
  match p with Capturing _ | Done true _ => true | _ => false end.

Definition is_done (p : pc) : bool :=
  match p with Done _ _ => true | _ => false end.

Definition count (f : pc → bool) (l : list pc) : nat :=
  length (List.filter f l).

Definition all_done (s : sys) : bool := forallb is_done (tasks s).

End Tasks.

(* ===================================================================== *)
(** ** The tools: src/mcp_espn_ff/tools.py and src/espn_fantasy_server.py *)
(* ===================================================================== *)

Module Tools.

(** [c.lower()] on the code points 0..255 a string holds: the letters A
    to Z and the capital letters of Latin-1 (192 to 222, the multiplication
    sign 215 apart) go to the letter 32 places on; no other code point
    changes. *)
Definition lower_char (c : ascii) : ascii :=
  let n := nat_of_ascii c in
  if ((65 <=? n)%nat && (n <=? 90)%nat)
     || ((192 <=? n)%nat && (n <=? 214)%nat)
     || ((216 <=? n)%nat && (n <=? 222)%nat)
  then ascii_of_nat (n + 32) else c.

Fixpoint lower (s : string) : string :=
  match s with
  | EmptyString => ""
  | String c s' => String (lower_char c) (lower s')
  end.

(** [needle in hay] on strings. *)
Fixpoint contains (needle hay : string) : bool :=
  match hay with
  | EmptyString => String.prefix needle ""
  | String _ hay' => String.prefix needle hay || contains needle hay'
  end.

(** [l[i]] on a list: a negative index counts from the end, and [None]
    stands for the [IndexError] raised out of range. *)
Definition index {A : Type} (l : list A) (i : Z) : option A :=
  let n := Z.of_nat (length l) in
  if (0 <=? i) && (i <? n) then l !! Z.to_nat i
  else if (- n <=? i) && (i <? 0) then l !! Z.to_nat (n + i)
  else None.

(** A player and a team of [espn_api]: the identity of the object and the
    attributes the selection code reads.  The other attributes are only
    copied into the answer. *)
Record Player := { player_id : nat; name : string }.

Record Team := { team_name : string; roster : list Player }.

(** What a tool body comes to: a text it returns, the object whose
    attributes it serialises, or an [IndexError]. *)
Inductive outcome (A : Type) :=
  | Reply (text : string)
  | Data (a : A)
  | IndexError.

Arguments Reply {A} text.
Arguments Data {A} a.
Arguments IndexError {A}.

(** [for roster_player in team.roster] in [get_player_stats], with its
    [break]. *)
Fixpoint scan_roster (player_name : string) (roster : list Player)
    (player : option Player) : option Player :=
  match roster with
  | [] => player
  | roster_player :: rest =>
      if contains (lower player_name) (lower (name roster_player))
      then Some roster_player
      else scan_roster player_name rest player
  end.

(** [for team in league.teams], with [if player: break]; a [Player] object
    is truthy. *)
Fixpoint scan_teams (player_name : string) (teams : list Team)
    (player : option Player) : option Player :=
  match teams with
  | [] => player
  | team :: rest =>
      let player := scan_roster player_name (roster team) player in
      match player with
      | Some _ => player
      | None => scan_teams player_name rest player
      end
  end.

(** [get_player_stats(league_id, player_name)], once the league has been
    read. *)
Definition get_player_stats (league_id : Z) (player_name : string)
    (teams : list Team) : outcome Player :=
  match scan_teams player_name teams None with
  | None =>
      Reply ("Player '" +:+ player_name +:+ "' not found in league "
             +:+ pretty league_id)
  | Some player => Data player
  end.

(** The selection of the team in [get_team_roster] and [get_team_info]. *)
Definition select_team (team_id : Z) (teams : list Team) : outcome Team :=
  let n := Z.of_nat (length teams) in
  if (team_id <? 1) || (n <? team_id) then
    Reply ("Invalid team_id. Must be between 1 and " +:+ pretty n)
  else
    match index teams (team_id - 1) with
    | Some team => Data team
    | None => IndexError
    end.

(** An exception as the error helpers of the server see it: [str(exc)] and
    the attributes that hold an [int] ([None] when the attribute is
    missing or holds something else). *)
Record exc := {
  response_status_code : option Z;
  exc_status_code : option Z;
  exc_status : option Z;
  text : string
}.

(** [_extract_http_status(exc)]. *)
Definition _extract_http_status (e : exc) : option Z :=
  match response_status_code e with
  | Some code => Some code
  | None =>
      match exc_status_code e with
      | Some code => Some code
      | None => exc_status e
      end
  end.

Inductive category := auth | not_found | runtime.

Definition auth_suggestion : string :=
  "Authenticate first using the authenticate tool with ESPN_S2 and SWID cookies.".

(** [_classify_error(exc)]: category, status code and suggestion. *)
Definition _classify_error (e : exc) : category * option Z * option string :=
  let code := _extract_http_status e in
  let text := lower (text e) in
  if bool_decide (code = Some 401) || contains "private" text
     || contains "unauthorized" text || contains "forbidden" text
  then (auth, code, Some auth_suggestion)
  else if bool_decide (code = Some 404) || contains "not found" text
  then (not_found, code, None)
  else (runtime, code, None).

(** The dict [_error_json] serialises; [suggestion] is [None] when the key
    is not set. *)
Record payload := {
  error : bool;
  context : string;
  pl_category : category;
  pl_status_code : option Z;
  message : string;
  suggestion : option string
}.

(** [_error_json(context, exc)], before [_to_json]. *)
Definition _error_json (context : string) (e : exc) : payload :=
  let '(cat, code, sugg) := _classify_error e in
  {| error := true; context := context; pl_category := cat; pl_status_code := code;
     message := text e;
     suggestion := if Py.truthy sugg then sugg else None |}.

End Tools.

(* ===================================================================== *)
(** ** Properties *)
(* ===================================================================== *)

(** *** Strings *)

Lemma string_length_app (s1 s2 : string) :
  String.length (s1 +:+ s2) = (String.length s1 + String.length s2)%nat.
Proof.
  induction s1 as [|c s1 IH]; [done|].
  change (S (String.length (s1 +:+ s2))
          = S (String.length s1 + String.length s2)).
  by rewrite IH.
Qed.

Lemma prefix_cons (a b : ascii) (s1 s2 : string) :
  String.prefix (String a s1) (String b s2)
  = bool_decide (a = b) && String.prefix s1 s2.
Proof.
  change (String.prefix (String a s1) (String b s2))
    with (if ascii_dec a b then String.prefix s1 s2 else false).
  destruct (ascii_dec a b); case_bool_decide; done.
Qed.

Lemma drop_split (n : nat) (s : string) :
  (n ≤ String.length s)%nat →
  ∃ pre, s = pre +:+ Py.drop n s ∧ String.length pre = n.
Proof.
  revert s. induction n as [|n IH]; intros s Hn.
  - exists "". by destruct s.
  - destruct s as [|c s]; simpl in Hn; [lia|].
    destruct (IH s) as (pre & Hs & Hl); [lia|].
    exists (String c pre). split.
    + exact (f_equal (String c) Hs).
    + simpl. by rewrite Hl.
Qed.

Lemma drop_length (n : nat) (s : string) :
  String.length (Py.drop n s) = (String.length s - n)%nat.
Proof.
  revert s. induction n as [|n IH]; intros [|c s]; simpl; auto.
Qed.

Lemma repeat_char_length (c : ascii) (n : Z) :
  String.length (Py.repeat_char c n) = Z.to_nat n.
Proof.
  unfold Py.repeat_char. generalize (Z.to_nat n) as k.
  induction k as [|k IH]; simpl; [done | by rewrite IH].
Qed.

(** *** [mask_secret] *)

Lemma mask_secret_short (s : string) :
  (String.length s ≤ 4)%nat →
  Auth.mask_secret (Some s) 4 = Py.repeat_char "*" (Z.of_nat (String.length s)).
Proof.
  intros Hlen. destruct s as [|c s]; [done|].
  unfold Auth.mask_secret.
  destruct (Z.leb_spec (Z.of_nat (String.length (String c s))) 4); [done | lia].
Qed.

Lemma mask_secret_long (s : string) :
  (4 < String.length s)%nat →
  ∃ pre suf, s = pre +:+ suf ∧ String.length suf = 4%nat
    ∧ Auth.mask_secret (Some s) 4
      = Py.repeat_char "*" (Z.of_nat (String.length pre)) +:+ suf.
Proof.
  intros Hlen. destruct s as [|c s]; [simpl in Hlen; lia|].
  set (v := String c s) in *.
  destruct (drop_split (String.length v - 4) v) as (pre & Hv & Hpre); [lia|].
  exists pre, (Py.drop (String.length v - 4) v).
  split; [done|]. split; [rewrite drop_length; lia|].
  unfold Auth.mask_secret. fold v.
  destruct (Z.leb_spec (Z.of_nat (String.length v)) 4); [lia|].
  unfold Py.slice_from. simpl (- 4 <? 0).
  rewrite Hpre. do 2 f_equal; [lia|].
  f_equal. lia.
Qed.

(** The masked token has the length of the token. *)
Lemma mask_secret_length (s : string) :
  String.length (Auth.mask_secret (Some s) 4) = String.length s.
Proof.
  destruct (le_lt_dec (String.length s) 4) as [H|H].
  - rewrite (mask_secret_short s H), repeat_char_length. lia.
  - destruct (mask_secret_long s H) as (pre & suf & -> & Hs & ->).
    rewrite !string_length_app, repeat_char_length. lia.
Qed.

(** C9.  With the default [show_last = 4], a token of at most 4 characters
    is masked as one ["*"] per character, and a longer token [pre ++ suf]
    with [suf] its last 4 characters is masked as one ["*"] per character of
    [pre] followed by [suf] unchanged. *)
Theorem mask_secret_rule (s : string) :
  ((String.length s ≤ 4)%nat →
     Auth.mask_secret (Some s) 4
     = Py.repeat_char "*" (Z.of_nat (String.length s)))
  ∧ ((4 < String.length s)%nat →
     ∃ pre suf, s = pre +:+ suf ∧ String.length suf = 4%nat
       ∧ Auth.mask_secret (Some s) 4
         = Py.repeat_char "*" (Z.of_nat (String.length pre)) +:+ suf).
Proof. split; [apply mask_secret_short | apply mask_secret_long]. Qed.

Lemma mask_secret_rule_witness :
  Auth.mask_secret (Some "abc") 4 = "***"
  ∧ ∃ pre suf, "{1A2B-3C}" = pre +:+ suf ∧ String.length suf = 4%nat
      ∧ Auth.mask_secret (Some "{1A2B-3C}") 4
        = Py.repeat_char "*" (Z.of_nat (String.length pre)) +:+ suf.
Proof.
  split.
  - apply (proj1 (mask_secret_rule "abc")). simpl. lia.
  - apply (proj2 (mask_secret_rule "{1A2B-3C}")). simpl. lia.
Defined.

(** *** [CredentialManager.get] and [CredentialManager.set] *)

(** Whether the store holds a non-empty value for a token, under one of the
    names [get] reads. *)
Definition has_espn_s2 (w : Auth.world) : bool :=
  Py.truthy (Auth.memory_get w "ESPN_S2")
  || Py.truthy (Auth.environ w !! "ESPN_S2")
  || Py.truthy (Auth.environ w !! "espn_s2").

Definition has_swid (w : Auth.world) : bool :=
  Py.truthy (Auth.memory_get w "SWID")
  || Py.truthy (Auth.environ w !! "SWID")
  || Py.truthy (Auth.environ w !! "swid").

Lemma truthy_or (x y : option string) :
  Py.truthy (Py.or_ x y) = Py.truthy x || Py.truthy y.
Proof. unfold Py.or_. by destruct (Py.truthy x) eqn:E. Qed.

Lemma truthy_or_empty (x : option string) :
  Py.truthy x = true → x = Some (Py.or_empty x).
Proof. by destruct x as [[|c s]|]. Qed.

Lemma get_tokens_truthy (now : Z) (w : Auth.world) :
  Py.truthy (Auth.get now w).1.1 = has_espn_s2 w
  ∧ Py.truthy (Auth.get now w).1.2 = has_swid w.
Proof.
  unfold Auth.get, has_espn_s2, has_swid. simpl.
  rewrite !truthy_or. split; by rewrite orb_assoc.
Qed.

Lemma get_is_valid (now : Z) (w : Auth.world) :
  Auth.is_valid (Auth.get now w).2 = has_espn_s2 w && has_swid w.
Proof.
  destruct (get_tokens_truthy now w) as [H2 Hw].
  rewrite <- H2, <- Hw. reflexivity.
Qed.

(** The tokens and the validity [get] reports do not depend on the clock. *)
Lemma get_clock (now now' : Z) (w : Auth.world) :
  (Auth.get now w).1 = (Auth.get now' w).1
  ∧ Auth.is_valid (Auth.get now w).2 = Auth.is_valid (Auth.get now' w).2.
Proof. done. Qed.

(** C7.  [get] reports [is_valid] exactly when the store holds a non-empty
    value for both tokens; the tokens it returns are non-empty exactly when
    held; so a store that holds one token and not the other is reported as
    not valid. *)
Theorem get_partial_never_valid (now : Z) (w : Auth.world) :
  Auth.is_valid (Auth.get now w).2 = has_espn_s2 w && has_swid w
  ∧ Py.truthy (Auth.get now w).1.1 = has_espn_s2 w
  ∧ Py.truthy (Auth.get now w).1.2 = has_swid w
  ∧ (has_espn_s2 w ≠ has_swid w → Auth.is_valid (Auth.get now w).2 = false).
Proof.
  destruct (get_tokens_truthy now w) as [H2 Hw].
  rewrite get_is_valid. repeat split; try done.
  intros Hne. destruct (has_espn_s2 w), (has_swid w); done.
Qed.

(** A process whose environment has only [SWID], and one whose manager was
    given only the other token. *)
Lemma get_partial_never_valid_witness :
  Auth.is_valid
    (Auth.get 0 (Auth.fresh_world (<["SWID" := "{B2}"]> ∅) Auth.NoFile)).2
  = false.
Proof.
  apply (get_partial_never_valid 0
           (Auth.fresh_world (<["SWID" := "{B2}"]> ∅) Auth.NoFile)).
  vm_compute. discriminate.
Defined.

(** [set] always stores the second token where [get] reads it first. *)
Lemma set_get_swid (now : Z) (a b : string) (mode : Auth.persist_mode)
    (w : Auth.world) :
  b ≠ "" → (Auth.get now (Auth.set a b mode w).1).1.2 = Some b.
Proof.
  intros Hb.
  assert (Hm : Auth.memory_get (Auth.set a b mode w).1 "SWID" = Some b).
  { unfold Auth.set, Auth._write_dotenv, Auth.memory_get.
    destruct mode; simpl; try (by rewrite lookup_insert_eq).
    destruct (Auth.dotenv_writable w); simpl; by rewrite lookup_insert_eq. }
  unfold Auth.get. simpl. rewrite Hm. unfold Py.or_.
  by destruct b.
Qed.

(** [set] stores the first token under the key ["espn_s2"] of [_memory],
    which [get] does not read: what [get] finds under ["ESPN_S2"] is what
    was there before. *)
Lemma set_memory_ESPN_S2 (a b : string) (mode : Auth.persist_mode)
    (w : Auth.world) :
  Auth.memory_get (Auth.set a b mode w).1 "ESPN_S2" = Auth.memory_get w "ESPN_S2".
Proof.
  unfold Auth.set, Auth._write_dotenv, Auth.memory_get.
  destruct mode; simpl;
    try (by rewrite lookup_insert_ne, lookup_insert_ne).
  destruct (Auth.dotenv_writable w); simpl;
    by rewrite lookup_insert_ne, lookup_insert_ne.
Qed.

(** With persist mode [memory] the first token never reaches [get]: in a
    process whose manager and environment hold no first token, [get] stays
    not valid after any [set]. *)
Lemma set_memory_mode_not_valid (now : Z) (a b : string) (w : Auth.world) :
  has_espn_s2 w = false →
  Auth.is_valid (Auth.get now (Auth.set a b Auth.pm_memory w).1).2 = false.
Proof.
  intros H. rewrite get_is_valid.
  assert (has_espn_s2 (Auth.set a b Auth.pm_memory w).1 = false) as ->; [|done].
  unfold has_espn_s2 in *.
  by rewrite (set_memory_ESPN_S2 a b Auth.pm_memory w).
Qed.

(** C1, on the code.  In a fresh manager of a process with an empty
    environment, [set("A1", "{B2}", persist_mode="memory")] followed by
    [get()] returns no first token and is not valid. *)
Theorem set_get_memory_mode_loses_espn_s2 :
  let w := (Auth.set "A1" "{B2}" Auth.pm_memory
              (Auth.fresh_world ∅ Auth.NoFile)).1 in
  (Auth.get 0 w).1.1 = None
  ∧ (Auth.get 0 w).1.2 = Some "{B2}"
  ∧ Auth.is_valid (Auth.get 0 w).2 = false.
Proof. by vm_compute. Qed.

(** *** [ensure_authenticated] *)

(** C6.  When [get] reports valid credentials, [ensure_authenticated]
    returns the stored tokens with that state, performs no driver operation
    and leaves the world as it was, whatever the browser would do. *)
Theorem ensure_authenticated_fast_path (headless : bool)
    (mode : Auth.persist_mode) (fuel : nat) (o : Browser.oracle)
    (w : Auth.world) (espn_s2 swid : option string) (state : Auth.AuthState) :
  Auth.get (Browser.wall_at o 0) w = (espn_s2, swid, state) →
  Auth.is_valid state = true →
  ∃ a b, espn_s2 = Some a ∧ swid = Some b
    ∧ Auth.ensure_authenticated headless mode fuel o w
      = Some (w, [], Ok (a, b, state)).
Proof.
  intros Hget Hvalid.
  pose proof (get_tokens_truthy (Browser.wall_at o 0) w) as [H2 Hw].
  pose proof (get_is_valid (Browser.wall_at o 0) w) as Hv.
  rewrite Hget in H2, Hw, Hv. simpl in H2, Hw, Hv.
  rewrite Hvalid in Hv. symmetry in Hv. apply andb_true_iff in Hv as [E2 Ew].
  rewrite E2 in H2. rewrite Ew in Hw.
  exists (Py.or_empty espn_s2), (Py.or_empty swid).
  split; [by apply truthy_or_empty|]. split; [by apply truthy_or_empty|].
  unfold Auth.ensure_authenticated. rewrite Hget, Hvalid. done.
Qed.

Lemma ensure_authenticated_fast_path_witness :
  let o := {| Browser.import_ok := false; Browser.start_ok := false;
              Browser.launch_ok := false; Browser.new_context_ok := false;
              Browser.new_page_ok := false; Browser.goto_ok := false;
              Browser.close_ok := false; Browser.time_at := λ _, 0;
              Browser.cookies_at := λ _, None; Browser.wall_at := λ _, 7 |} in
  let w := Auth.fresh_world
             (<["SWID" := "{B2}"]> (<["ESPN_S2" := "A1"]> ∅)) Auth.NoFile in
  ∃ a b, Some "A1" = Some a ∧ Some "{B2}" = Some b
    ∧ Auth.ensure_authenticated false Auth.pm_env 0 o w
      = Some (w, [], Ok (a, b, (Auth.get 7 w).2)).
Proof.
  intros o w.
  apply (ensure_authenticated_fast_path false Auth.pm_env 0%nat o w
           (Some "A1") (Some "{B2}") (Auth.get 7 w).2).
  - by vm_compute.
  - by vm_compute.
Defined.

(** *** [_resolve_session_id] *)

(** The string is empty or made of white space only. *)
Fixpoint all_space (s : string) : bool :=
  match s with
  | EmptyString => true
  | String c s' => Py.isspace c && all_space s'
  end.

(** The argument is [None], empty or made of white space only. *)
Definition blank (session_id : option string) : bool :=
  match session_id with
  | None => true
  | Some s => all_space s
  end.

Lemma lstrip_all_space (s : string) : all_space s = true → Py.lstrip s = "".
Proof.
  induction s as [|c s IH]; simpl; [done|].
  intros [Hc Hs]%andb_true_iff. rewrite Hc. auto.
Qed.

Lemma strip_blank (session_id : option string) :
  blank session_id = true → Py.strip (Py.or_empty session_id) = "".
Proof.
  destruct session_id as [[|c s]|]; try done.
  intros H. unfold Py.strip. simpl Py.or_empty.
  by rewrite (lstrip_all_space _ H).
Qed.

Lemma or_empty_truthy (x : option string) :
  Py.truthy x = true → Py.or_empty x ≠ "".
Proof. by destruct x as [[|c s]|]. Qed.

Lemma resolve_session_id_nonempty (env : gmap string string)
    (session_id : option string) :
  Server._resolve_session_id env session_id ≠ "".
Proof.
  unfold Server._resolve_session_id.
  destruct (Py.truthy (Some (Py.strip (Py.or_empty session_id)))) eqn:E.
  - by destruct (Py.strip (Py.or_empty session_id)).
  - apply or_empty_truthy. rewrite truthy_or. simpl. apply orb_true_r.
Qed.

Lemma resolve_session_id_blank (env : gmap string string)
    (session_id : option string) :
  blank session_id = true →
  Server._resolve_session_id env session_id
  = Py.or_empty
      (Py.or_ (Py.or_ (env !! "MCP_SESSION_ID") (env !! "SESSION_ID"))
              (Some "default_session")).
Proof.
  intros H. unfold Server._resolve_session_id. by rewrite (strip_blank _ H).
Qed.

(** C10.  The resolved session id is never empty.  For an argument that is
    absent, empty or white space only, in a process where neither
    [MCP_SESSION_ID] nor [SESSION_ID] has a non-empty value, it is
    ["default_session"]; and any two such arguments resolve, in one process,
    to the same id, hence to the same entry of [credentials] and to the same
    cache key for each league and year. *)
Theorem resolve_session_id_default (env : gmap string string)
    (session_id : option string) :
  Server._resolve_session_id env session_id ≠ ""
  ∧ (blank session_id = true →
     Py.truthy (env !! "MCP_SESSION_ID") = false →
     Py.truthy (env !! "SESSION_ID") = false →
     Server._resolve_session_id env session_id = "default_session")
  ∧ (∀ session_id' (a : Server.api) (league_id year : Z),
       blank session_id = true → blank session_id' = true →
       Server._resolve_session_id env session_id
       = Server._resolve_session_id env session_id'
       ∧ Server.credentials a !! Server._resolve_session_id env session_id
         = Server.credentials a !! Server._resolve_session_id env session_id'
       ∧ Server.cache_key (Server._resolve_session_id env session_id)
           league_id year
         = Server.cache_key (Server._resolve_session_id env session_id')
             league_id year).
Proof.
  split; [apply resolve_session_id_nonempty|]. split.
  - intros Hb H1 H2. rewrite (resolve_session_id_blank _ _ Hb).
    unfold Py.or_ at 2. rewrite H1. unfold Py.or_. by rewrite H2.
  - intros sid' a league_id year Hb Hb'.
    rewrite (resolve_session_id_blank _ _ Hb), (resolve_session_id_blank _ _ Hb').
    done.
Qed.

Lemma resolve_session_id_default_witness :
  Server._resolve_session_id (<["HOME" := "/root"]> ∅) (Some "  ")
  = "default_session"
  ∧ Server._resolve_session_id (<["HOME" := "/root"]> ∅) (Some "  ")
    = Server._resolve_session_id (<["HOME" := "/root"]> ∅) None.
Proof.
  split.
  - apply (resolve_session_id_default (<["HOME" := "/root"]> ∅) (Some "  "));
      by vm_compute.
  - apply (proj2 (proj2 (resolve_session_id_default
                           (<["HOME" := "/root"]> ∅) (Some "  ")))
             None Server.init 0 0); by vm_compute.
Defined.

(** *** [_write_dotenv] *)

(** In the specification's words: a line for [key] is one that starts with
    [key=]. *)
Definition is_key_line (key line : string) : bool :=
  Py.startswith (key +:+ "=") line.

(** A line for a credential key is replaced by the new line for that key;
    any other line is kept. *)
Definition replace_line (espn_s2 swid line : string) : string :=
  if is_key_line "ESPN_S2" line then "ESPN_S2" +:+ "=" +:+ espn_s2
  else if is_key_line "SWID" line then "SWID" +:+ "=" +:+ swid
  else line.

(** The line to append for a key that has no line yet. *)
Definition missing (key value : string) (old : list string) : list string :=
  if existsb (is_key_line key) old then [] else [key +:+ "=" +:+ value].


(** The lines of the file after the upsert, in the specification's words. *)
Definition upserted (espn_s2 swid : string) (old : list string) : list string :=
  map (replace_line espn_s2 swid) old
  ++ missing "ESPN_S2" espn_s2 old ++ missing "SWID" swid old.

Definition nl : string := String "010" "".

(** No character of the string ends a line. *)
Fixpoint breakfree (s : string) : bool :=
  match s with
  | EmptyString => true
  | String c s' => negb (Py.is_linebreak c) && breakfree s'
  end.

Lemma new_line_keys (value : string) :
  is_key_line "ESPN_S2" ("ESPN_S2" +:+ "=" +:+ value) = true
  ∧ is_key_line "SWID" ("ESPN_S2" +:+ "=" +:+ value) = false
  ∧ is_key_line "ESPN_S2" ("SWID" +:+ "=" +:+ value) = false
  ∧ is_key_line "SWID" ("SWID" +:+ "=" +:+ value) = true.
Proof. repeat split; by destruct value. Qed.

Lemma upsert_loop_spec (key value : string) (lines : list string)
    (found : bool) (acc : list string) :
  Auth.upsert_loop lines key value found acc
  = (found || existsb (is_key_line key) lines,
     acc ++ map (λ l, if is_key_line key l then key +:+ "=" +:+ value else l)
              lines).
Proof.
  revert found acc. induction lines as [|l lines IH]; intros found acc; simpl.
  - by rewrite orb_false_r, app_nil_r.
  - unfold is_key_line at 1 3. destruct (Py.startswith (key +:+ "=") l).
    + rewrite IH. simpl. rewrite orb_true_r. by rewrite <- app_assoc.
    + rewrite IH. simpl. by rewrite <- app_assoc.
Qed.

Lemma upsert_spec (key value : string) (lines : list string) :
  Auth.upsert lines key value
  = map (λ l, if is_key_line key l then key +:+ "=" +:+ value else l) lines
    ++ missing key value lines.
Proof.
  unfold Auth.upsert, missing. rewrite upsert_loop_spec. simpl.
  destruct (existsb (is_key_line key) lines); simpl; [by rewrite app_nil_r | done].
Qed.

Lemma espn_s2_line_not_swid (line : string) :
  is_key_line "ESPN_S2" line = true → is_key_line "SWID" line = false.
Proof.
  destruct line as [|c line]; [done|].
  unfold is_key_line, Py.startswith.
  change ("ESPN_S2" +:+ "=") with "ESPN_S2=".
  change ("SWID" +:+ "=") with "SWID=".
  rewrite !prefix_cons.
  case_bool_decide as E; [subst c; done | done].
Qed.

Lemma swid_line_after_espn_s2 (espn_s2 line : string) :
  is_key_line "SWID"
    (if is_key_line "ESPN_S2" line then "ESPN_S2" +:+ "=" +:+ espn_s2 else line)
  = is_key_line "SWID" line.
Proof.
  destruct (is_key_line "ESPN_S2" line) eqn:E; [|done].
  by rewrite (espn_s2_line_not_swid _ E).
Qed.

Lemma existsb_swid_after_espn_s2 (espn_s2 : string) (lines : list string) :
  existsb (is_key_line "SWID")
    (map (λ l, if is_key_line "ESPN_S2" l then "ESPN_S2" +:+ "=" +:+ espn_s2
               else l) lines ++ missing "ESPN_S2" espn_s2 lines)
  = existsb (is_key_line "SWID") lines.
Proof.
  rewrite existsb_app.
  assert (existsb (is_key_line "SWID") (missing "ESPN_S2" espn_s2 lines) = false)
    as ->.
  { unfold missing. by destruct (existsb _ lines). }
  rewrite orb_false_r.
  induction lines as [|l lines IH]; simpl; [done|].
  by rewrite swid_line_after_espn_s2, IH.
Qed.

(** The two upserts of [_write_dotenv] give the lines of the specification. *)
Lemma upsert_twice (espn_s2 swid : string) (old : list string) :
  Auth.upsert (Auth.upsert old "ESPN_S2" espn_s2) "SWID" swid
  = upserted espn_s2 swid old.
Proof.
  rewrite (upsert_spec "ESPN_S2"), (upsert_spec "SWID"). unfold upserted.
  assert (missing "SWID" swid
            (map (λ l, if is_key_line "ESPN_S2" l
                       then "ESPN_S2" +:+ "=" +:+ espn_s2 else l) old
             ++ missing "ESPN_S2" espn_s2 old)
          = missing "SWID" swid old) as ->.
  { unfold missing at 1 3. by rewrite existsb_swid_after_espn_s2. }
  rewrite map_app, <- app_assoc. f_equal.
  - rewrite map_map. apply map_ext. intros l. unfold replace_line.
    destruct (is_key_line "ESPN_S2" l) eqn:E; done.
  - f_equal. unfold missing. by destruct (existsb _ old).
Qed.




(** Reading back what [_write_dotenv] wrote. *)

Lemma string_app_assoc (a b c : string) : (a +:+ b) +:+ c = a +:+ (b +:+ c).
Proof.
  induction a as [|x a IH]; [done|].
  change (String x ((a +:+ b) +:+ c) = String x (a +:+ (b +:+ c))).
  by rewrite IH.
Qed.

Lemma breakfree_app (a b : string) :
  breakfree (a +:+ b) = breakfree a && breakfree b.
Proof.
  induction a as [|x a IH]; [done|].
  change (negb (Py.is_linebreak x) && breakfree (a +:+ b)
          = negb (Py.is_linebreak x) && breakfree a && breakfree b).
  by rewrite IH, andb_assoc.
Qed.

Lemma splitlines_line (l rest : string) :
  breakfree l = true →
  Py.splitlines (l +:+ nl +:+ rest) = l :: Py.splitlines rest.
Proof.
  induction l as [|c l IH]; intros Hl.
  - change (Py.splitlines (String "010" rest) = "" :: Py.splitlines rest).
    by destruct rest.
  - simpl in Hl. apply andb_true_iff in Hl as [Hc Hl].
    change (Py.splitlines (String c (l +:+ nl +:+ rest))
            = String c l :: Py.splitlines rest).
    simpl. apply negb_true_iff in Hc. rewrite Hc, (IH Hl). done.
Qed.

Lemma splitlines_join (ls : list string) :
  ls ≠ [] → Forall (λ l, breakfree l = true) ls →
  Py.splitlines (Py.join nl ls +:+ nl) = ls.
Proof.
  induction ls as [|l ls IH]; [done|]. intros _ Hall.
  apply Forall_cons in Hall as [Hl Hls].
  destruct ls as [|l2 ls].
  - change (Py.splitlines (l +:+ nl +:+ "") = [l]).
    by rewrite (splitlines_line l "" Hl).
  - change (Py.splitlines ((l +:+ nl +:+ Py.join nl (l2 :: ls)) +:+ nl)
            = l :: l2 :: ls).
    rewrite !string_app_assoc, (splitlines_line _ _ Hl).
    f_equal. by apply IH.
Qed.

(** No character of the string is a carriage return. *)
Fixpoint no_cr (s : string) : bool :=
  match s with
  | EmptyString => true
  | String c s' => negb (Py.is_cr c) && no_cr s'
  end.

Lemma read_text_no_cr (s : string) : no_cr s = true → Py.read_text s = s.
Proof.
  induction s as [|c s IH]; simpl; [done|].
  intros [Hc Hs]%andb_true_iff. apply negb_true_iff in Hc.
  by rewrite Hc, (IH Hs).
Qed.

Lemma is_cr_linebreak (c : ascii) : Py.is_cr c = true → Py.is_linebreak c = true.
Proof.
  unfold Py.is_cr, Py.is_linebreak. intros ->%Nat.eqb_eq. done.
Qed.

Lemma breakfree_no_cr (s : string) : breakfree s = true → no_cr s = true.
Proof.
  induction s as [|c s IH]; simpl; [done|].
  intros [Hc Hs]%andb_true_iff. rewrite (IH Hs), andb_true_r.
  destruct (Py.is_cr c) eqn:E; [|done].
  by rewrite (is_cr_linebreak _ E) in Hc.
Qed.

Lemma no_cr_app (a b : string) : no_cr (a +:+ b) = no_cr a && no_cr b.
Proof.
  induction a as [|x a IH]; [done|].
  change (negb (Py.is_cr x) && no_cr (a +:+ b)
          = negb (Py.is_cr x) && no_cr a && no_cr b).
  by rewrite IH, andb_assoc.
Qed.

Lemma no_cr_join (ls : list string) :
  Forall (λ l, breakfree l = true) ls → no_cr (Py.join nl ls +:+ nl) = true.
Proof.
  intros Hall. rewrite no_cr_app, andb_true_r.
  induction Hall as [|l ls Hl Hls IH]; [done|].
  destruct ls as [|l2 ls]; [by apply breakfree_no_cr|].
  change (no_cr (l +:+ nl +:+ Py.join nl (l2 :: ls)) = true).
  by rewrite !no_cr_app, (breakfree_no_cr _ Hl), IH.
Qed.

Lemma cons_line_breakfree (c : ascii) (ls : list string) :
  Py.is_linebreak c = false →
  Forall (λ l, breakfree l = true) ls →
  Forall (λ l, breakfree l = true) (Py.cons_line c ls).
Proof.
  intros Hc Hall. destruct Hall as [|l ls Hl Hls]; simpl.
  - constructor; [|done]. simpl. by rewrite Hc.
  - constructor; [|done]. simpl. by rewrite Hc, Hl.
Qed.

(** The lines [splitlines] returns hold no line terminator. *)
Lemma splitlines_breakfree (s : string) :
  Forall (λ l, breakfree l = true) (Py.splitlines s).
Proof.
  assert (H : ∀ n s, (String.length s ≤ n)%nat →
            Forall (λ l, breakfree l = true) (Py.splitlines s)).
  { clear s. induction n as [|n IH]; intros [|c s] Hn; simpl in *;
      try done; try lia.
    destruct (Py.is_linebreak c) eqn:Hc.
    - destruct s as [|c' s']; [by repeat constructor|].
      destruct (Py.is_cr c && Py.is_lf c').
      + constructor; [done|]. apply IH. simpl in Hn. lia.
      + constructor; [done|]. apply IH. lia.
    - apply cons_line_breakfree; [done|]. apply IH. lia. }
  by apply (H (String.length s)).
Qed.

Lemma upserted_breakfree (espn_s2 swid : string) (old : list string) :
  breakfree espn_s2 = true → breakfree swid = true →
  Forall (λ l, breakfree l = true) old →
  Forall (λ l, breakfree l = true) (upserted espn_s2 swid old).
Proof.
  intros Ha Hb Hold.
  assert (K2 : breakfree ("ESPN_S2" +:+ "=" +:+ espn_s2) = true).
  { by rewrite !breakfree_app, Ha. }
  assert (Kw : breakfree ("SWID" +:+ "=" +:+ swid) = true).
  { by rewrite !breakfree_app, Hb. }
  unfold upserted. rewrite !Forall_app. repeat split.
  - induction Hold as [|l old Hl Hold IH]; simpl; constructor; [|done].
    unfold replace_line.
    destruct (is_key_line "ESPN_S2" l); [done|].
    by destruct (is_key_line "SWID" l).
  - unfold missing. destruct (existsb _ old); by repeat constructor.
  - unfold missing. destruct (existsb _ old); by repeat constructor.
Qed.

Lemma upserted_nonempty (espn_s2 swid : string) (old : list string) :
  upserted espn_s2 swid old ≠ [].
Proof. unfold upserted, missing. by destruct old. Qed.

(** A file that exists and cannot be read is taken as empty: after the
    call it holds the two credential lines only. *)
Lemma write_dotenv_unreadable (espn_s2 swid : string) (w : Auth.world) :
  Auth.dotenv w = Auth.FileUnreadable → Auth.dotenv_writable w = true →
  Auth.dotenv (Auth._write_dotenv espn_s2 swid w).1
  = Auth.FileText (Py.join nl ["ESPN_S2" +:+ "=" +:+ espn_s2;
                               "SWID" +:+ "=" +:+ swid] +:+ nl).
Proof. intros Hf Hw. unfold Auth._write_dotenv. by rewrite Hf, Hw. Qed.










(** *** Cookie capture *)

Import Browser.

Lemma browser_running_app (tr1 tr2 : list event) :
  browser_running (tr1 ++ tr2)
  = fold_left running_after tr2 (browser_running tr1).
Proof. unfold browser_running. apply fold_left_app. Qed.

Lemma browser_running_stop (tr : list event) :
  browser_running (tr ++ [EvStop]) = false.
Proof. by rewrite browser_running_app. Qed.

Lemma browser_running_close_stop (tr : list event) (ok : bool) :
  browser_running (tr ++ [EvClose ok; EvStop]) = false.
Proof. rewrite browser_running_app. by destruct ok. Qed.

(** A successful [browser.close()] is among the operations, before the end
    of the playwright block. *)
Definition closed_then_stopped (tr : list event) : Prop :=
  ∃ tr0, tr = tr0 ++ [EvClose true; EvStop].

(** The cookies found after the first [n] polls. *)
Fixpoint observed (o : oracle) (n : nat) : option string * option string :=
  match n with
  | O => (None, None)
  | S k => fold_left Auth.scan_cookie (default [] (cookies_at o k)) (observed o k)
  end.

Definition both (found : option string * option string) : bool :=
  Py.truthy found.1 && Py.truthy found.2.

(** Every driver operation other than the polls succeeds. *)
Definition driver_ok (o : oracle) : Prop :=
  import_ok o = true ∧ start_ok o = true ∧ launch_ok o = true
  ∧ new_context_ok o = true ∧ new_page_ok o = true ∧ goto_ok o = true
  ∧ close_ok o = true.

(** The loop ends once the clock reaches the deadline. *)
Lemma auth_poll_loop_total (o : oracle) (deadline : Z) (n : nat) :
  ∀ k f2 fw tr, deadline ≤ time_at o (S (k + n)) →
    ∃ r, Auth.poll_loop o deadline (S n) k f2 fw tr = Some r.
Proof.
  induction n as [|n IH]; intros k f2 fw tr Hn; simpl.
  - rewrite Nat.add_0_r in Hn.
    destruct (Z.ltb_spec (time_at o (S k)) deadline); [lia|]. eauto.
  - destruct (time_at o (S k) <? deadline); [|eauto].
    destruct (cookies_at o k) as [cs|]; [|eauto].
    destruct (fold_left Auth.scan_cookie cs (f2, fw)) as [g2 gw].
    destruct (Py.truthy g2 && Py.truthy gw); [eauto|].
    apply (IH (S k)). by replace (S k + n)%nat with (k + S n)%nat by lia.
Qed.

(** More fuel does not change a result. *)
Lemma auth_poll_loop_fuel (o : oracle) (deadline : Z) (fuel : nat) :
  ∀ k f2 fw tr r, Auth.poll_loop o deadline fuel k f2 fw tr = Some r →
    Auth.poll_loop o deadline (S fuel) k f2 fw tr = Some r.
Proof.
  induction fuel as [|fuel IH]; intros k f2 fw tr r; [done|].
  intros H. simpl in H. cbn [Auth.poll_loop].
  destruct (time_at o (S k) <? deadline); [|done].
  destruct (cookies_at o k) as [cs|]; [|done].
  destruct (fold_left Auth.scan_cookie cs (f2, fw)) as [g2 gw].
  destruct (Py.truthy g2 && Py.truthy gw); [done|].
  by apply IH.
Qed.

(** When the clock reaches the deadline at its [n]-th test after poll [k],
    every poll before succeeds and the cookies found are never both
    non-empty, the loop ends at the deadline with what was found. *)
Lemma auth_poll_loop_deadline (o : oracle) (deadline : Z) (n : nat) :
  ∀ k tr,
    (∀ j, (k ≤ j < k + n)%nat →
       time_at o (S j) < deadline ∧ is_Some (cookies_at o j)) →
    deadline ≤ time_at o (S (k + n)) →
    (∀ j, (k < j ≤ k + n)%nat → both (observed o j) = false) →
    ∃ tr', Auth.poll_loop o deadline (S n) k (observed o k).1 (observed o k).2 tr
           = Some (tr', PollExit (observed o (k + n)).1 (observed o (k + n)).2).
Proof.
  induction n as [|n IH]; intros k tr Hpolls Hend Hnot; simpl.
  - rewrite Nat.add_0_r in *.
    destruct (Z.ltb_spec (time_at o (S k)) deadline); [lia|]. eauto.
  - destruct (Hpolls k) as [Ht [cs Hcs]]; [lia|].
    destruct (Z.ltb_spec (time_at o (S k)) deadline); [|lia].
    rewrite Hcs.
    assert (Hobs : fold_left Auth.scan_cookie cs
                     ((observed o k).1, (observed o k).2) = observed o (S k)).
    { simpl. rewrite Hcs. simpl. by destruct (observed o k). }
    rewrite Hobs. destruct (observed o (S k)) as [g2 gw] eqn:E.
    pose proof (Hnot (S k)) as Hb. rewrite E in Hb. unfold both in Hb.
    simpl in Hb. rewrite Hb by lia.
    replace (k + S n)%nat with (S k + n)%nat in * by lia.
    destruct (IH (S k) (tr ++ [EvCookies true; EvSleep])) as [tr' Htr'].
    + intros j Hj. apply Hpolls. lia.
    + done.
    + intros j Hj. apply Hnot. lia.
    + rewrite E in Htr'. simpl in Htr'. eauto.
Qed.

(** The operations of the polling loop come after those before it. *)
Lemma auth_poll_loop_trace (o : oracle) (deadline : Z) (fuel : nat) :
  ∀ k f2 fw tr tr' pe, Auth.poll_loop o deadline fuel k f2 fw tr = Some (tr', pe) →
    ∃ ps, tr' = tr ++ ps ∧ Forall (λ e, is_launch e = false) ps.
Proof.
  induction fuel as [|fuel IH]; intros k f2 fw tr tr' pe; [done|]. simpl.
  destruct (time_at o (S k) <? deadline).
  - destruct (cookies_at o k) as [cs|].
    + destruct (fold_left Auth.scan_cookie cs (f2, fw)) as [g2 gw].
      destruct (Py.truthy g2 && Py.truthy gw).
      * intros [= <- <-]. exists [EvCookies true]. by repeat constructor.
      * intros H. destruct (IH _ _ _ _ _ _ H) as (ps & -> & Hps).
        exists ([EvCookies true; EvSleep] ++ ps).
        split; [by rewrite <- app_assoc|]. by repeat constructor.
    + intros [= <- <-]. exists [EvCookies false]. by repeat constructor.
  - intros [= <- <-]. exists []. by rewrite app_nil_r.
Qed.

(** [authenticate_browser]: no browser runs when the call ends, however it
    ends. *)
Lemma authenticate_browser_released (timeout_seconds : Z) (headless : bool)
    (fuel : nat) (o : oracle) (tr : list event) (r : result (string * string)) :
  Auth.authenticate_browser timeout_seconds headless fuel o = Some (tr, r) →
  browser_running tr = false.
Proof.
  unfold Auth.authenticate_browser.
  destruct (import_ok o); simpl; [|by intros [= <- <-]].
  destruct (start_ok o); simpl; [|by intros [= <- <-]].
  destruct (launch_ok o); simpl; [|by intros [= <- <-]].
  destruct (new_context_ok o); simpl; [|by intros [= <- <-]].
  destruct (new_page_ok o); simpl; [|by intros [= <- <-]].
  destruct (goto_ok o); simpl; [|by intros [= <- <-]].
  destruct (Auth.poll_loop _ _ _ _ _ _ _) as [[tr' pe]|]; [|done].
  unfold Auth.after_poll.
  destruct (close_ok o); [|intros [= <- <-]; apply browser_running_close_stop].
  destruct pe as [[s2|] [sw|]|e]; try (intros [= <- <-]; apply browser_running_close_stop).
  destruct (negb _); intros [= <- <-]; apply browser_running_close_stop.
Qed.

(** [authenticate_browser] returns cookies or raises only after
    [browser.close()] whenever the polling loop was entered and the close
    succeeds. *)
Lemma authenticate_browser_closes (timeout_seconds : Z) (headless : bool)
    (fuel : nat) (o : oracle) (tr : list event) (r : result (string * string)) :
  driver_ok o →
  Auth.authenticate_browser timeout_seconds headless fuel o = Some (tr, r) →
  closed_then_stopped tr.
Proof.
  intros (Hi & Hs & Hl & Hc & Hp & Hg & Hx).
  unfold Auth.authenticate_browser. rewrite Hi, Hs, Hl, Hc, Hp, Hg. simpl.
  destruct (Auth.poll_loop _ _ _ _ _ _ _) as [[tr' pe]|]; [|done].
  unfold Auth.after_poll. rewrite Hx.
  destruct pe as [[s2|] [sw|]|e]; try (intros [= <- <-]; by exists tr').
  destruct (negb _); intros [= <- <-]; by exists tr'.
Qed.

(** [authenticate_browser] raises the timeout when the deadline passes
    without both cookies. *)
Lemma authenticate_browser_timeout (timeout_seconds : Z) (headless : bool)
    (o : oracle) (n : nat) :
  driver_ok o →
  (∀ j, (j < n)%nat →
     time_at o (S j) < time_at o 0 + timeout_seconds
     ∧ is_Some (cookies_at o j)) →
  time_at o 0 + timeout_seconds ≤ time_at o (S n) →
  (∀ j, (j ≤ n)%nat → both (observed o j) = false) →
  ∃ tr, Auth.authenticate_browser timeout_seconds headless (S n) o
        = Some (tr, Raise (TimeoutError Auth.timeout_msg))
    ∧ closed_then_stopped tr ∧ browser_running tr = false.
Proof.
  intros Hok Hpolls Hend Hnot.
  destruct (auth_poll_loop_deadline o (time_at o 0 + timeout_seconds) n 0%nat
              [EvStart true; EvLaunch headless true; EvNewContext true;
               EvNewPage true; EvGoto true]) as [tr' Htr'].
  { intros j Hj. apply Hpolls. lia. }
  { done. }
  { intros j Hj. apply Hnot. lia. }
  simpl in Htr'.
  assert (Hrun : Auth.authenticate_browser timeout_seconds headless (S n) o
                 = Some (tr' ++ [EvClose true; EvStop],
                         Raise (TimeoutError Auth.timeout_msg))).
  { destruct Hok as (Hi & Hs & Hl & Hc & Hp & Hg & Hx).
    unfold Auth.authenticate_browser. rewrite Hi, Hs, Hl, Hc, Hp, Hg. simpl.
    cbn [Auth.poll_loop] in Htr'. rewrite Htr'.
    unfold Auth.after_poll. rewrite Hx.
    pose proof (Hnot n (le_n n)) as Hb. unfold both in Hb.
    destruct (observed o n) as [[s2|] [sw|]]; simpl in *; try done.
    by rewrite Hb. }
  exists (tr' ++ [EvClose true; EvStop]). split; [done|]. split.
  - by exists tr'.
  - apply browser_running_close_stop.
Qed.

(** The same facts for [_capture_cookies_via_browser]. *)

Fixpoint server_observed (o : oracle) (n : nat)
  : option string * option string :=
  match n with
  | O => (None, None)
  | S k => fold_left Server.scan_cookie (default [] (cookies_at o k))
             (server_observed o k)
  end.

Lemma server_poll_loop_total (o : oracle) (deadline : Z) (n : nat) :
  ∀ k v2 vw tr, deadline ≤ time_at o (S (k + n)) →
    ∃ r, Server.poll_loop o deadline (S n) k v2 vw tr = Some r.
Proof.
  induction n as [|n IH]; intros k v2 vw tr Hn; simpl.
  - rewrite Nat.add_0_r in Hn.
    destruct (Z.ltb_spec (time_at o (S k)) deadline); [lia|]. simpl. eauto.
  - destruct ((time_at o (S k) <? deadline) && _); [|eauto].
    destruct (cookies_at o k) as [cs|]; [|eauto].
    destruct (fold_left Server.scan_cookie cs (v2, vw)) as [g2 gw].
    destruct (Py.truthy g2 && Py.truthy gw); [eauto|].
    apply (IH (S k)). by replace (S k + n)%nat with (k + S n)%nat by lia.
Qed.

Lemma server_poll_loop_deadline (o : oracle) (deadline : Z) (n : nat) :
  ∀ k tr,
    (∀ j, (k ≤ j < k + n)%nat →
       time_at o (S j) < deadline ∧ is_Some (cookies_at o j)) →
    deadline ≤ time_at o (S (k + n)) →
    (∀ j, (k ≤ j ≤ k + n)%nat →
       Server.is_None (server_observed o j).1
       || Server.is_None (server_observed o j).2 = true) →
    ∃ tr', Server.poll_loop o deadline (S n) k
             (server_observed o k).1 (server_observed o k).2 tr
           = Some (tr', PollExit (server_observed o (k + n)).1
                                 (server_observed o (k + n)).2).
Proof.
  induction n as [|n IH]; intros k tr Hpolls Hend Hnot; simpl.
  - rewrite Nat.add_0_r in *.
    destruct (Z.ltb_spec (time_at o (S k)) deadline); [lia|]. simpl. eauto.
  - destruct (Hpolls k) as [Ht [cs Hcs]]; [lia|].
    destruct (Z.ltb_spec (time_at o (S k)) deadline); [|lia].
    rewrite (Hnot k) by lia. simpl. rewrite Hcs.
    assert (Hobs : fold_left Server.scan_cookie cs
                     ((server_observed o k).1, (server_observed o k).2)
                   = server_observed o (S k)).
    { simpl. rewrite Hcs. simpl. by destruct (server_observed o k). }
    rewrite Hobs. destruct (server_observed o (S k)) as [g2 gw] eqn:E.
    pose proof (Hnot (S k)) as Hb. rewrite E in Hb. simpl in Hb.
    assert (Py.truthy g2 && Py.truthy gw = false) as ->.
    { destruct g2, gw; simpl in *; try done; lia || (by rewrite ?andb_false_r).
    }
    replace (k + S n)%nat with (S k + n)%nat in * by lia.
    destruct (IH (S k) (tr ++ [EvCookies true; EvSleep])) as [tr' Htr'].
    + intros j Hj. apply Hpolls. lia.
    + done.
    + intros j Hj. apply Hnot. lia.
    + rewrite E in Htr'. simpl in Htr'. eauto.
Qed.

(** [_capture_cookies_via_browser]: no browser runs when the call ends. *)
Lemma capture_cookies_released (headless : bool) (timeout_seconds : Z)
    (fuel : nat) (o : oracle) (tr : list event)
    (r : option string * option string) :
  Server._capture_cookies_via_browser headless timeout_seconds fuel o
  = Some (tr, r) →
  browser_running tr = false.
Proof.
  unfold Server._capture_cookies_via_browser.
  destruct (start_ok o); simpl; [|by intros [= <- <-]].
  destruct (launch_ok o); simpl; [|by intros [= <- <-]].
  destruct (new_context_ok o); simpl; [|by intros [= <- <-]].
  destruct (new_page_ok o); simpl; [|by intros [= <- <-]].
  destruct (goto_ok o); simpl; [|by intros [= <- <-]].
  destruct (Server.poll_loop _ _ _ _ _ _ _) as [[tr' pe]|]; [|done].
  destruct pe as [v2 vw|e].
  - destruct (close_ok o); intros [= <- <-]; apply browser_running_close_stop.
  - intros [= <- <-]. apply browser_running_stop.
Qed.

(** [_capture_cookies_via_browser] returns what it found when the deadline
    passes with a cookie still missing: it raises nothing. *)
Lemma capture_cookies_deadline (headless : bool) (timeout_seconds : Z)
    (o : oracle) (n : nat) :
  driver_ok o →
  (∀ j, (j < n)%nat →
     time_at o (S j) < time_at o 0 + timeout_seconds
     ∧ is_Some (cookies_at o j)) →
  time_at o 0 + timeout_seconds ≤ time_at o (S n) →
  (∀ j, (j ≤ n)%nat →
     Server.is_None (server_observed o j).1
     || Server.is_None (server_observed o j).2 = true) →
  ∃ tr, Server._capture_cookies_via_browser headless timeout_seconds (S n) o
        = Some (tr, server_observed o n)
    ∧ closed_then_stopped tr ∧ browser_running tr = false.
Proof.
  intros (Hi & Hs & Hl & Hc & Hp & Hg & Hx) Hpolls Hend Hnot.
  destruct (server_poll_loop_deadline o (time_at o 0 + timeout_seconds) n 0%nat
              [EvStart true; EvLaunch headless true; EvNewContext true;
               EvNewPage true; EvGoto true]) as [tr' Htr'].
  { intros j Hj. apply Hpolls. lia. }
  { done. }
  { intros j Hj. apply Hnot. lia. }
  simpl in Htr'.
  exists (tr' ++ [EvClose true; EvStop]). split; [|split].
  - unfold Server._capture_cookies_via_browser.
    rewrite Hs, Hl, Hc, Hp, Hg. simpl.
    cbn [Server.poll_loop] in Htr'. rewrite Htr', Hx.
    by destruct (server_observed o n).
  - by exists tr'.
  - apply browser_running_close_stop.
Qed.

(** A login page on which nobody logs in: every driver operation succeeds,
    the cookie jar stays empty and the clock advances by one at each
    reading. *)
Definition nobody_logs_in : oracle :=
  {| import_ok := true; start_ok := true; launch_ok := true;
     new_context_ok := true; new_page_ok := true; goto_ok := true;
     close_ok := true; time_at := λ k, Z.of_nat k;
     cookies_at := λ _, Some []; wall_at := λ _, 0 |}.

(** C4, as stated, fails for [_capture_cookies_via_browser]: with a timeout
    of 2 and nobody logging in, the deadline passes with neither cookie
    observed and the call returns [(None, None)] instead of raising; the
    tool [authenticate] then returns its failure text and stores nothing. *)
Lemma capture_cookies_no_timeout_error :
  server_observed nobody_logs_in 2 = (None, None)
  ∧ Server._capture_cookies_via_browser false 2 3 nobody_logs_in
    = Some ([EvStart true; EvLaunch false true; EvNewContext true;
             EvNewPage true; EvGoto true; EvCookies true; EvSleep;
             EvClose true; EvStop], (None, None))
  ∧ ∃ tr, Server.authenticate ∅ 2 None 3 nobody_logs_in Server.init
          = Some (Server.init, tr, Server.auth_failed_msg).
Proof. split; [done|]. split; [done|]. eexists. by vm_compute. Qed.

Lemma authenticate_browser_total (timeout_seconds : Z) (headless : bool)
    (o : oracle) (n : nat) :
  time_at o 0 + timeout_seconds ≤ time_at o (S n) →
  ∃ res, Auth.authenticate_browser timeout_seconds headless (S n) o = Some res.
Proof.
  intros Hn. unfold Auth.authenticate_browser.
  destruct (import_ok o); cbn [negb]; [|eauto].
  destruct (start_ok o); cbn [negb]; [|eauto].
  destruct (launch_ok o); cbn [negb]; [|eauto].
  destruct (new_context_ok o); cbn [negb]; [|eauto].
  destruct (new_page_ok o); cbn [negb]; [|eauto].
  destruct (goto_ok o); cbn [negb]; [|eauto].
  destruct (auth_poll_loop_total o (time_at o 0 + timeout_seconds) n 0%nat
              None None [EvStart true; EvLaunch headless true;
                         EvNewContext true; EvNewPage true; EvGoto true] Hn)
    as [[tr pe] Hr].
  rewrite Hr. eauto.
Qed.

Lemma capture_cookies_total (headless : bool) (timeout_seconds : Z)
    (o : oracle) (n : nat) :
  time_at o 0 + timeout_seconds ≤ time_at o (S n) →
  ∃ res, Server._capture_cookies_via_browser headless timeout_seconds (S n) o
         = Some res.
Proof.
  intros Hn. unfold Server._capture_cookies_via_browser.
  destruct (start_ok o); cbn [negb]; [|eauto].
  destruct (launch_ok o); cbn [negb]; [|eauto].
  destruct (new_context_ok o); cbn [negb]; [|eauto].
  destruct (new_page_ok o); cbn [negb]; [|eauto].
  destruct (goto_ok o); cbn [negb]; [|eauto].
  destruct (server_poll_loop_total o (time_at o 0 + timeout_seconds) n 0%nat
              None None [EvStart true; EvLaunch headless true;
                         EvNewContext true; EvNewPage true; EvGoto true] Hn)
    as [[tr pe] Hr].
  rewrite Hr.
  destruct pe; [destruct (close_ok o)|]; eauto.
Qed.

(** A driver operation that raised. *)
Definition failed (e : event) : bool :=
  match e with
  | EvStart ok | EvNewContext ok | EvNewPage ok | EvGoto ok | EvCookies ok
  | EvClose ok => negb ok
  | EvLaunch _ ok => negb ok
  | EvSleep | EvStop => false
  end.

(** What the loop of [_capture_cookies_via_browser] adds to the
    operations: polls that succeed and sleeps, and a last poll that raises
    when the loop ends by an exception. *)
Lemma server_poll_loop_trace (o : oracle) (deadline : Z) (fuel : nat) :
  ∀ k v2 vw tr tr' pe,
    Server.poll_loop o deadline fuel k v2 vw tr = Some (tr', pe) →
    ∃ ps, tr' = tr ++ ps
      ∧ match pe with
        | PollExit _ _ => existsb failed ps = false
        | PollRaised _ => ∃ ps0, ps = ps0 ++ [EvCookies false]
        end.
Proof.
  induction fuel as [|fuel IH]; intros k v2 vw tr tr' pe; [done|]. simpl.
  destruct ((time_at o (S k) <? deadline) && _).
  - destruct (cookies_at o k) as [cs|].
    + destruct (fold_left Server.scan_cookie cs (v2, vw)) as [g2 gw].
      destruct (Py.truthy g2 && Py.truthy gw).
      * intros [= <- <-]. by exists [EvCookies true].
      * intros H. destruct (IH _ _ _ _ _ _ H) as (ps & -> & Hps).
        exists ([EvCookies true; EvSleep] ++ ps).
        split; [by rewrite <- app_assoc|].
        destruct pe as [? ?|?]; [done|].
        destruct Hps as [ps0 ->]. by exists ([EvCookies true; EvSleep] ++ ps0).
    + intros [= <- <-]. exists [EvCookies false]. split; [done|]. by exists [].
  - intros [= <- <-]. exists []. by rewrite app_nil_r.
Qed.

(** The ways [_capture_cookies_via_browser] ends.  When every driver
    operation other than the polls succeeds, it ends after
    [browser.close()], or a poll raised and it returns [(None, None)] with
    the exit of the playwright block as the only release.  After any
    driver operation that raised it returns [(None, None)]. *)
Lemma capture_cookies_paths (headless : bool) (timeout_seconds : Z)
    (fuel : nat) (o : oracle) (tr : list event)
    (r : option string * option string) :
  Server._capture_cookies_via_browser headless timeout_seconds fuel o
  = Some (tr, r) →
  (driver_ok o →
   closed_then_stopped tr
   ∨ (r = (None, None) ∧ ∃ tr0, tr = tr0 ++ [EvCookies false; EvStop]))
  ∧ (existsb failed tr = true → r = (None, None)).
Proof.
  unfold Server._capture_cookies_via_browser, driver_ok.
  destruct (start_ok o); cbn [negb];
    [|intros [= <- <-]; split; [by intros (_ & ? & _)|done]].
  destruct (launch_ok o); cbn [negb];
    [|intros [= <- <-]; split; [by intros (_ & _ & ? & _)|done]].
  destruct (new_context_ok o); cbn [negb];
    [|intros [= <- <-]; split; [by intros (_ & _ & _ & ? & _)|done]].
  destruct (new_page_ok o); cbn [negb];
    [|intros [= <- <-]; split; [by intros (_ & _ & _ & _ & ? & _)|done]].
  destruct (goto_ok o); cbn [negb];
    [|intros [= <- <-]; split; [by intros (_ & _ & _ & _ & _ & ? & _)|done]].
  destruct (Server.poll_loop _ _ _ _ _ _ _) as [[tr' pe]|] eqn:Hpoll; [|done].
  destruct (server_poll_loop_trace _ _ _ _ _ _ _ _ _ Hpoll) as (ps & -> & Hps).
  destruct pe as [v2 vw|e].
  - destruct (close_ok o); intros [= <- <-].
    + split.
      * intros _. left.
        by exists ([EvStart true; EvLaunch headless true; EvNewContext true;
                    EvNewPage true; EvGoto true] ++ ps).
      * intros Hf. exfalso. revert Hf.
        change (existsb failed
                  (([EvStart true; EvLaunch headless true; EvNewContext true;
                     EvNewPage true; EvGoto true] ++ ps)
                   ++ [EvClose true; EvStop]) = true → False).
        rewrite !existsb_app, Hps. done.
    + split; [by intros (_ & _ & _ & _ & _ & _ & ?)|done].
  - intros [= <- <-]. split; [|done]. intros _. right. split; [done|].
    destruct Hps as [ps0 ->].
    exists ([EvStart true; EvLaunch headless true; EvNewContext true;
             EvNewPage true; EvGoto true] ++ ps0).
    by rewrite <- !app_assoc.
Qed.

(** The tool [authenticate] answers with its failure text and stores
    nothing whenever the capture returns without one of the cookies. *)
Lemma authenticate_reports_failure (env : gmap string string)
    (timeout_seconds : Z) (session_id : option string) (fuel : nat)
    (o : oracle) (a : Server.api) (tr : list event) (s2 sw : option string) :
  Server._capture_cookies_via_browser false timeout_seconds fuel o
  = Some (tr, (s2, sw)) →
  s2 = None ∨ sw = None →
  Server.authenticate env timeout_seconds session_id fuel o a
  = Some (a, tr, Server.auth_failed_msg).
Proof.
  intros Hrun Hnone. unfold Server.authenticate. rewrite Hrun.
  destruct Hnone as [-> | ->]; [done|]. by rewrite orb_true_r.
Qed.

(** C4, amended.  Both capture functions return once the clock reaches the
    deadline, and no browser runs when they end, however they end.  When
    the driver operations succeed and the deadline passes at the [n]-th
    test of the clock without both cookies found,
    [authenticate_browser] raises [TimeoutError] after [browser.close()],
    while [_capture_cookies_via_browser] returns, after [browser.close()],
    what it found, a missing cookie being [None], and the tool
    [authenticate] answers with its failure text and stores nothing.
    Whenever the driver operations other than the polls succeed,
    [authenticate_browser] ends after [browser.close()], on success, on
    timeout and when a poll raises, and [_capture_cookies_via_browser] ends
    after [browser.close()] unless a poll raised, in which case the exit of
    the playwright block stops the browser.  After any driver operation
    that raised, [_capture_cookies_via_browser] returns [(None, None)]; and
    whenever it returns without one of the cookies, [authenticate] answers
    with its failure text. *)
Theorem cookie_capture_timeout_and_release (timeout_seconds : Z)
    (headless : bool) (o : oracle) (n : nat) :
  driver_ok o →
  (∀ j, (j < n)%nat →
     time_at o (S j) < time_at o 0 + timeout_seconds
     ∧ is_Some (cookies_at o j)) →
  time_at o 0 + timeout_seconds ≤ time_at o (S n) →
  ((∀ j, (j ≤ n)%nat → both (observed o j) = false) →
   ∃ tr, Auth.authenticate_browser timeout_seconds headless (S n) o
         = Some (tr, Raise (TimeoutError Auth.timeout_msg))
     ∧ closed_then_stopped tr ∧ browser_running tr = false)
  ∧ ((∀ j, (j ≤ n)%nat →
        Server.is_None (server_observed o j).1
        || Server.is_None (server_observed o j).2 = true) →
     (∃ tr, Server._capture_cookies_via_browser headless timeout_seconds (S n) o
            = Some (tr, server_observed o n)
        ∧ closed_then_stopped tr ∧ browser_running tr = false)
     ∧ ∀ env session_id a,
         ∃ tr, Server.authenticate env timeout_seconds session_id (S n) o a
               = Some (a, tr, Server.auth_failed_msg)
           ∧ closed_then_stopped tr ∧ browser_running tr = false)
  ∧ (∀ o' m, time_at o' 0 + timeout_seconds ≤ time_at o' (S m) →
       (∃ res, Auth.authenticate_browser timeout_seconds headless (S m) o'
               = Some res)
       ∧ (∃ res, Server._capture_cookies_via_browser headless timeout_seconds
                   (S m) o' = Some res))
  ∧ (∀ o' fuel tr r,
       Auth.authenticate_browser timeout_seconds headless fuel o' = Some (tr, r) →
       browser_running tr = false
       ∧ (driver_ok o' → closed_then_stopped tr))
  ∧ (∀ o' fuel tr r,
       Server._capture_cookies_via_browser headless timeout_seconds fuel o'
       = Some (tr, r) →
       browser_running tr = false
       ∧ (driver_ok o' →
          closed_then_stopped tr
          ∨ (r = (None, None) ∧ ∃ tr0, tr = tr0 ++ [EvCookies false; EvStop]))
       ∧ (existsb failed tr = true → r = (None, None)))
  ∧ (∀ env session_id o' fuel a tr s2 sw,
       Server._capture_cookies_via_browser false timeout_seconds fuel o'
       = Some (tr, (s2, sw)) →
       s2 = None ∨ sw = None →
       Server.authenticate env timeout_seconds session_id fuel o' a
       = Some (a, tr, Server.auth_failed_msg)).
Proof.
  intros Hok Hpolls Hend.
  split; [|split; [|split; [|split; [|split]]]].
  - intros Hnot. by apply authenticate_browser_timeout.
  - intros Hnot. split; [by apply capture_cookies_deadline|].
    intros env session_id a.
    destruct (capture_cookies_deadline false timeout_seconds o n
                Hok Hpolls Hend Hnot) as (tr & Hrun & Hcl & Hrel).
    exists tr. split; [|done].
    destruct (server_observed o n) as [s2 sw] eqn:E.
    apply (authenticate_reports_failure env timeout_seconds session_id
             (S n) o a tr s2 sw Hrun).
    pose proof (Hnot n (le_n n)) as Hn. rewrite E in Hn.
    destruct s2, sw; auto. done.
  - intros o' m Hm. split;
      [by apply authenticate_browser_total | by apply capture_cookies_total].
  - intros o' fuel tr r Hrun. split.
    + by apply (authenticate_browser_released timeout_seconds headless fuel o' tr r).
    + intros Hok'.
      by apply (authenticate_browser_closes timeout_seconds headless fuel o' tr r).
  - intros o' fuel tr r Hrun. split.
    + by apply (capture_cookies_released headless timeout_seconds fuel o' tr r).
    + by apply (capture_cookies_paths headless timeout_seconds fuel o' tr r).
  - intros env session_id o' fuel a tr s2 sw.
    apply authenticate_reports_failure.
Qed.

(** The login page is shown and the first poll raises. *)
Definition poll_raises : oracle :=
  {| import_ok := true; start_ok := true; launch_ok := true;
     new_context_ok := true; new_page_ok := true; goto_ok := true;
     close_ok := true; time_at := λ k, Z.of_nat k;
     cookies_at := λ _, None; wall_at := λ _, 0 |}.

Lemma cookie_capture_timeout_and_release_witness :
  (∃ tr, Auth.authenticate_browser 2 false 2 nobody_logs_in
         = Some (tr, Raise (TimeoutError Auth.timeout_msg))
     ∧ closed_then_stopped tr ∧ browser_running tr = false)
  ∧ (∃ tr, Auth.authenticate_browser 2 false 1 poll_raises
           = Some (tr, Raise (DriverError "context.cookies"))
       ∧ closed_then_stopped tr)
  ∧ (∃ tr, Server._capture_cookies_via_browser false 2 1 poll_raises
           = Some (tr, (None, None))
       ∧ browser_running tr = false).
Proof.
  assert (Hok : driver_ok nobody_logs_in) by (by repeat split).
  assert (Hpolls : ∀ j, (j < 1)%nat →
            time_at nobody_logs_in (S j) < time_at nobody_logs_in 0 + 2
            ∧ is_Some (cookies_at nobody_logs_in j)).
  { intros j Hj. assert (j = 0%nat) as -> by lia. simpl. split; [lia | eauto]. }
  assert (Hend : time_at nobody_logs_in 0 + 2 ≤ time_at nobody_logs_in 2)
    by (simpl; lia).
  destruct (cookie_capture_timeout_and_release 2 false nobody_logs_in 1
              Hok Hpolls Hend) as (Htimeout & _ & _ & Hauth & Hcapture & _).
  split; [|split].
  - apply Htimeout. intros j Hj.
    assert (j = 0%nat ∨ j = 1%nat) as [-> | ->] by lia; reflexivity.
  - eexists. split; [reflexivity|].
    refine (proj2 (Hauth poll_raises 1%nat _ _ eq_refl) _). by repeat split.
  - eexists. split; [reflexivity|].
    exact (proj1 (Hcapture poll_raises 1%nat _ _ eq_refl)).
Defined.

(** *** Cache keys *)

Fixpoint colon_free (s : string) : bool :=
  match s with
  | EmptyString => true
  | String c s' => negb (bool_decide (c = ":"%char)) && colon_free s'
  end.

Lemma colon_free_app (a b : string) :
  colon_free (a +:+ b) = colon_free a && colon_free b.
Proof.
  induction a as [|x a IH]; [done|].
  change (negb (bool_decide (x = ":"%char)) && colon_free (a +:+ b)
          = negb (bool_decide (x = ":"%char)) && colon_free a && colon_free b).
  by rewrite IH, andb_assoc.
Qed.

Lemma pretty_N_go_colon_free (x : N) (s : string) :
  colon_free s = true → colon_free (pretty_N_go x s) = true.
Proof.
  revert s. induction (N.lt_wf_0 x) as [x _ IH]; intros s Hs.
  assert (x = 0 ∨ 0 < x)%N as [->|?] by lia.
  - by rewrite pretty_N_go_0.
  - rewrite pretty_N_go_step by done. apply IH.
    { by apply N.div_lt. }
    simpl. rewrite Hs, andb_true_r.
    unfold pretty_N_char. by repeat case_match.
Qed.

Lemma pretty_N_colon_free (x : N) : colon_free (pretty x) = true.
Proof.
  unfold pretty, pretty_N. case_decide; [done|].
  by apply pretty_N_go_colon_free.
Qed.

(** The decimal form of an integer holds no colon. *)
Lemma pretty_Z_colon_free (z : Z) : colon_free (pretty z) = true.
Proof.
  destruct z as [|p|p]; unfold pretty, pretty_Z; [done|..].
  - apply pretty_N_colon_free.
  - rewrite colon_free_app. simpl. apply pretty_N_colon_free.
Qed.

(** A string is cut in one way only at its last colon. *)
Lemma split_last_colon (a b d1 d2 : string) :
  colon_free d1 = true → colon_free d2 = true →
  a +:+ ":" +:+ d1 = b +:+ ":" +:+ d2 → a = b ∧ d1 = d2.
Proof.
  intros H1 H2. revert b.
  assert (Hno : ∀ x y d, colon_free d = true → d ≠ x +:+ ":" +:+ y).
  { intros x y d Hd ->. rewrite !colon_free_app in Hd. simpl in Hd.
    by rewrite andb_false_r in Hd. }
  induction a as [|c a IH]; intros [|c' b] Heq.
  - change (String ":"%char d1 = String ":"%char d2) in Heq.
    by injection Heq as ->.
  - change (String ":"%char d1 = String c' (b +:+ ":" +:+ d2)) in Heq.
    injection Heq as _ Heq. by destruct (Hno b d2 d1 H1).
  - change (String c (a +:+ ":" +:+ d1) = String ":"%char d2) in Heq.
    injection Heq as _ Heq. by destruct (Hno a d1 d2 H2).
  - change (String c (a +:+ ":" +:+ d1) = String c' (b +:+ ":" +:+ d2)) in Heq.
    injection Heq as -> Heq. destruct (IH b Heq) as [-> ->]. done.
Qed.

(** Different sessions, leagues or years have different cache keys. *)
Lemma cache_key_inj (s1 s2 : string) (l1 l2 y1 y2 : Z) :
  Server.cache_key s1 l1 y1 = Server.cache_key s2 l2 y2 →
  s1 = s2 ∧ l1 = l2 ∧ y1 = y2.
Proof.
  unfold Server.cache_key. intros Heq.
  assert (Hre : ∀ s (l y : Z), s +:+ ":" +:+ pretty l +:+ ":" +:+ pretty y
                         = (s +:+ ":" +:+ pretty l) +:+ ":" +:+ pretty y).
  { intros s l y. by rewrite !string_app_assoc. }
  rewrite (Hre s1 l1 y1), (Hre s2 l2 y2) in Heq.
  apply split_last_colon in Heq as [Heq Hy]; try apply pretty_Z_colon_free.
  apply split_last_colon in Heq as [Hs Hl]; try apply pretty_Z_colon_free.
  split; [done|]. split; by apply (inj pretty).
Qed.

(** *** [ESPNFantasyFootballAPI] *)

Import Espn.

Lemma purge_list_lookup (l : list string) (lgs : gmap string League)
    (k : string) :
  fold_left (λ m k, delete k m) l lgs !! k
  = if bool_decide (k ∈ l) then None else lgs !! k.
Proof.
  revert lgs. induction l as [|x l IH]; intros lgs; simpl; [done|].
  rewrite IH. destruct (decide (k = x)) as [->|Hne].
  - rewrite lookup_delete_eq. rewrite (bool_decide_eq_true_2 (x ∈ x :: l));
      [by case_bool_decide | by left].
  - rewrite lookup_delete_ne by done.
    case_bool_decide as E1; case_bool_decide as E2; try done.
    + destruct E2. by right.
    + apply elem_of_cons in E2 as [?|?]; done.
Qed.

(** What is cached after the purge of [store_credentials] and
    [clear_credentials]. *)
Lemma purged_lookup (keys : gset string) (lgs : gmap string League)
    (k : string) :
  (if bool_decide (keys = ∅) then lgs else Server.purge keys lgs) !! k
  = if bool_decide (k ∈ keys) then None else lgs !! k.
Proof.
  case_bool_decide as E.
  - subst keys. by rewrite bool_decide_eq_false_2 by set_solver.
  - unfold Server.purge. rewrite purge_list_lookup.
    case_bool_decide as E1; case_bool_decide as E2; try done.
    + destruct E2. by apply elem_of_elements.
    + destruct E1. by apply elem_of_elements.
Qed.

(** The three ways [get_league] can go. *)
Definition indexed (session_id key : string) (a : Server.api)
  : gmap string (gset string) :=
  <[session_id :=
      default ∅ (Server.session_to_league_keys a !! session_id) ∪ {[key]}]>
    (Server.session_to_league_keys a).

Definition built (session_id : string) (league_id year : Z) (a : Server.api)
  : League :=
  {| obj_id := Server.calls a; lg_league_id := league_id; lg_year := year;
     lg_espn_s2 := Server.credentials a !! session_id ≫= (.!! "espn_s2");
     lg_swid := Server.credentials a !! session_id ≫= (.!! "swid") |}.

Lemma get_league_cases (ok : nat → bool) (session_id : string)
    (league_id year : Z) (a : Server.api) :
  let key := Server.cache_key session_id league_id year in
  (∃ lg, Server.leagues a !! key = Some lg
     ∧ Server.get_league ok session_id league_id year a
       = ({| Server.leagues := Server.leagues a;
             Server.credentials := Server.credentials a;
             Server.session_to_league_keys := indexed session_id key a;
             Server.calls := Server.calls a |}, Ok lg))
  ∨ (Server.leagues a !! key = None ∧ ok (Server.calls a) = false
     ∧ Server.get_league ok session_id league_id year a
       = ({| Server.leagues := Server.leagues a;
             Server.credentials := Server.credentials a;
             Server.session_to_league_keys := Server.session_to_league_keys a;
             Server.calls := S (Server.calls a) |}, Raise (ApiError "League")))
  ∨ (Server.leagues a !! key = None ∧ ok (Server.calls a) = true
     ∧ Server.get_league ok session_id league_id year a
       = ({| Server.leagues :=
               <[key := built session_id league_id year a]> (Server.leagues a);
             Server.credentials := Server.credentials a;
             Server.session_to_league_keys := indexed session_id key a;
             Server.calls := S (Server.calls a) |},
          Ok (built session_id league_id year a))).
Proof.
  intros key. unfold Server.get_league. fold key.
  destruct (Server.leagues a !! key) as [lg|] eqn:E.
  - left. exists lg. split; [done|].
    unfold Server.index_and_return. by rewrite E.
  - right. unfold construct. destruct (ok (Server.calls a)) eqn:Eok.
    + right. repeat split; try done.
      unfold Server.index_and_return. simpl. by rewrite lookup_insert_eq.
    + left. done.
Qed.

(** What holds of the cache in every state the server can be in: a cached
    object is stored under the key of a session that indexes it, a session
    indexes keys of its own only, a cached object was built by an earlier
    constructor call, and it was built for the league and year of its key
    with the credentials its session has now. *)
Record cache_inv (a : Server.api) : Prop := {
  inv_owner : ∀ k lg, Server.leagues a !! k = Some lg →
    ∃ sid l y ks, k = Server.cache_key sid l y
      ∧ Server.session_to_league_keys a !! sid = Some ks ∧ k ∈ ks;
  inv_index : ∀ sid ks k,
    Server.session_to_league_keys a !! sid = Some ks → k ∈ ks →
    ∃ l y, k = Server.cache_key sid l y;
  inv_fresh : ∀ k lg, Server.leagues a !! k = Some lg →
    (obj_id lg < Server.calls a)%nat;
  inv_creds : ∀ sid l y lg,
    Server.leagues a !! Server.cache_key sid l y = Some lg →
    lg_league_id lg = l ∧ lg_year lg = y
    ∧ lg_espn_s2 lg = Server.credentials a !! sid ≫= (.!! "espn_s2")
    ∧ lg_swid lg = Server.credentials a !! sid ≫= (.!! "swid")
}.

(** The states of [api]: the tools only call these three methods. *)
Inductive reachable (ok : nat → bool) : Server.api → Prop :=
  | reach_init : reachable ok Server.init
  | reach_get a sid l y :
      reachable ok a → reachable ok (Server.get_league ok sid l y a).1
  | reach_store a sid espn_s2 swid :
      reachable ok a → reachable ok (Server.store_credentials sid espn_s2 swid a)
  | reach_clear a sid :
      reachable ok a → reachable ok (Server.clear_credentials sid a).

Lemma cache_inv_init : cache_inv Server.init.
Proof. constructor; simpl; intros; simplify_map_eq. Qed.

Lemma indexed_owner (a : Server.api) (sid key : string) sid' k ks :
  Server.session_to_league_keys a !! sid' = Some ks → k ∈ ks →
  ∃ ks', indexed sid key a !! sid' = Some ks' ∧ k ∈ ks'.
Proof.
  intros Hs Hin. unfold indexed. destruct (decide (sid = sid')) as [<-|Hne].
  - rewrite lookup_insert_eq, Hs. simpl. eexists. split; [done|]. set_solver.
  - rewrite lookup_insert_ne by done. eauto.
Qed.

Lemma indexed_index (a : Server.api) (sid : string) (l y : Z) sid' k ks :
  cache_inv a →
  indexed sid (Server.cache_key sid l y) a !! sid' = Some ks → k ∈ ks →
  ∃ l' y', k = Server.cache_key sid' l' y'.
Proof.
  intros Ha. unfold indexed. destruct (decide (sid = sid')) as [<-|Hne].
  - rewrite lookup_insert_eq. intros [= <-] [Hin|Hin]%elem_of_union.
    + destruct (Server.session_to_league_keys a !! sid) as [ks0|] eqn:E;
        simpl in Hin; [|set_solver].
      by apply (inv_index a Ha sid ks0).
    + apply elem_of_singleton in Hin as ->. eauto.
  - rewrite lookup_insert_ne by done. apply (inv_index a Ha).
Qed.

Lemma cache_inv_get_league (ok : nat → bool) (sid : string) (l y : Z)
    (a : Server.api) :
  cache_inv a → cache_inv (Server.get_league ok sid l y a).1.
Proof.
  intros Ha.
  destruct (get_league_cases ok sid l y a)
    as [(lg & Hk & ->) | [(Hk & Hok & ->) | (Hk & Hok & ->)]]; simpl.
  - constructor; simpl.
    + intros k lg0 H.
      destruct (inv_owner a Ha k lg0 H) as (sid' & l' & y' & ks & -> & Hs & Hin).
      destruct (indexed_owner a sid (Server.cache_key sid l y) _ _ _ Hs Hin)
        as (ks' & ? & ?).
      by exists sid', l', y', ks'.
    + intros sid' ks k. by apply indexed_index.
    + apply (inv_fresh a Ha).
    + apply (inv_creds a Ha).
  - constructor; simpl.
    + apply (inv_owner a Ha).
    + apply (inv_index a Ha).
    + intros k lg0 H. pose proof (inv_fresh a Ha k lg0 H). lia.
    + apply (inv_creds a Ha).
  - constructor; simpl.
    + intros k lg0. rewrite lookup_insert. case_decide as E.
      * subst k. intros _. exists sid, l, y.
        eexists. split; [done|]. unfold indexed.
        rewrite lookup_insert_eq. split; [done|]. set_solver.
      * intros H.
        destruct (inv_owner a Ha k lg0 H)
          as (sid' & l' & y' & ks & -> & Hs & Hin).
        destruct (indexed_owner a sid (Server.cache_key sid l y) _ _ _ Hs Hin)
          as (ks' & ? & ?).
        by exists sid', l', y', ks'.
    + intros sid' ks k. by apply indexed_index.
    + intros k lg0. rewrite lookup_insert. case_decide as E.
      * intros [= <-]. simpl. lia.
      * intros H. pose proof (inv_fresh a Ha k lg0 H). lia.
    + intros sid' l' y' lg0. rewrite lookup_insert. case_decide as E.
      * apply cache_key_inj in E as (-> & -> & ->). by intros [= <-].
      * apply (inv_creds a Ha).
Qed.

(** The purge leaves what belongs to other sessions. *)
Lemma purged_cases (a : Server.api) (sid k : string) (lg : League) :
  cache_inv a →
  (if bool_decide (default ∅ (Server.session_to_league_keys a !! sid) = ∅)
   then Server.leagues a
   else Server.purge (default ∅ (Server.session_to_league_keys a !! sid))
          (Server.leagues a)) !! k = Some lg →
  Server.leagues a !! k = Some lg
  ∧ ∃ sid' l y ks, sid' ≠ sid ∧ k = Server.cache_key sid' l y
      ∧ Server.session_to_league_keys a !! sid' = Some ks ∧ k ∈ ks.
Proof.
  intros Ha. rewrite purged_lookup. case_bool_decide as E; [done|].
  intros H. split; [done|].
  destruct (inv_owner a Ha k lg H) as (sid' & l & y & ks & -> & Hs & Hin).
  exists sid', l, y, ks. repeat split; try done.
  intros ->. rewrite Hs in E. done.
Qed.

Lemma purged_other (a : Server.api) (sid sid' : string) (l y : Z) :
  cache_inv a → sid' ≠ sid →
  (if bool_decide (default ∅ (Server.session_to_league_keys a !! sid) = ∅)
   then Server.leagues a
   else Server.purge (default ∅ (Server.session_to_league_keys a !! sid))
          (Server.leagues a)) !! Server.cache_key sid' l y
  = Server.leagues a !! Server.cache_key sid' l y.
Proof.
  intros Ha Hne. rewrite purged_lookup. case_bool_decide as E; [|done].
  destruct (Server.session_to_league_keys a !! sid) as [ks|] eqn:Es;
    simpl in E; [|set_solver].
  destruct (inv_index a Ha sid ks _ Es E) as (l' & y' & Hk).
  apply cache_key_inj in Hk as (? & _). done.
Qed.

Lemma cache_inv_purge (a : Server.api) (sid : string)
    (creds : gmap string (gmap string string)) :
  cache_inv a →
  (∀ sid', sid' ≠ sid → creds !! sid' = Server.credentials a !! sid') →
  cache_inv
    {| Server.leagues :=
         if bool_decide (default ∅ (Server.session_to_league_keys a !! sid) = ∅)
         then Server.leagues a
         else Server.purge (default ∅ (Server.session_to_league_keys a !! sid))
                (Server.leagues a);
       Server.credentials := creds;
       Server.session_to_league_keys :=
         delete sid (Server.session_to_league_keys a);
       Server.calls := Server.calls a |}.
Proof.
  intros Ha Hcreds. constructor; simpl.
  - intros k lg H.
    destruct (purged_cases a sid k lg Ha H)
      as (_ & sid' & l & y & ks & Hne & -> & Hs & Hin).
    exists sid', l, y, ks. by rewrite lookup_delete_ne.
  - intros sid' ks k. rewrite lookup_delete. case_decide; [done|].
    apply (inv_index a Ha).
  - intros k lg H. destruct (purged_cases a sid k lg Ha H) as [H' _].
    by apply (inv_fresh a Ha k).
  - intros sid0 l y lg H.
    destruct (purged_cases a sid _ lg Ha H)
      as (H' & sid' & l' & y' & ks & Hne & Hk & _).
    apply cache_key_inj in Hk as (-> & _ & _).
    rewrite (Hcreds sid' Hne). by apply (inv_creds a Ha).
Qed.

Lemma cache_inv_store_credentials (sid espn_s2 swid : string) (a : Server.api) :
  cache_inv a → cache_inv (Server.store_credentials sid espn_s2 swid a).
Proof.
  intros Ha. apply cache_inv_purge; [done|].
  intros sid' Hne. by rewrite lookup_insert_ne.
Qed.

Lemma cache_inv_clear_credentials (sid : string) (a : Server.api) :
  cache_inv a → cache_inv (Server.clear_credentials sid a).
Proof.
  intros Ha. apply cache_inv_purge; [done|].
  intros sid' Hne. by rewrite lookup_delete_ne.
Qed.

Lemma reachable_inv (ok : nat → bool) (a : Server.api) :
  reachable ok a → cache_inv a.
Proof.
  induction 1; auto using cache_inv_init, cache_inv_get_league,
    cache_inv_store_credentials, cache_inv_clear_credentials.
Qed.






(** After [store_credentials] for a session, nothing of that session is
    cached, what other sessions have cached is as before, and the next
    [get_league] of the session returns an object built after the change
    with the new credentials. *)
Lemma store_credentials_rotation (ok : nat → bool) (a : Server.api)
    (sid espn_s2 swid : string) (l y : Z) :
  cache_inv a →
  let a1 := Server.store_credentials sid espn_s2 swid a in
  let a2 := (Server.get_league ok sid l y a1).1 in
  (∀ l' y', Server.leagues a1 !! Server.cache_key sid l' y' = None)
  ∧ (∀ sid2 l' y', sid2 ≠ sid →
       Server.leagues a1 !! Server.cache_key sid2 l' y'
       = Server.leagues a !! Server.cache_key sid2 l' y'
       ∧ Server.leagues a2 !! Server.cache_key sid2 l' y'
         = Server.leagues a !! Server.cache_key sid2 l' y'
       ∧ Server.credentials a2 !! sid2 = Server.credentials a !! sid2)
  ∧ (∀ lg, (Server.get_league ok sid l y a1).2 = Ok lg →
       (Server.calls a ≤ obj_id lg)%nat
       ∧ (∀ k lg0, Server.leagues a !! k = Some lg0 → lg0 ≠ lg)
       ∧ lg_league_id lg = l ∧ lg_year lg = y
       ∧ lg_espn_s2 lg = Some espn_s2 ∧ lg_swid lg = Some swid).
Proof.
  intros Ha a1 a2.
  assert (Ha1 : cache_inv a1) by by apply cache_inv_store_credentials.
  assert (Hnone : ∀ l' y', Server.leagues a1 !! Server.cache_key sid l' y' = None).
  { intros l' y'.
    destruct (Server.leagues a1 !! Server.cache_key sid l' y') as [lg|] eqn:E;
      [|done].
    destruct (inv_owner a1 Ha1 _ _ E) as (sid' & l0 & y0 & ks & Hk & Hs & _).
    apply cache_key_inj in Hk as (<- & _ & _).
    subst a1. simpl in Hs. by rewrite lookup_delete_eq in Hs. }
  split; [done|]. split.
  - intros sid2 l' y' Hne.
    assert (H1 : Server.leagues a1 !! Server.cache_key sid2 l' y'
                 = Server.leagues a !! Server.cache_key sid2 l' y').
    { subst a1. simpl. by apply purged_other. }
    split; [done|]. subst a2.
    destruct (get_league_cases ok sid l y a1)
      as [(lg0 & Hk & ->) | [(Hk & Hok & ->) | (Hk & Hok & ->)]]; simpl.
    + split; [done|]. subst a1. simpl. by rewrite lookup_insert_ne.
    + split; [done|]. subst a1. simpl. by rewrite lookup_insert_ne.
    + rewrite lookup_insert_ne.
      * split; [done|]. subst a1. simpl. by rewrite lookup_insert_ne.
      * intros Hk'. apply cache_key_inj in Hk' as (? & _). done.
  - intros lg.
    destruct (get_league_cases ok sid l y a1)
      as [(lg0 & Hk & ->) | [(Hk & Hok & ->) | (Hk & Hok & ->)]]; simpl.
    + by rewrite Hnone in Hk.
    + done.
    + intros [= <-]. unfold built. subst a1. simpl.
      rewrite lookup_insert_eq. simpl.
      rewrite lookup_insert_ne, lookup_insert_eq by done.
      rewrite lookup_insert_eq.
      repeat split; try done.
      intros k lg0 H0 ->. pose proof (inv_fresh a Ha k _ H0) as Hlt.
      simpl in Hlt. lia.
Qed.

(** *** [LeagueService] *)

(** When the credentials differ from those of the previous call, the cache
    is emptied and the object returned is built by this call with the new
    credentials. *)
Lemma service_get_league_rotation (ok : nat → bool) (l y : Z) (fuel : nat)
    (o : oracle) (st st' : Service.state) (tr : list event) (lg : League)
    (old : string * string) :
  Service.get_league ok l y fuel o st = Some (st', tr, Ok lg) →
  Service._last_creds st = Some old →
  Service._last_creds st' ≠ Some old →
  (Service.calls st ≤ obj_id lg)%nat
  ∧ Service._cache st' = {[ (l, y) := lg ]}
  ∧ ∃ espn_s2 swid, Service._last_creds st' = Some (espn_s2, swid)
      ∧ lg_espn_s2 lg = Some espn_s2 ∧ lg_swid lg = Some swid.
Proof.
  unfold Service.get_league. intros H Hold Hnew.
  destruct (Auth.ensure_authenticated _ _ _ _ _)
    as [[[w tr0] [[[s2 sw] stt]|e]]|]; try done.
  - rewrite Hold in H. unfold Service.creds_changed in H.
    case_bool_decide as E; simpl in H.
    + exfalso. subst old.
      destruct (Service._cache st !! (l, y)) as [lg0|].
      * injection H as <- _ _. by simpl in Hnew.
      * unfold construct in H. destruct (ok (Service.calls st)); [|done].
        injection H as <- _ _. by simpl in Hnew.
    + rewrite lookup_empty in H. unfold construct in H.
      destruct (ok (Service.calls st)); [|done].
      injection H as <- _ <-. simpl. split; [lia|]. split; [done|]. eauto.
Qed.



(** *** [get] after [set] *)

Lemma set_memory (a b : string) (mode : Auth.persist_mode) (w : Auth.world) :
  Auth.memory (Auth.set a b mode w).1
  = <["SWID" := Some b]> (<["espn_s2" := Some a]> (Auth.memory w)).
Proof.
  unfold Auth.set, Auth._write_dotenv.
  destruct mode; simpl; try done. by destruct (Auth.dotenv_writable w).
Qed.

Lemma set_environ_of (a b : string) (mode : Auth.persist_mode) (w : Auth.world) :
  Auth.environ (Auth.set a b mode w).1
  = match mode with
    | Auth.pm_memory => Auth.environ w
    | _ => Auth.set_environ a b (Auth.environ w)
    end.
Proof.
  unfold Auth.set, Auth._write_dotenv.
  destruct mode; simpl; try done. by destruct (Auth.dotenv_writable w).
Qed.

Lemma truthy_nonempty (s : string) : s ≠ "" → Py.truthy (Some s) = true.
Proof. by destruct s. Qed.

Lemma or_truthy_l (x y : option string) :
  Py.truthy x = true → Py.or_ x y = x.
Proof. unfold Py.or_. by intros ->. Qed.

Lemma or_falsy_l (x y : option string) :
  Py.truthy x = false → Py.or_ x y = y.
Proof. unfold Py.or_. by intros ->. Qed.

(** [get], in terms of what it looks up. *)
Lemma get_unfold (now : Z) (w : Auth.world) :
  Auth.get now w
  = let env_espn_s2 := Py.or_ (Auth.environ w !! "ESPN_S2")
                              (Auth.environ w !! "espn_s2") in
    let env_swid := Py.or_ (Auth.environ w !! "SWID")
                           (Auth.environ w !! "swid") in
    let espn_s2 := Py.or_ (Auth.memory_get w "ESPN_S2") env_espn_s2 in
    let swid := Py.or_ (Auth.memory_get w "SWID") env_swid in
    (espn_s2, swid,
     {| Auth.source :=
          if Py.truthy env_espn_s2 && Py.truthy env_swid then Auth.process_env
          else if Py.truthy espn_s2 && Py.truthy swid then Auth.dot_env
          else Auth.none;
        Auth.is_valid := Py.truthy espn_s2 && Py.truthy swid;
        Auth.last_checked := now;
        Auth.masked := <["SWID" := Auth.mask_secret swid 4]>
                         (<["espn_s2" := Auth.mask_secret espn_s2 4]> ∅) |}).
Proof. reflexivity. Qed.

(** [get] after [set] with persist mode [env] or [dot_env]. *)
Lemma set_get_env_mode (now : Z) (a b : string)
    (mode : Auth.persist_mode) (w : Auth.world) :
  mode ≠ Auth.pm_memory → a ≠ "" → b ≠ "" →
  Auth.has_nul a = false → Auth.has_nul b = false →
  Py.truthy (Auth.memory_get w "ESPN_S2") = false →
  Py.truthy (Auth.environ w !! "ESPN_S2") = false →
  (Auth.get now (Auth.set a b mode w).1).1 = (Some a, Some b)
  ∧ Auth.is_valid (Auth.get now (Auth.set a b mode w).1).2 = true
  ∧ Auth.source (Auth.get now (Auth.set a b mode w).1).2 = Auth.process_env.
Proof.
  intros Hmode Ha Hb Na Nb Hm He.
  pose proof (truthy_nonempty a Ha) as Ta.
  pose proof (truthy_nonempty b Hb) as Tb.
  assert (Henv : Auth.environ (Auth.set a b mode w).1
                 = <["SWID" := b]> (<["espn_s2" := a]> (Auth.environ w))).
  { rewrite set_environ_of. unfold Auth.set_environ. rewrite Na, Nb.
    by destruct mode. }
  assert (HmS : Auth.memory_get (Auth.set a b mode w).1 "SWID" = Some b).
  { unfold Auth.memory_get. by rewrite set_memory, lookup_insert_eq. }
  assert (He2 : Auth.environ (Auth.set a b mode w).1 !! "ESPN_S2"
                = Auth.environ w !! "ESPN_S2").
  { rewrite Henv. by rewrite !lookup_insert_ne. }
  assert (Hel : Auth.environ (Auth.set a b mode w).1 !! "espn_s2" = Some a).
  { rewrite Henv. by rewrite lookup_insert_ne, lookup_insert_eq. }
  assert (HeS : Auth.environ (Auth.set a b mode w).1 !! "SWID" = Some b).
  { rewrite Henv. by rewrite lookup_insert_eq. }
  rewrite get_unfold. cbv zeta. cbn [fst snd Auth.is_valid Auth.source].
  rewrite (set_memory_ESPN_S2 a b mode w), HmS, He2, Hel, HeS.
  rewrite (or_falsy_l (Auth.environ w !! "ESPN_S2")) by done.
  rewrite (or_falsy_l (Auth.memory_get w "ESPN_S2")) by done.
  rewrite !(or_truthy_l (Some b)) by done.
  rewrite Ta, Tb. done.
Qed.

(** *** The states of [LeagueService] *)

(** The states of a [LeagueService]: calls of [get_league], and anything
    else in the process that changes the environment, the [.env] file or
    the credential manager between two calls. *)
Inductive service_reachable (ok : nat → bool) : Service.state → Prop :=
  | sreach_init w : service_reachable ok (Service.init w)
  | sreach_get st l y fuel o st' tr r :
      service_reachable ok st →
      Service.get_league ok l y fuel o st = Some (st', tr, r) →
      service_reachable ok st'
  | sreach_world st w :
      service_reachable ok st →
      service_reachable ok
        {| Service.world := w; Service.calls := Service.calls st;
           Service._cache := Service._cache st;
           Service._last_creds := Service._last_creds st |}.

(** Every cached object was built for the league and year of its key, by an
    earlier constructor call, with the credentials last seen. *)
Definition service_inv (st : Service.state) : Prop :=
  ∀ l y lg, Service._cache st !! (l, y) = Some lg →
    lg_league_id lg = l ∧ lg_year lg = y
    ∧ (obj_id lg < Service.calls st)%nat
    ∧ ∃ s2 sw, Service._last_creds st = Some (s2, sw)
        ∧ lg_espn_s2 lg = Some s2 ∧ lg_swid lg = Some sw.

Lemma service_inv_get_league (ok : nat → bool) (l y : Z) (fuel : nat)
    (o : oracle) (st st' : Service.state) (tr : list event) (r : result League) :
  service_inv st →
  Service.get_league ok l y fuel o st = Some (st', tr, r) →
  service_inv st'.
Proof.
  unfold Service.get_league. intros Hst H.
  destruct (Auth.ensure_authenticated _ _ _ _ _)
    as [[[w tr0] [[[s2 sw] stt]|e]]|]; [| |done].
  - set (cache := if Service.creds_changed (Service._last_creds st) (s2, sw)
                  then ∅ else Service._cache st) in *.
    assert (Hcache : ∀ l0 y0 lg, cache !! (l0, y0) = Some lg →
              lg_league_id lg = l0 ∧ lg_year lg = y0
              ∧ (obj_id lg < Service.calls st)%nat
              ∧ lg_espn_s2 lg = Some s2 ∧ lg_swid lg = Some sw).
    { intros l0 y0 lg. subst cache. unfold Service.creds_changed.
      destruct (Service._last_creds st) as [old|] eqn:El.
      - case_bool_decide as E; simpl; [|by rewrite lookup_empty].
        intros Hc. destruct (Hst l0 y0 lg Hc) as (? & ? & ? & a & b & Hl & ? & ?).
        rewrite El in Hl. simplify_eq. done.
      - intros Hc. destruct (Hst l0 y0 lg Hc) as (_ & _ & _ & a & b & Hl & _).
        by rewrite El in Hl. }
    destruct (cache !! (l, y)) as [lg0|] eqn:Ec.
    + injection H as <- _ _. intros l0 y0 lg Hc. simpl in *.
      destruct (Hcache l0 y0 lg Hc) as (? & ? & ? & ? & ?).
      repeat split; try done. by exists s2, sw.
    + unfold construct in H. destruct (ok (Service.calls st)).
      * injection H as <- _ _. intros l0 y0 lg. simpl.
        rewrite lookup_insert. case_decide as Ek.
        -- injection Ek as <- <-. intros [= <-]. simpl.
           repeat split; try done; [lia|]. by exists s2, sw.
        -- intros Hc. destruct (Hcache l0 y0 lg Hc) as (? & ? & ? & ? & ?).
           repeat split; try done; [lia|]. by exists s2, sw.
      * injection H as <- _ _. intros l0 y0 lg Hc. simpl in *.
        destruct (Hcache l0 y0 lg Hc) as (? & ? & ? & ? & ?).
        repeat split; try done; [lia|]. by exists s2, sw.
  - injection H as <- _ _. intros l0 y0 lg Hc. simpl in *.
    by apply Hst.
Qed.

Lemma service_reachable_inv (ok : nat → bool) (st : Service.state) :
  service_reachable ok st → service_inv st.
Proof.
  induction 1 as [w|st l y fuel o st' tr r _ IH H|st w _ IH].
  - intros l y lg. simpl. by rewrite lookup_empty.
  - by apply (service_inv_get_league ok l y fuel o st st' tr r).
  - exact IH.
Qed.

(** *** Rotation of credentials and cache hits *)






(** Two sessions have read league 7 of 2024; then the tokens of ["alice"]
    are replaced. *)
Definition two_sessions : Server.api :=
  (Server.get_league (λ _, true) "alice" 7 2024
     (Server.get_league (λ _, true) "bob" 7 2024 Server.init).1).1.






(** Storing again the tokens a session already has purges its objects all
    the same: the stored credentials are equal before and after, and the
    next read builds a new object. *)
Lemma same_tokens_stored_again_rebuild :
  let ok := λ _ : nat, true in
  let a1 := (Server.get_league ok "alice" 7 2024
               (Server.store_credentials "alice" "A1" "{B2}" Server.init)).1 in
  let a2 := Server.store_credentials "alice" "A1" "{B2}" a1 in
  Server.credentials a2 = Server.credentials a1
  ∧ (∃ lg, (Server.get_league ok "alice" 7 2024
              (Server.store_credentials "alice" "A1" "{B2}" Server.init)).2
           = Ok lg ∧ obj_id lg = 0%nat)
  ∧ ∃ lg', (Server.get_league ok "alice" 7 2024 a2).2 = Ok lg'
      ∧ obj_id lg' = 1%nat.
Proof.
  intros ok a1 a2. split; [by vm_compute|].
  split; eexists; split; by vm_compute.
Qed.



(** *** Concurrent calls of [ensure_authenticated] *)

Import Tasks.

Lemma count_insert (f : pc → bool) (l : list pc) (i : nat) (p q : pc) :
  l !! i = Some p →
  (count f (<[i := q]> l) + (if f p then 1 else 0)
   = count f l + (if f q then 1 else 0))%nat.
Proof.
  revert i. induction l as [|x l IH]; intros [|i] H; simplify_eq/=.
  - unfold count. simpl. destruct (f p), (f q); simpl; lia.
  - specialize (IH i H). unfold count in *. simpl.
    destruct (f x); simpl; lia.
Qed.

(** The lock is held exactly while one call is in its browser session, and
    every call that got the lock started a browser session of its own. *)
Record lock_inv (s : sys) : Prop := {
  inv_capturing :
    count is_capturing (tasks s) = if locked s then 1%nat else 0%nat;
  inv_captures : captures s = count took_lock (tasks s)
}.

Lemma lock_inv_init (w : Auth.world) (n : nat) : lock_inv (init w n).
Proof.
  constructor; simpl; unfold count;
    induction n as [|n IH]; simpl; auto.
Qed.

Lemma lock_inv_with_task (s : sys) (i : nat) (p q : pc) (w : Auth.world)
    (l : bool) (qs : list nat) (c : nat) :
  lock_inv s → tasks s !! i = Some p →
  ((if l then 1 else 0) + (if is_capturing p then 1 else 0)
   = (if locked s then 1 else 0) + (if is_capturing q then 1 else 0))%nat →
  (c + (if took_lock p then 1 else 0)
   = captures s + (if took_lock q then 1 else 0))%nat →
  lock_inv (with_task i q w l qs c s).
Proof.
  intros [H1 H2] Hi Hl Hc. constructor; unfold with_task; simpl.
  - pose proof (count_insert is_capturing (tasks s) i p q Hi). lia.
  - pose proof (count_insert took_lock (tasks s) i p q Hi). lia.
Qed.

Ltac lock_inv_step s i p :=
  apply (lock_inv_with_task s i p); [done | done | |];
  repeat match goal with H : locked _ = _ |- _ => rewrite H end;
  simpl; try lia; destruct (locked s); simpl; lia.

Lemma lock_inv_run_task (mode : Auth.persist_mode)
    (capture : nat → result (string * string)) (i : nat) (s s' : sys) :
  lock_inv s → run_task mode capture i s = Some s' → lock_inv s'.
Proof.
  intros Hs. unfold run_task.
  destruct (tasks s !! i) as [[| |n|slow r]|] eqn:Hi; try done.
  - destruct (valid (world s)).
    { intros [= <-]. lock_inv_step s i Ready. }
    destruct (locked s) eqn:Hl; simpl.
    { intros [= <-]. lock_inv_step s i Ready. }
    case_bool_decide; intros [= <-]; lock_inv_step s i Ready.
  - destruct (waiters s) as [|j rest]; [done|].
    destruct (locked s) eqn:Hl; simpl; [done|].
    case_bool_decide; [|done]. intros [= <-].
    lock_inv_step s i Waiting.
  - assert (Hl : locked s = true).
    { destruct Hs as [H1 _]. destruct (locked s); [done|].
      pose proof (count_insert is_capturing (tasks s) i (Capturing n) Ready Hi).
      simpl in *. lia. }
    intros [= <-]. unfold finish.
    destruct (capture n) as [[a b]|e].
    + destruct (Auth.set a b mode (world s)) as [w' [[]|e]];
        lock_inv_step s i (Capturing n).
    + lock_inv_step s i (Capturing n).
Qed.

Lemma lock_inv_exec (mode : Auth.persist_mode)
    (capture : nat → result (string * string)) (sched : list nat) :
  ∀ s s', lock_inv s → exec mode capture sched s = Some s' → lock_inv s'.
Proof.
  induction sched as [|i sched IH]; intros s s' Hs; simpl.
  - by intros [= <-].
  - destruct (run_task mode capture i s) as [s1|] eqn:E; [|done].
    apply IH. by apply (lock_inv_run_task mode capture i s).
Qed.

(** A call that waited for the lock starts its browser session as soon as
    it gets the lock, whether or not the credentials have become valid. *)
Lemma waiting_task_captures (mode : Auth.persist_mode)
    (capture : nat → result (string * string)) (i : nat) (rest : list nat)
    (s : sys) :
  tasks s !! i = Some Waiting → locked s = false → waiters s = i :: rest →
  ∃ s', run_task mode capture i s = Some s'
    ∧ tasks s' !! i = Some (Capturing (captures s))
    ∧ captures s' = S (captures s) ∧ world s' = world s.
Proof.
  intros Hi Hl Hw. unfold run_task. rewrite Hi, Hw, Hl. simpl.
  rewrite bool_decide_eq_true_2 by done.
  eexists. split; [done|]. simpl. split; [|done].
  apply list_lookup_insert_eq. by apply lookup_lt_Some in Hi.
Qed.

(** A call returns what the store holds right after its own browser
    session is written back. *)
Lemma capturing_task_returns_own (mode : Auth.persist_mode)
    (capture : nat → result (string * string)) (i n : nat) (a b : string)
    (s : sys) :
  tasks s !! i = Some (Capturing n) → capture n = Ok (a, b) →
  (Auth.set a b mode (world s)).2 = Ok tt →
  ∃ s', run_task mode capture i s = Some s'
    ∧ world s' = (Auth.set a b mode (world s)).1
    ∧ tasks s' !! i = Some (Done true (Ok (tokens (world s'))))
    ∧ locked s' = false ∧ captures s' = captures s.
Proof.
  intros Hi Hc Hset. unfold run_task. rewrite Hi. unfold finish. rewrite Hc.
  destruct (Auth.set a b mode (world s)) as [w' r]. simpl in Hset. subst r.
  eexists. split; [done|]. simpl. repeat split; try done.
  apply list_lookup_insert_eq. by apply lookup_lt_Some in Hi.
Qed.

(** C3 as the specification states it, for [n] calls made at once in world
    [w]: whatever the
    schedule, once all calls have returned there was exactly one browser
    session and all calls returned the same. *)
Definition one_capture_for_all (mode : Auth.persist_mode)
    (capture : nat → result (string * string)) (w : Auth.world) (n : nat)
  : Prop :=
  ∀ sched s, exec mode capture sched (init w n) = Some s →
    all_done s = true →
    captures s = 1%nat
    ∧ ∀ i j slow1 slow2 r1 r2,
        tasks s !! i = Some (Done slow1 r1) →
        tasks s !! j = Some (Done slow2 r2) → r1 = r2.

(** Two logins in a row, the second with other cookies. *)
Definition two_logins (n : nat) : result (string * string) :=
  match n with
  | O => Ok ("A1", "{B2}")
  | _ => Ok ("A9", "{C3}")
  end.

(** C3, as stated, fails: two calls are made at once in a process without
    credentials.  The first call opens the browser; the second finds no
    valid credentials and waits for the lock; when the first has stored its
    cookies and returned, the second gets the lock and opens the browser
    again.  There are two browser sessions, and the calls return different
    tokens. *)
Lemma two_calls_two_captures :
  let w := Auth.fresh_world ∅ Auth.NoFile in
  exec Auth.pm_env two_logins [0; 1; 0; 1; 1]%nat (init w 2)
  = Some {| world := (Auth.set "A9" "{C3}" Auth.pm_env
                        (Auth.set "A1" "{B2}" Auth.pm_env w).1).1;
            locked := false; waiters := [];
            tasks := [Done true (Ok ("A1", "{B2}"));
                      Done true (Ok ("A9", "{C3}"))];
            captures := 2 |}
  ∧ ¬ one_capture_for_all Auth.pm_env two_logins w 2.
Proof.
  intros w.
  assert (Hrun : exec Auth.pm_env two_logins [0; 1; 0; 1; 1]%nat (init w 2)
    = Some {| world := (Auth.set "A9" "{C3}" Auth.pm_env
                          (Auth.set "A1" "{B2}" Auth.pm_env w).1).1;
              locked := false; waiters := [];
              tasks := [Done true (Ok ("A1", "{B2}"));
                        Done true (Ok ("A9", "{C3}"))];
              captures := 2 |}) by (by vm_compute).
  split; [done|].
  intros Hall. destruct (Hall _ _ Hrun eq_refl) as [Hcount _].
  simpl in Hcount. lia.
Qed.

(** C3, amended.  However [n] calls made at once are scheduled, at most one
    of them is in a browser session at any time, and there are as many
    browser sessions as calls that got the lock: a call that found no valid
    credentials at its first check runs a browser session of its own when
    it gets the lock, without checking again, and returns what the store
    holds after its own cookies are written back. *)
Theorem serialized_capture_per_caller (mode : Auth.persist_mode)
    (capture : nat → result (string * string)) (w : Auth.world) (n : nat)
    (sched : list nat) (s : sys) :
  exec mode capture sched (init w n) = Some s →
  (count is_capturing (tasks s) ≤ 1)%nat
  ∧ captures s = count took_lock (tasks s)
  ∧ (∀ i rest, tasks s !! i = Some Waiting → locked s = false →
       waiters s = i :: rest →
       ∃ s', run_task mode capture i s = Some s'
         ∧ tasks s' !! i = Some (Capturing (captures s))
         ∧ captures s' = S (captures s) ∧ world s' = world s)
  ∧ (∀ i k a b, tasks s !! i = Some (Capturing k) → capture k = Ok (a, b) →
       (Auth.set a b mode (world s)).2 = Ok tt →
       ∃ s', run_task mode capture i s = Some s'
         ∧ world s' = (Auth.set a b mode (world s)).1
         ∧ tasks s' !! i = Some (Done true (Ok (tokens (world s'))))
         ∧ locked s' = false ∧ captures s' = captures s).
Proof.
  intros Hrun.
  destruct (lock_inv_exec mode capture sched _ _ (lock_inv_init w n) Hrun)
    as [H1 H2].
  split; [destruct (locked s); lia|]. split; [done|]. split.
  - intros i rest. apply waiting_task_captures.
  - intros i k a b. apply capturing_task_returns_own.
Qed.

Lemma serialized_capture_per_caller_witness :
  let w := Auth.fresh_world ∅ Auth.NoFile in
  ∃ s, exec Auth.pm_env two_logins [0; 1; 0]%nat (init w 2) = Some s
    ∧ (count is_capturing (tasks s) ≤ 1)%nat
    ∧ captures s = count took_lock (tasks s).
Proof.
  intros w. eexists. split; [by vm_compute|].
  destruct (serialized_capture_per_caller Auth.pm_env two_logins w 2
              [0; 1; 0]%nat _ eq_refl) as (H1 & H2 & _).
  split; [exact H1 | exact H2].
Defined.

(* ===================================================================== *)
(** ** Further properties of the code *)
(* ===================================================================== *)

(** *** The credential manager, continued *)

(** X1.  With persist mode [env] or [dot_env], non-empty tokens without NUL
    and no non-empty value under the upper-case name [ESPN_S2] in [_memory]
    or in the environment, [get] after [set] returns the two tokens, reports
    them valid and names the environment as their source. *)
Theorem set_get_round_trip_env (now : Z) (a b : string)
    (mode : Auth.persist_mode) (w : Auth.world) :
  mode ≠ Auth.pm_memory → a ≠ "" → b ≠ "" →
  Auth.has_nul a = false → Auth.has_nul b = false →
  Py.truthy (Auth.memory_get w "ESPN_S2") = false →
  Py.truthy (Auth.environ w !! "ESPN_S2") = false →
  (Auth.get now (Auth.set a b mode w).1).1 = (Some a, Some b)
  ∧ Auth.is_valid (Auth.get now (Auth.set a b mode w).1).2 = true
  ∧ Auth.source (Auth.get now (Auth.set a b mode w).1).2 = Auth.process_env.
Proof. apply set_get_env_mode. Qed.

Lemma set_get_round_trip_env_witness :
  (Auth.get 0 (Auth.set "A1" "{B2}" Auth.pm_dot_env
                 (Auth.fresh_world (<["HOME" := "/root"]> ∅) Auth.NoFile)).1).1
  = (Some "A1", Some "{B2}").
Proof.
  apply (set_get_round_trip_env 0 "A1" "{B2}" Auth.pm_dot_env
           (Auth.fresh_world (<["HOME" := "/root"]> ∅) Auth.NoFile));
    by vm_compute.
Defined.

(** X2.  A first token that [get] finds under the upper-case name
    [ESPN_S2], in [_memory] or in the environment, cannot be replaced: after
    any [set], [get] still returns that token. *)
Theorem set_cannot_replace_upper_espn_s2 (now : Z) (a b : string)
    (mode : Auth.persist_mode) (w : Auth.world) :
  Py.truthy (Auth.memory_get w "ESPN_S2") = true
  ∨ Py.truthy (Auth.environ w !! "ESPN_S2") = true →
  (Auth.get now (Auth.set a b mode w).1).1.1 = (Auth.get now w).1.1.
Proof.
  intros H. rewrite !get_unfold. cbv zeta. cbn [fst snd].
  rewrite (set_memory_ESPN_S2 a b mode w).
  destruct (Py.truthy (Auth.memory_get w "ESPN_S2")) eqn:Em.
  { by rewrite !(or_truthy_l (Auth.memory_get w "ESPN_S2")). }
  destruct H as [H|H]; [done|].
  assert (Hup : Auth.environ (Auth.set a b mode w).1 !! "ESPN_S2"
                = Auth.environ w !! "ESPN_S2").
  { rewrite set_environ_of. unfold Auth.set_environ.
    destruct mode; try done;
      destruct (Auth.has_nul a); try done;
      destruct (Auth.has_nul b);
      by rewrite ?(lookup_insert_ne _ "SWID" "ESPN_S2"),
                 ?(lookup_insert_ne _ "espn_s2" "ESPN_S2"). }
  rewrite Hup. by rewrite !(or_truthy_l (Auth.environ w !! "ESPN_S2")).
Qed.

Lemma set_cannot_replace_upper_espn_s2_witness :
  (Auth.get 0 (Auth.set "A9" "{C3}" Auth.pm_env
                 (Auth.fresh_world (<["ESPN_S2" := "A1"]> ∅) Auth.NoFile)).1).1
  = (Some "A1", Some "{C3}").
Proof.
  pose proof (set_cannot_replace_upper_espn_s2 0 "A9" "{C3}" Auth.pm_env
                (Auth.fresh_world (<["ESPN_S2" := "A1"]> ∅) Auth.NoFile)
                (or_intror eq_refl)) as H.
  apply injective_projections; [exact H | reflexivity].
Defined.

(** X3.  The source [get] reports is [none] exactly when the credentials
    are not valid, and it is [process_env] exactly when the environment
    holds both tokens, whatever [_memory] holds. *)
Theorem get_source_agrees_with_validity (now : Z) (w : Auth.world) :
  (Auth.source (Auth.get now w).2 = Auth.none
   ↔ Auth.is_valid (Auth.get now w).2 = false)
  ∧ (Auth.source (Auth.get now w).2 = Auth.process_env
     ↔ (Py.truthy (Auth.environ w !! "ESPN_S2")
        || Py.truthy (Auth.environ w !! "espn_s2"))
       && (Py.truthy (Auth.environ w !! "SWID")
           || Py.truthy (Auth.environ w !! "swid")) = true).
Proof.
  rewrite get_unfold. cbv zeta. cbn [fst snd Auth.source Auth.is_valid].
  rewrite !truthy_or.
  destruct (Py.truthy (Auth.environ w !! "ESPN_S2")),
           (Py.truthy (Auth.environ w !! "espn_s2")),
           (Py.truthy (Auth.environ w !! "SWID")),
           (Py.truthy (Auth.environ w !! "swid")),
           (Py.truthy (Auth.memory_get w "ESPN_S2")),
           (Py.truthy (Auth.memory_get w "SWID")); simpl; split; split; done.
Qed.

(** *** [mask_secret] with another [show_last] *)

Lemma slice_from_neg (k : nat) (v : string) :
  (0 < k)%nat → (k ≤ String.length v)%nat →
  Py.slice_from (- Z.of_nat k) v = Py.drop (String.length v - k) v.
Proof.
  intros Hk Hle. unfold Py.slice_from.
  destruct (Z.ltb_spec (- Z.of_nat k) 0); [|lia].
  f_equal. lia.
Qed.

(** X4.  For a non-empty token [v] of length [n]: with [0 < show_last < n]
    the mask is [n - show_last] stars followed by the last [show_last]
    characters; with [show_last >= n] it is [n] stars; and with
    [show_last = 0] nothing is hidden: the mask is [n] stars followed by
    the whole token. *)
Theorem mask_secret_show_last (v : string) (k : nat) :
  v ≠ "" →
  ((0 < k < String.length v)%nat →
     ∃ pre suf, v = pre +:+ suf ∧ String.length suf = k
       ∧ Auth.mask_secret (Some v) (Z.of_nat k)
         = Py.repeat_char "*" (Z.of_nat (String.length pre)) +:+ suf)
  ∧ ((String.length v ≤ k)%nat →
       Auth.mask_secret (Some v) (Z.of_nat k)
       = Py.repeat_char "*" (Z.of_nat (String.length v)))
  ∧ Auth.mask_secret (Some v) 0
    = Py.repeat_char "*" (Z.of_nat (String.length v)) +:+ v.
Proof.
  intros Hv. destruct v as [|c s]; [done|].
  set (v := String c s) in *.
  assert (Hlen : (0 < String.length v)%nat) by (simpl; lia).
  split; [|split].
  - intros Hk.
    destruct (drop_split (String.length v - k) v) as (pre & Hpre & Hl); [lia|].
    exists pre, (Py.drop (String.length v - k) v).
    split; [done|]. split; [rewrite drop_length; lia|].
    unfold Auth.mask_secret. fold v.
    destruct (Z.leb_spec (Z.of_nat (String.length v)) (Z.of_nat k)); [lia|].
    rewrite slice_from_neg by lia. rewrite Hl. do 2 f_equal. lia.
  - intros Hk. unfold Auth.mask_secret. fold v.
    destruct (Z.leb_spec (Z.of_nat (String.length v)) (Z.of_nat k)); [done|lia].
  - unfold Auth.mask_secret. fold v.
    destruct (Z.leb_spec (Z.of_nat (String.length v)) 0); [lia|].
    rewrite Z.sub_0_r. done.
Qed.

Lemma mask_secret_show_last_witness :
  Auth.mask_secret (Some "s3cret") 0 = "******s3cret"
  ∧ Auth.mask_secret (Some "s3cret") 9 = "******".
Proof.
  split.
  - apply (mask_secret_show_last "s3cret" 2). done.
  - apply (proj1 (proj2 (mask_secret_show_last "s3cret" 9 ltac:(done)))).
    simpl. lia.
Defined.

(** *** [upsert] and [_write_dotenv], continued *)

Lemma key_line_is_key_line (key value : string) :
  is_key_line key (key +:+ "=" +:+ value) = true.
Proof.
  unfold is_key_line, Py.startswith.
  induction key as [|c key IH].
  - change (String.prefix "=" (String "="%char value) = true).
    rewrite prefix_cons. rewrite bool_decide_eq_true_2 by done.
    by destruct value.
  - change (String.prefix (String c (key +:+ "="))
              (String c (key +:+ "=" +:+ value)) = true).
    rewrite prefix_cons, IH. by rewrite bool_decide_eq_true_2.
Qed.

(** X5.  [upsert(lines, key, value)], for any key: the result holds the
    line [key=value]; every line of the result that starts with [key=] is
    that line; the other lines are those of [lines] in the same order; and
    the result is one line longer than [lines] when no line started with
    [key=], as long as [lines] otherwise. *)
Theorem upsert_sets_key (lines : list string) (key value : string) :
  In (key +:+ "=" +:+ value) (Auth.upsert lines key value)
  ∧ (∀ line, In line (Auth.upsert lines key value) →
       is_key_line key line = true → line = key +:+ "=" +:+ value)
  ∧ List.filter (λ l, negb (is_key_line key l)) (Auth.upsert lines key value)
    = List.filter (λ l, negb (is_key_line key l)) lines
  ∧ length (Auth.upsert lines key value)
    = (length lines
       + if existsb (is_key_line key) lines then 0 else 1)%nat.
Proof.
  rewrite upsert_spec. unfold missing.
  pose proof (key_line_is_key_line key value) as Hnew.
  split; [|split; [|split]].
  - induction lines as [|l lines IH]; simpl; [by left|].
    destruct (is_key_line key l) eqn:E; simpl; [by left|].
    right. exact IH.
  - intros line Hin Hk. apply in_app_or in Hin as [Hin|Hin].
    + apply in_map_iff in Hin as (l & <- & _).
      destruct (is_key_line key l) eqn:E; [done|]. congruence.
    + destruct (existsb _ lines); simpl in Hin; [done|].
      by destruct Hin as [<-|[]].
  - rewrite List.filter_app.
    assert (List.filter (λ l, negb (is_key_line key l))
              (if existsb (is_key_line key) lines then []
               else [key +:+ "=" +:+ value]) = []) as ->.
    { destruct (existsb _ lines); [done|]. simpl. by rewrite Hnew. }
    rewrite app_nil_r.
    induction lines as [|l lines IH]; simpl; [done|].
    destruct (is_key_line key l) eqn:E; simpl.
    + by rewrite Hnew.
    + by rewrite E, IH.
  - rewrite length_app, length_map. by destruct (existsb _ lines).
Qed.

Lemma is_key_line_replace (a b key line : string) :
  key = "ESPN_S2" ∨ key = "SWID" →
  is_key_line key (replace_line a b line) = is_key_line key line.
Proof.
  intros Hk. unfold replace_line.
  destruct (new_line_keys a) as (K1 & K2 & _).
  destruct (new_line_keys b) as (_ & _ & K3 & K4).
  destruct (is_key_line "ESPN_S2" line) eqn:E1.
  - destruct Hk as [-> | ->]; [by rewrite E1, K1|].
    by rewrite (espn_s2_line_not_swid _ E1), K2.
  - destruct (is_key_line "SWID" line) eqn:E2; [|done].
    destruct Hk as [-> | ->]; [by rewrite E1, K3 | by rewrite E2, K4].
Qed.

Lemma replace_line_twice (a b a' b' line : string) :
  replace_line a' b' (replace_line a b line) = replace_line a' b' line.
Proof.
  unfold replace_line at 1 3.
  rewrite !is_key_line_replace by auto.
  destruct (is_key_line "ESPN_S2" line) eqn:E1; [done|].
  destruct (is_key_line "SWID" line) eqn:E2; [done|].
  unfold replace_line. by rewrite E1, E2.
Qed.

Lemma upserted_has_keys (a b : string) (old : list string) :
  existsb (is_key_line "ESPN_S2") (upserted a b old) = true
  ∧ existsb (is_key_line "SWID") (upserted a b old) = true.
Proof.
  destruct (new_line_keys a) as (K1 & K2 & _).
  destruct (new_line_keys b) as (_ & _ & K3 & K4).
  assert (Hmap : ∀ key, key = "ESPN_S2" ∨ key = "SWID" →
            existsb (is_key_line key) (map (replace_line a b) old)
            = existsb (is_key_line key) old).
  { intros key Hk. induction old as [|l old IH]; simpl; [done|].
    by rewrite is_key_line_replace, IH. }
  unfold upserted, missing. rewrite !existsb_app, !Hmap by auto.
  destruct (existsb (is_key_line "ESPN_S2") old),
           (existsb (is_key_line "SWID") old); simpl;
    rewrite ?K1, ?K2, ?K3, ?K4; simpl; rewrite ?orb_true_r; done.
Qed.

(** Upserting again replaces the lines of the first upsert. *)
Lemma upserted_twice (a b a' b' : string) (old : list string) :
  upserted a' b' (upserted a b old) = upserted a' b' old.
Proof.
  destruct (upserted_has_keys a b old) as [H2 Hw].
  unfold upserted at 1. unfold missing at 1 2. rewrite H2, Hw, !app_nil_r.
  unfold upserted. rewrite !map_app, map_map.
  rewrite (map_ext _ _ (replace_line_twice a b a' b')).
  f_equal. unfold missing.
  destruct (new_line_keys a) as (K1 & K2 & _).
  destruct (new_line_keys b) as (_ & _ & K3 & K4).
  destruct (new_line_keys a') as (K1' & K2' & _).
  destruct (new_line_keys b') as (_ & _ & K3' & K4').
  destruct (existsb (is_key_line "ESPN_S2") old),
           (existsb (is_key_line "SWID") old); simpl;
    unfold replace_line; rewrite ?K1, ?K2, ?K3, ?K4; done.
Qed.

(** The lines read back from the file [_write_dotenv] wrote. *)
Lemma write_dotenv_read_back (a b : string) (w : Auth.world) :
  Auth.dotenv_writable w = true →
  breakfree a = true → breakfree b = true →
  Auth.dotenv_read_lines (Auth.dotenv (Auth._write_dotenv a b w).1)
  = upserted a b (Auth.dotenv_read_lines (Auth.dotenv w))
  ∧ Auth.dotenv_writable (Auth._write_dotenv a b w).1 = true.
Proof.
  intros Hw Ha Hb. unfold Auth._write_dotenv. rewrite Hw, upsert_twice. simpl.
  split; [|done].
  assert (Hbf : Forall (λ l, breakfree l = true)
                  (upserted a b (Auth.dotenv_read_lines (Auth.dotenv w)))).
  { apply upserted_breakfree; [done | done |].
    destruct (Auth.dotenv w); simpl;
      [constructor | apply splitlines_breakfree | constructor]. }
  rewrite read_text_no_cr by (by apply no_cr_join).
  apply splitlines_join; [apply upserted_nonempty | done].
Qed.

(** X6.  The last write wins and the file does not grow: writing tokens
    [a], [b] (without line terminators) and then tokens [a'], [b'] leaves
    the file that writing [a'], [b'] alone leaves. *)
Theorem write_dotenv_last_write_wins (a b a' b' : string) (w : Auth.world) :
  Auth.dotenv_writable w = true →
  breakfree a = true → breakfree b = true →
  Auth.dotenv (Auth._write_dotenv a' b' (Auth._write_dotenv a b w).1).1
  = Auth.dotenv (Auth._write_dotenv a' b' w).1.
Proof.
  intros Hw Ha Hb.
  destruct (write_dotenv_read_back a b w Hw Ha Hb) as [Hread Hw1].
  unfold Auth._write_dotenv at 1 3. rewrite Hw1, Hw. simpl.
  rewrite !upsert_twice, Hread, upserted_twice. done.
Qed.

Lemma write_dotenv_last_write_wins_witness :
  let w := Auth.fresh_world ∅ (Auth.FileText "TZ=UTC") in
  Auth.dotenv (Auth._write_dotenv "A9" "{C3}"
                 (Auth._write_dotenv "A1" "{B2}" w).1).1
  = Auth.dotenv (Auth._write_dotenv "A9" "{C3}" w).1.
Proof.
  intros w.
  apply (write_dotenv_last_write_wins "A1" "{B2}" "A9" "{C3}" w); reflexivity.
Defined.

(** *** Cookie capture, continued *)

Lemma auth_poll_loop_found (o : oracle) (deadline : Z) (n : nat) :
  ∀ k tr,
    (∀ j, (k ≤ j ≤ k + n)%nat →
       time_at o (S j) < deadline ∧ is_Some (cookies_at o j)) →
    (∀ j, (k < j ≤ k + n)%nat → both (observed o j) = false) →
    both (observed o (S (k + n))) = true →
    ∃ tr', Auth.poll_loop o deadline (S n) k (observed o k).1 (observed o k).2 tr
           = Some (tr', PollExit (observed o (S (k + n))).1
                                 (observed o (S (k + n))).2).
Proof.
  induction n as [|n IH]; intros k tr Hpolls Hnot Hboth.
  - rewrite Nat.add_0_r in *. cbn [Auth.poll_loop].
    destruct (Hpolls k) as [Ht [cs Hcs]]; [lia|].
    destruct (Z.ltb_spec (time_at o (S k)) deadline); [|lia].
    rewrite Hcs.
    assert (Hobs : fold_left Auth.scan_cookie cs
                     ((observed o k).1, (observed o k).2) = observed o (S k)).
    { simpl. rewrite Hcs. simpl. by destruct (observed o k). }
    rewrite Hobs. destruct (observed o (S k)) as [g2 gw] eqn:E.
    unfold both in Hboth. simpl in Hboth. rewrite Hboth. simpl. eauto.
  - cbn [Auth.poll_loop].
    destruct (Hpolls k) as [Ht [cs Hcs]]; [lia|].
    destruct (Z.ltb_spec (time_at o (S k)) deadline); [|lia].
    rewrite Hcs.
    assert (Hobs : fold_left Auth.scan_cookie cs
                     ((observed o k).1, (observed o k).2) = observed o (S k)).
    { simpl. rewrite Hcs. simpl. by destruct (observed o k). }
    rewrite Hobs. destruct (observed o (S k)) as [g2 gw] eqn:E.
    pose proof (Hnot (S k)) as Hb. rewrite E in Hb. unfold both in Hb.
    simpl in Hb. rewrite Hb by lia.
    replace (k + S n)%nat with (S k + n)%nat in * by lia.
    destruct (IH (S k) (tr ++ [EvCookies true; EvSleep])) as [tr' Htr'].
    + intros j Hj. apply Hpolls. lia.
    + intros j Hj. apply Hnot. lia.
    + done.
    + rewrite E in Htr'. simpl in Htr'. eauto.
Qed.

Lemma both_nonempty (g2 gw : option string) :
  Py.truthy g2 && Py.truthy gw = true →
  ∃ s2 sw, g2 = Some s2 ∧ gw = Some sw ∧ s2 ≠ "" ∧ sw ≠ "".
Proof.
  destruct g2 as [[|c2 s2]|], gw as [[|cw sw]|]; try done.
  intros _. by eexists _, _.
Qed.

Lemma authenticate_browser_found (timeout_seconds : Z) (headless : bool)
    (o : oracle) (n : nat) :
  driver_ok o →
  (∀ j, (j ≤ n)%nat →
     time_at o (S j) < time_at o 0 + timeout_seconds
     ∧ is_Some (cookies_at o j)) →
  (∀ j, (j ≤ n)%nat → both (observed o j) = false) →
  both (observed o (S n)) = true →
  ∃ tr s2 sw,
    Auth.authenticate_browser timeout_seconds headless (S n) o
    = Some (tr, Ok (s2, sw))
    ∧ observed o (S n) = (Some s2, Some sw)
    ∧ closed_then_stopped tr ∧ browser_running tr = false.
Proof.
  intros (Hi & Hs & Hl & Hc & Hp & Hg & Hx) Hpolls Hnot Hboth.
  destruct (auth_poll_loop_found o (time_at o 0 + timeout_seconds) n 0%nat
              [EvStart true; EvLaunch headless true; EvNewContext true;
               EvNewPage true; EvGoto true]) as [tr' Htr'].
  { intros j Hj. apply Hpolls. lia. }
  { intros j Hj. apply Hnot. lia. }
  { done. }
  cbn [Nat.add] in Htr'. unfold both in Hboth.
  destruct (observed o (S n)) as [g2 gw] eqn:E. simpl in Htr', Hboth.
  destruct (both_nonempty _ _ Hboth) as (s2 & sw & -> & -> & N2 & Nw).
  exists (tr' ++ [EvClose true; EvStop]), s2, sw.
  split; [|split; [|split]].
  - unfold Auth.authenticate_browser. rewrite Hi, Hs, Hl, Hc, Hp, Hg. simpl.
    cbn [Auth.poll_loop] in Htr'. rewrite Htr'.
    unfold Auth.after_poll. rewrite Hx. by rewrite Hboth.
  - done.
  - by exists tr'.
  - apply browser_running_close_stop.
Qed.

(** X7.  When the driver operations succeed, the polls up to the [n]-th
    come before the deadline, and the [n]-th poll is the first after which
    both cookies have been seen with a non-empty value,
    [authenticate_browser] returns those two values, after
    [browser.close()]. *)
Theorem authenticate_browser_success (timeout_seconds : Z) (headless : bool)
    (o : oracle) (n : nat) :
  driver_ok o →
  (∀ j, (j ≤ n)%nat →
     time_at o (S j) < time_at o 0 + timeout_seconds
     ∧ is_Some (cookies_at o j)) →
  (∀ j, (j ≤ n)%nat → both (observed o j) = false) →
  both (observed o (S n)) = true →
  ∃ tr s2 sw,
    Auth.authenticate_browser timeout_seconds headless (S n) o
    = Some (tr, Ok (s2, sw))
    ∧ observed o (S n) = (Some s2, Some sw)
    ∧ closed_then_stopped tr ∧ browser_running tr = false.
Proof. apply authenticate_browser_found. Qed.

(** Somebody logs in between the first and the second poll. *)
Definition login_at_second_poll : oracle :=
  {| import_ok := true; start_ok := true; launch_ok := true;
     new_context_ok := true; new_page_ok := true; goto_ok := true;
     close_ok := true; time_at := λ k, Z.of_nat k;
     cookies_at := λ k,
       match k with
       | O => Some [<["value" := "x"]> (<["name" := "other"]> ∅)]
       | _ => Some [<["value" := "{B2}"]> (<["name" := "SWID"]> ∅);
                    <["value" := "A1"]> (<["name" := "espn_s2"]> ∅)]
       end;
     wall_at := λ _, 0 |}.

(** The run of [login_at_second_poll]. *)
Lemma authenticate_browser_success_run :
  ∃ tr, Auth.authenticate_browser 180 false 2 login_at_second_poll
        = Some (tr, Ok ("A1", "{B2}")).
Proof. eexists. by vm_compute. Qed.

Lemma authenticate_browser_success_witness :
  ∃ tr, Auth.authenticate_browser 180 false 2 login_at_second_poll
        = Some (tr, Ok ("A1", "{B2}")).
Proof.
  destruct (authenticate_browser_success 180 false login_at_second_poll 1)
    as (tr & s2 & sw & Hrun & Hobs & _).
  - by repeat split.
  - intros j Hj. assert (j = 0%nat ∨ j = 1%nat) as [-> | ->] by lia;
      (split; [simpl; lia | by eexists]).
  - intros j Hj. assert (j = 0%nat ∨ j = 1%nat) as [-> | ->] by lia;
      by vm_compute.
  - by vm_compute.
  - exists tr. vm_compute in Hobs. by simplify_eq.
Defined.

Lemma launches_app (tr1 tr2 : list event) :
  launches (tr1 ++ tr2) = (launches tr1 + launches tr2)%nat.
Proof. unfold launches. by rewrite List.filter_app, length_app. Qed.

Lemma launches_none (ps : list event) :
  Forall (λ e, is_launch e = false) ps → launches ps = 0%nat.
Proof.
  unfold launches. induction 1 as [|e ps He _ IH]; simpl; [done|].
  by rewrite He.
Qed.

(** What a run of [authenticate_browser] launches and returns. *)
Lemma authenticate_browser_run (timeout_seconds : Z) (headless : bool)
    (fuel : nat) (o : oracle) (tr : list event) (r : result (string * string)) :
  Auth.authenticate_browser timeout_seconds headless fuel o = Some (tr, r) →
  (launches tr ≤ 1)%nat
  ∧ ∀ s2 sw, r = Ok (s2, sw) →
      s2 ≠ "" ∧ sw ≠ "" ∧ launches tr = 1%nat ∧ closed_then_stopped tr.
Proof.
  unfold Auth.authenticate_browser.
  destruct (import_ok o); cbn [negb];
    [|intros [= <- <-]; split; [unfold launches; simpl; lia|done]].
  destruct (start_ok o); cbn [negb];
    [|intros [= <- <-]; split; [unfold launches; simpl; lia|done]].
  destruct (launch_ok o); cbn [negb];
    [|intros [= <- <-]; split; [unfold launches; simpl; lia|done]].
  destruct (new_context_ok o); cbn [negb];
    [|intros [= <- <-]; split; [unfold launches; simpl; lia|done]].
  destruct (new_page_ok o); cbn [negb];
    [|intros [= <- <-]; split; [unfold launches; simpl; lia|done]].
  destruct (goto_ok o); cbn [negb];
    [|intros [= <- <-]; split; [unfold launches; simpl; lia|done]].
  destruct (Auth.poll_loop _ _ _ _ _ _ _) as [[tr' pe]|] eqn:Hpoll; [|done].
  destruct (auth_poll_loop_trace _ _ _ _ _ _ _ _ _ Hpoll) as (ps & -> & Hps).
  assert (Hl : ∀ ok, launches
            (EvStart true :: EvLaunch headless true :: EvNewContext true
             :: EvNewPage true :: EvGoto true :: ps ++ [EvClose ok; EvStop])
            = 1%nat).
  { intros ok.
    change (launches
              (([EvStart true; EvLaunch headless true; EvNewContext true;
                 EvNewPage true; EvGoto true] ++ ps) ++ [EvClose ok; EvStop])
            = 1%nat).
    rewrite !launches_app, (launches_none ps Hps). done. }
  assert (Hcl : closed_then_stopped
            (EvStart true :: EvLaunch headless true :: EvNewContext true
             :: EvNewPage true :: EvGoto true :: ps ++ [EvClose true; EvStop])).
  { by exists ([EvStart true; EvLaunch headless true; EvNewContext true;
                EvNewPage true; EvGoto true] ++ ps). }
  unfold Auth.after_poll.
  destruct (close_ok o).
  - destruct pe as [g2 gw|e].
    + destruct g2 as [s2|], gw as [sw|];
        try (intros [= <- <-]; split; [by rewrite Hl|done]).
      destruct (negb _) eqn:Et; intros [= <- <-];
        (split; [by rewrite Hl|]); [done|].
      intros ? ? [= <- <-]. apply negb_false_iff in Et.
      destruct (both_nonempty _ _ Et) as (? & ? & [= <-] & [= <-] & ? & ?).
      by rewrite Hl.
    + intros [= <- <-]. split; [by rewrite Hl|done].
  - intros [= <- <-]. split; [by rewrite Hl|done].
Qed.

(** X8.  A call of [authenticate_browser] launches at most one browser.
    When it returns cookies, both are non-empty, exactly one browser was
    launched and [browser.close()] was its last operation before the end of
    the playwright block. *)
Theorem authenticate_browser_one_launch (timeout_seconds : Z) (headless : bool)
    (fuel : nat) (o : oracle) (tr : list event) (r : result (string * string)) :
  Auth.authenticate_browser timeout_seconds headless fuel o = Some (tr, r) →
  (launches tr ≤ 1)%nat
  ∧ ∀ s2 sw, r = Ok (s2, sw) →
      s2 ≠ "" ∧ sw ≠ "" ∧ launches tr = 1%nat ∧ closed_then_stopped tr.
Proof. apply authenticate_browser_run. Qed.

Lemma authenticate_browser_one_launch_witness :
  ∃ tr, Auth.authenticate_browser 180 false 2 login_at_second_poll
        = Some (tr, Ok ("A1", "{B2}"))
    ∧ launches tr = 1%nat.
Proof.
  destruct authenticate_browser_success_run as [tr Hrun].
  exists tr. split; [exact Hrun|].
  destruct (authenticate_browser_one_launch _ _ _ _ _ _ Hrun) as [_ H].
  destruct (H "A1" "{B2}" eq_refl) as (_ & _ & Hl & _). exact Hl.
Defined.

Lemma scan_cookie_keeps (f2 fw : option string) (c : cookie) :
  (Py.truthy f2 = true → (Auth.scan_cookie (f2, fw) c).1 = f2)
  ∧ (Py.truthy fw = true → (Auth.scan_cookie (f2, fw) c).2 = fw).
Proof.
  unfold Auth.scan_cookie. simpl.
  split; intros ->; by rewrite andb_false_r.
Qed.

Lemma scan_cookies_keep (cs : list cookie) (f2 fw : option string) :
  (Py.truthy f2 = true → (fold_left Auth.scan_cookie cs (f2, fw)).1 = f2)
  ∧ (Py.truthy fw = true → (fold_left Auth.scan_cookie cs (f2, fw)).2 = fw).
Proof.
  revert f2 fw. induction cs as [|c cs IH]; intros f2 fw; [done|].
  cbn [fold_left].
  destruct (scan_cookie_keeps f2 fw c) as [K2 Kw].
  destruct (Auth.scan_cookie (f2, fw) c) as [g2 gw]. simpl in K2, Kw.
  destruct (IH g2 gw) as [I2 Iw].
  split; intros H.
  - specialize (K2 H). subst g2. by apply I2.
  - specialize (Kw H). subst gw. by apply Iw.
Qed.

Lemma observed_keeps (o : oracle) (k m : nat) :
  (k ≤ m)%nat →
  (Py.truthy (observed o k).1 = true → (observed o m).1 = (observed o k).1)
  ∧ (Py.truthy (observed o k).2 = true → (observed o m).2 = (observed o k).2).
Proof.
  induction 1 as [|m Hle IH]; [done|].
  simpl. destruct (observed o m) as [g2 gw].
  destruct (scan_cookies_keep (default [] (cookies_at o m)) g2 gw) as [K2 Kw].
  destruct IH as [I2 Iw]. simpl in *.
  split; intros H.
  - specialize (I2 H). subst g2. by apply K2.
  - specialize (Iw H). subst gw. by apply Kw.
Qed.

(** X9.  [authenticate_browser] returns, for each cookie, the first
    non-empty value it saw: when the login completes at the [n]-th poll, a
    non-empty value found for a cookie at an earlier poll is the one
    returned, whatever later cookies of that name hold. *)
Theorem first_cookie_value_wins (timeout_seconds : Z) (headless : bool)
    (o : oracle) (n k : nat) :
  driver_ok o →
  (∀ j, (j ≤ n)%nat →
     time_at o (S j) < time_at o 0 + timeout_seconds
     ∧ is_Some (cookies_at o j)) →
  (∀ j, (j ≤ n)%nat → both (observed o j) = false) →
  both (observed o (S n)) = true →
  (k ≤ S n)%nat →
  ∃ tr s2 sw,
    Auth.authenticate_browser timeout_seconds headless (S n) o
    = Some (tr, Ok (s2, sw))
    ∧ (Py.truthy (observed o k).1 = true → (observed o k).1 = Some s2)
    ∧ (Py.truthy (observed o k).2 = true → (observed o k).2 = Some sw).
Proof.
  intros Hok Hpolls Hnot Hboth Hk.
  destruct (authenticate_browser_found timeout_seconds headless o n
              Hok Hpolls Hnot Hboth) as (tr & s2 & sw & Hrun & Hobs & _).
  exists tr, s2, sw. split; [exact Hrun|].
  destruct (observed_keeps o k (S n) Hk) as [K2 Kw].
  rewrite Hobs in K2, Kw. cbn [fst snd] in K2, Kw.
  split; intros H; symmetry; auto.
Qed.

(** The cookie jar first shows one value of the first cookie, then
    another. *)
Definition cookie_changes : oracle :=
  {| import_ok := true; start_ok := true; launch_ok := true;
     new_context_ok := true; new_page_ok := true; goto_ok := true;
     close_ok := true; time_at := λ k, Z.of_nat k;
     cookies_at := λ k,
       match k with
       | O => Some [<["value" := "A1"]> (<["name" := "espn_s2"]> ∅)]
       | _ => Some [<["value" := "A9"]> (<["name" := "espn_s2"]> ∅);
                    <["value" := "{B2}"]> (<["name" := "SWID"]> ∅)]
       end;
     wall_at := λ _, 0 |}.

Lemma first_cookie_value_wins_witness :
  ∃ tr, Auth.authenticate_browser 180 false 2 cookie_changes
        = Some (tr, Ok ("A1", "{B2}")).
Proof.
  destruct (first_cookie_value_wins 180 false cookie_changes 1 1)
    as (tr & s2 & sw & Hrun & H2 & _).
  - by repeat split.
  - intros j Hj. assert (j = 0%nat ∨ j = 1%nat) as [-> | ->] by lia;
      (split; [simpl; lia | by eexists]).
  - intros j Hj. assert (j = 0%nat ∨ j = 1%nat) as [-> | ->] by lia;
      by vm_compute.
  - by vm_compute.
  - lia.
  - exists tr.
    assert (E2 : s2 = "A1").
    { assert (H : (observed cookie_changes 1).1 = Some s2)
        by (apply H2; by vm_compute).
      vm_compute in H. by injection H. }
    assert (Ew : sw = "{B2}").
    { rewrite E2 in Hrun. vm_compute in Hrun. by injection Hrun. }
    by rewrite <- E2, <- Ew.
Defined.

(** *** [ensure_authenticated], continued *)

(** X10.  When the stored credentials are not valid and the capture raises,
    [ensure_authenticated] raises the same exception, after the same driver
    operations, and leaves memory, environment and file as they were. *)
Theorem ensure_authenticated_error (headless : bool) (mode : Auth.persist_mode)
    (fuel : nat) (o : oracle) (w : Auth.world) (tr : list event) (e : exn) :
  Auth.is_valid (Auth.get (wall_at o 0) w).2 = false →
  Auth.authenticate_browser 180 headless fuel o = Some (tr, Raise e) →
  Auth.ensure_authenticated headless mode fuel o w = Some (w, tr, Raise e)
  ∧ browser_running tr = false.
Proof.
  intros Hinv Hrun. split.
  - unfold Auth.ensure_authenticated.
    destruct (Auth.get (wall_at o 0) w) as [[s2 sw] st]. simpl in Hinv.
    by rewrite Hinv, Hrun.
  - by apply (authenticate_browser_released 180 headless fuel o tr (Raise e)).
Qed.

(** A login page on which nobody logs in and a clock that passes the
    deadline at its first test. *)
Definition clock_jumps : oracle :=
  {| import_ok := true; start_ok := true; launch_ok := true;
     new_context_ok := true; new_page_ok := true; goto_ok := true;
     close_ok := true; time_at := λ k, 1000 * Z.of_nat k;
     cookies_at := λ _, Some []; wall_at := λ _, 0 |}.

Lemma ensure_authenticated_error_witness :
  let w := Auth.fresh_world (<["SWID" := "{B2}"]> ∅) Auth.NoFile in
  ∃ tr, Auth.ensure_authenticated false Auth.pm_env 1 clock_jumps w
        = Some (w, tr, Raise (TimeoutError Auth.timeout_msg)).
Proof.
  intros w. eexists.
  apply (ensure_authenticated_error false Auth.pm_env 1 clock_jumps w);
    by vm_compute.
Defined.

(** X11.  One login is enough.  When the stored credentials are not valid,
    no non-empty value sits under the upper-case name [ESPN_S2], the
    capture returns cookies without NUL and [set] succeeds with persist
    mode [env] or [dot_env], [ensure_authenticated] returns those cookies
    with a valid state; and every later call, whatever its arguments and
    whatever the browser would do, returns the same cookies without any
    driver operation and without changing the world. *)
Theorem ensure_authenticated_login_once (headless : bool)
    (mode : Auth.persist_mode) (fuel : nat) (o : oracle) (w : Auth.world)
    (tr : list event) (a b : string) :
  Auth.is_valid (Auth.get (wall_at o 0) w).2 = false →
  Py.truthy (Auth.memory_get w "ESPN_S2") = false →
  Py.truthy (Auth.environ w !! "ESPN_S2") = false →
  Auth.authenticate_browser 180 headless fuel o = Some (tr, Ok (a, b)) →
  Auth.has_nul a = false → Auth.has_nul b = false →
  mode ≠ Auth.pm_memory → (Auth.set a b mode w).2 = Ok tt →
  let w' := (Auth.set a b mode w).1 in
  (∃ st, Auth.ensure_authenticated headless mode fuel o w
         = Some (w', tr, Ok (a, b, st)) ∧ Auth.is_valid st = true)
  ∧ ∀ headless' mode' fuel' o',
      ∃ st', Auth.ensure_authenticated headless' mode' fuel' o' w'
             = Some (w', [], Ok (a, b, st')).
Proof.
  intros Hinv Hm He Hrun Na Nb Hmode Hset w'.
  destruct (authenticate_browser_run 180 headless fuel o tr _ Hrun)
    as [_ Hok].
  destruct (Hok a b eq_refl) as (Ha & Hb & _).
  assert (Hget : ∀ now, Auth.get now w'
                        = (Some a, Some b, (Auth.get now w').2)
                        ∧ Auth.is_valid (Auth.get now w').2 = true).
  { intros now.
    destruct (set_get_env_mode now a b mode w Hmode Ha Hb Na Nb Hm He)
      as (H1 & H2 & _). fold w' in H1, H2. split; [|done].
    destruct (Auth.get now w') as [p st]. simpl in *. by subst p. }
  split.
  - exists (Auth.get (wall_at o 1) w').2. split; [|apply Hget].
    unfold Auth.ensure_authenticated.
    destruct (Auth.get (wall_at o 0) w) as [[s2 sw] st]. simpl in Hinv.
    rewrite Hinv, Hrun.
    rewrite (surjective_pairing (Auth.set a b mode w)), Hset. fold w'.
    destruct (Hget (wall_at o 1)) as [Hg _]. rewrite Hg.
    destruct a, b; done.
  - intros headless' mode' fuel' o'.
    exists (Auth.get (wall_at o' 0) w').2.
    unfold Auth.ensure_authenticated.
    destruct (Hget (wall_at o' 0)) as [Hg Hv]. rewrite Hg.
    cbn [snd] in Hv |- *. rewrite Hv.
    destruct a, b; done.
Qed.

Lemma ensure_authenticated_login_once_witness :
  let w := Auth.fresh_world ∅ Auth.NoFile in
  let w' := (Auth.set "A1" "{B2}" Auth.pm_env w).1 in
  ∃ st', Auth.ensure_authenticated false Auth.pm_memory 0 clock_jumps w'
         = Some (w', [], Ok ("A1", "{B2}", st')).
Proof.
  intros w w'.
  destruct (authenticate_browser_success_run) as (tr & Hrun).
  apply (proj2 (ensure_authenticated_login_once false Auth.pm_env 2
                  login_at_second_poll w tr "A1" "{B2}"
                  eq_refl eq_refl eq_refl Hrun eq_refl eq_refl
                  ltac:(done) eq_refl)).
Defined.

(** *** [LeagueService], continued *)

(** X12.  In every state of a [LeagueService], a cached object was built
    for the league and year it is cached under, with the credentials of the
    last call that got credentials; so no object is cached under two keys,
    and after a rotation no object built with the former credentials is
    left. *)
Theorem service_cache_invariant (ok : nat → bool) (st : Service.state) :
  service_reachable ok st →
  (∀ l y lg, Service._cache st !! (l, y) = Some lg →
     lg_league_id lg = l ∧ lg_year lg = y
     ∧ (obj_id lg < Service.calls st)%nat
     ∧ ∃ s2 sw, Service._last_creds st = Some (s2, sw)
         ∧ lg_espn_s2 lg = Some s2 ∧ lg_swid lg = Some sw)
  ∧ (∀ k1 k2 lg, Service._cache st !! k1 = Some lg →
       Service._cache st !! k2 = Some lg → k1 = k2).
Proof.
  intros Hr. pose proof (service_reachable_inv ok st Hr) as Hinv.
  split; [exact Hinv|].
  intros [l1 y1] [l2 y2] lg H1 H2.
  destruct (Hinv l1 y1 lg H1) as (<- & <- & _).
  destruct (Hinv l2 y2 lg H2) as (<- & <- & _). done.
Qed.

(** A process with both tokens in its environment, after reading leagues 7
    and 8. *)
Definition service_after_two_reads : option Service.state :=
  let w := Auth.fresh_world
             (<["SWID" := "{B2}"]> (<["ESPN_S2" := "A1"]> ∅)) Auth.NoFile in
  match Service.get_league (λ _, true) 7 2024 0 clock_jumps (Service.init w) with
  | Some (st1, _, _) =>
      match Service.get_league (λ _, true) 8 2024 0 clock_jumps st1 with
      | Some (st2, _, _) => Some st2
      | None => None
      end
  | None => None
  end.

Lemma service_cache_invariant_witness :
  ∃ st, service_after_two_reads = Some st
    ∧ ∀ k1 k2 lg, Service._cache st !! k1 = Some lg →
        Service._cache st !! k2 = Some lg → k1 = k2.
Proof.
  unfold service_after_two_reads.
  destruct (Service.get_league (λ _, true) 7 2024 0 clock_jumps
              (Service.init
                 (Auth.fresh_world
                    (<["SWID" := "{B2}"]> (<["ESPN_S2" := "A1"]> ∅))
                    Auth.NoFile))) as [[[st1 tr1] r1]|] eqn:E1;
    [|by vm_compute in E1].
  destruct (Service.get_league (λ _, true) 8 2024 0 clock_jumps st1)
    as [[[st2 tr2] r2]|] eqn:E2.
  - exists st2. split; [done|].
    apply (service_cache_invariant (λ _, true) st2).
    eapply sreach_get; [|exact E2].
    eapply sreach_get; [|exact E1]. apply sreach_init.
  - exfalso. vm_compute in E1. injection E1 as <- _ _. by vm_compute in E2.
Defined.

(** X13.  [LeagueService.get_league] raises in two ways only.  Either
    [ensure_authenticated] raised: the exception is that one, no
    constructor call was made and cache and last credentials are as
    before.  Or the constructor raised: nothing is cached for the league
    and year, so the next call will call the constructor again. *)
Theorem service_get_league_error (ok : nat → bool) (l y : Z) (fuel : nat)
    (o : oracle) (st st' : Service.state) (tr : list event) (e : exn) :
  Service.get_league ok l y fuel o st = Some (st', tr, Raise e) →
  (Auth.ensure_authenticated false Auth.pm_env fuel o (Service.world st)
   = Some (Service.world st', tr, Raise e)
   ∧ Service.calls st' = Service.calls st
   ∧ Service._cache st' = Service._cache st
   ∧ Service._last_creds st' = Service._last_creds st)
  ∨ (ok (Service.calls st) = false
     ∧ Service.calls st' = S (Service.calls st)
     ∧ Service._cache st' !! (l, y) = None
     ∧ ∃ s2 sw st0,
         Auth.ensure_authenticated false Auth.pm_env fuel o (Service.world st)
         = Some (Service.world st', tr, Ok (s2, sw, st0))
         ∧ Service._last_creds st' = Some (s2, sw)).
Proof.
  unfold Service.get_league. intros H.
  destruct (Auth.ensure_authenticated _ _ _ _ _)
    as [[[w tr0] [[[s2 sw] stt]|e0]]|]; [| |done].
  - right.
    destruct ((if Service.creds_changed _ _ then ∅ else Service._cache st)
              !! (l, y)) as [lg0|] eqn:Ec; [done|].
    unfold construct in H. destruct (ok (Service.calls st)); [done|].
    injection H as <- <- <-. simpl. repeat split; try done.
    by exists s2, sw, stt.
  - left. injection H as <- <- <-. done.
Qed.

Lemma service_get_league_error_witness :
  let w := Auth.fresh_world
             (<["SWID" := "{B2}"]> (<["ESPN_S2" := "A1"]> ∅)) Auth.NoFile in
  ∃ st' tr,
    Service.get_league (λ _, false) 7 2024 0 clock_jumps (Service.init w)
    = Some (st', tr, Raise (ApiError "League"))
    ∧ Service._cache st' !! (7, 2024) = None.
Proof.
  intros w. eexists _, _. split; [by vm_compute|].
  match goal with |- Service._cache ?s !! _ = None =>
    assert (Hrun : Service.get_league (λ _, false) 7 2024 0 clock_jumps
                     (Service.init w)
                   = Some (s, [], Raise (ApiError "League")))
      by (by vm_compute)
  end.
  destruct (service_get_league_error _ _ _ _ _ _ _ _ _ Hrun)
    as [(He & _) | (_ & _ & Hc & _)]; [by vm_compute in He | exact Hc].
Defined.

(** *** [ESPNFantasyFootballAPI] and its tools, continued *)

Lemma clear_credentials_forgets (ok : nat → bool) (a : Server.api)
    (sid : string) (l y : Z) :
  cache_inv a →
  let a1 := Server.clear_credentials sid a in
  Server.credentials a1 !! sid = None
  ∧ (∀ l' y', Server.leagues a1 !! Server.cache_key sid l' y' = None)
  ∧ (∀ sid2 l' y', sid2 ≠ sid →
       Server.leagues a1 !! Server.cache_key sid2 l' y'
       = Server.leagues a !! Server.cache_key sid2 l' y'
       ∧ Server.credentials a1 !! sid2 = Server.credentials a !! sid2)
  ∧ (∀ lg, (Server.get_league ok sid l y a1).2 = Ok lg →
       (Server.calls a ≤ obj_id lg)%nat
       ∧ lg_espn_s2 lg = None ∧ lg_swid lg = None).
Proof.
  intros Ha a1.
  assert (Ha1 : cache_inv a1) by by apply cache_inv_clear_credentials.
  assert (Hnone : ∀ l' y', Server.leagues a1 !! Server.cache_key sid l' y' = None).
  { intros l' y'.
    destruct (Server.leagues a1 !! Server.cache_key sid l' y') as [lg|] eqn:E;
      [|done].
    destruct (inv_owner a1 Ha1 _ _ E) as (sid' & l0 & y0 & ks & Hk & Hs & _).
    apply cache_key_inj in Hk as (<- & _ & _).
    subst a1. simpl in Hs. by rewrite lookup_delete_eq in Hs. }
  split; [|split; [done|split]].
  - subst a1. simpl. by rewrite lookup_delete_eq.
  - intros sid2 l' y' Hne. subst a1. simpl. split.
    + by apply purged_other.
    + by rewrite lookup_delete_ne.
  - intros lg.
    destruct (get_league_cases ok sid l y a1)
      as [(lg0 & Hk & ->) | [(Hk & Hok & ->) | (Hk & Hok & ->)]]; simpl.
    + by rewrite Hnone in Hk.
    + done.
    + intros [= <-]. unfold built. subst a1. simpl.
      by rewrite lookup_delete_eq.
Qed.

(** X14.  After the tool [logout] for a session, in any state of the
    server: the session has no stored credentials and nothing cached, what
    other sessions have stored and cached is as before, and the next
    [get_league] of the session, when it returns, returns an object built
    after the logout with no credentials at all. *)
Theorem logout_forgets_session (ok : nat → bool) (env : gmap string string)
    (session_id : option string) (a : Server.api) (l y : Z) :
  reachable ok a →
  let sid := Server._resolve_session_id env session_id in
  let a1 := (Server.logout env session_id a).1 in
  Server.credentials a1 !! sid = None
  ∧ (∀ l' y', Server.leagues a1 !! Server.cache_key sid l' y' = None)
  ∧ (∀ sid2 l' y', sid2 ≠ sid →
       Server.leagues a1 !! Server.cache_key sid2 l' y'
       = Server.leagues a !! Server.cache_key sid2 l' y'
       ∧ Server.credentials a1 !! sid2 = Server.credentials a !! sid2)
  ∧ (∀ lg, (Server.get_league ok sid l y a1).2 = Ok lg →
       (Server.calls a ≤ obj_id lg)%nat
       ∧ lg_espn_s2 lg = None ∧ lg_swid lg = None).
Proof.
  intros Hr sid a1.
  exact (clear_credentials_forgets ok a sid l y (reachable_inv ok a Hr)).
Qed.

(** Session ["alice"] has stored tokens and read league 7 of 2024. *)
Definition alice_logged_in : Server.api :=
  (Server.get_league (λ _, true) "alice" 7 2024
     (Server.store_credentials "alice" "A1" "{B2}" Server.init)).1.

Lemma logout_forgets_session_witness :
  let a1 := (Server.logout ∅ (Some " alice ") alice_logged_in).1 in
  Server.credentials a1 !! "alice" = None
  ∧ ∀ lg, (Server.get_league (λ _, true) "alice" 7 2024 a1).2 = Ok lg →
      lg_espn_s2 lg = None ∧ lg_swid lg = None.
Proof.
  assert (Hr : reachable (λ _, true) alice_logged_in).
  { apply reach_get, reach_store, reach_init. }
  destruct (logout_forgets_session (λ _, true) ∅ (Some " alice ")
              alice_logged_in 7 2024 Hr) as (Hc & _ & _ & Hg).
  assert (Hsid : Server._resolve_session_id ∅ (Some " alice ") = "alice")
    by by vm_compute.
  rewrite Hsid in Hc, Hg. split; [exact Hc|].
  intros lg Hlg. destruct (Hg lg Hlg) as (_ & H2 & Hw).
  split; [exact H2 | exact Hw].
Defined.

(** No two cache keys hold objects of the same constructor call. *)
Definition handles_distinct (a : Server.api) : Prop :=
  ∀ k1 k2 lg1 lg2,
    Server.leagues a !! k1 = Some lg1 → Server.leagues a !! k2 = Some lg2 →
    obj_id lg1 = obj_id lg2 → k1 = k2.

Lemma handles_distinct_purge (a : Server.api) (keys : gset string)
    (lgs : gmap string League) :
  handles_distinct a →
  (∀ k lg, lgs !! k = Some lg → Server.leagues a !! k = Some lg) →
  ∀ k1 k2 lg1 lg2, lgs !! k1 = Some lg1 → lgs !! k2 = Some lg2 →
    obj_id lg1 = obj_id lg2 → k1 = k2.
Proof.
  intros Ha Hsub k1 k2 lg1 lg2 H1 H2. apply Ha; by apply Hsub.
Qed.

Lemma purged_sub (keys : gset string) (lgs : gmap string League)
    (k : string) (lg : League) :
  (if bool_decide (keys = ∅) then lgs else Server.purge keys lgs) !! k
  = Some lg →
  lgs !! k = Some lg.
Proof. rewrite purged_lookup. by case_bool_decide. Qed.

Lemma reachable_handles_distinct (ok : nat → bool) (a : Server.api) :
  reachable ok a → handles_distinct a.
Proof.
  induction 1 as [|a sid l y Hr IH|a sid s2 sw Hr IH|a sid Hr IH].
  - intros k1 k2 lg1 lg2 H1. simpl in H1. by rewrite lookup_empty in H1.
  - pose proof (reachable_inv ok a Hr) as Ha.
    destruct (get_league_cases ok sid l y a)
      as [(lg0 & Hk & ->) | [(Hk & Hok & ->) | (Hk & Hok & ->)]];
      [exact IH|exact IH|].
    intros k1 k2 lg1 lg2. simpl.
    rewrite !lookup_insert. repeat case_decide; subst.
    + done.
    + intros [= <-] H2 Hid. simpl in Hid.
      pose proof (inv_fresh a Ha _ _ H2). lia.
    + intros H1 [= <-] Hid. simpl in Hid.
      pose proof (inv_fresh a Ha _ _ H1). lia.
    + apply IH.
  - intros k1 k2 lg1 lg2 H1 H2. simpl in H1, H2.
    apply purged_sub in H1, H2. by apply (IH k1 k2 lg1 lg2).
  - intros k1 k2 lg1 lg2 H1 H2. simpl in H1, H2.
    apply purged_sub in H1, H2. by apply (IH k1 k2 lg1 lg2).
Qed.

(** X15.  In any state of the server, objects cached for two different
    (session, league, year) triples come from different constructor calls:
    no [League] object, with the credentials it holds, is shared between
    two sessions, nor between two leagues or years of one session. *)
Theorem server_handles_not_shared (ok : nat → bool) (a : Server.api)
    (sid1 sid2 : string) (l1 y1 l2 y2 : Z) (lg1 lg2 : League) :
  reachable ok a →
  Server.leagues a !! Server.cache_key sid1 l1 y1 = Some lg1 →
  Server.leagues a !! Server.cache_key sid2 l2 y2 = Some lg2 →
  obj_id lg1 = obj_id lg2 →
  sid1 = sid2 ∧ l1 = l2 ∧ y1 = y2.
Proof.
  intros Hr H1 H2 Hid. apply cache_key_inj.
  exact (reachable_handles_distinct ok a Hr _ _ _ _ H1 H2 Hid).
Qed.

Lemma server_handles_not_shared_witness :
  ∃ lg1 lg2,
    Server.leagues two_sessions !! Server.cache_key "alice" 7 2024 = Some lg1
    ∧ Server.leagues two_sessions !! Server.cache_key "bob" 7 2024 = Some lg2
    ∧ obj_id lg1 ≠ obj_id lg2.
Proof.
  assert (Hr : reachable (λ _, true) two_sessions).
  { apply reach_get, reach_get, reach_init. }
  eexists _, _. split; [by vm_compute|]. split; [by vm_compute|].
  intros Hid.
  destruct (server_handles_not_shared (λ _, true) two_sessions
              "alice" "bob" 7 2024 7 2024 _ _ Hr eq_refl eq_refl Hid)
    as (Hs & _).
  discriminate Hs.
Defined.

(** The loop of [_capture_cookies_via_browser] ends after the first poll
    that leaves neither cookie [None]. *)
Lemma server_poll_loop_seen (o : oracle) (deadline : Z) (n : nat) :
  ∀ k tr,
    (∀ j, (k ≤ j ≤ k + n)%nat →
       time_at o (S j) < deadline ∧ is_Some (cookies_at o j)) →
    (∀ j, (k ≤ j ≤ k + n)%nat →
       Server.is_None (server_observed o j).1
       || Server.is_None (server_observed o j).2 = true) →
    Server.is_None (server_observed o (S (k + n))).1
    || Server.is_None (server_observed o (S (k + n))).2 = false →
    ∃ tr', Server.poll_loop o deadline (S (S n)) k
             (server_observed o k).1 (server_observed o k).2 tr
           = Some (tr', PollExit (server_observed o (S (k + n))).1
                                 (server_observed o (S (k + n))).2).
Proof.
  induction n as [|n IH]; intros k tr Hpolls Hnot Hseen.
  - rewrite Nat.add_0_r in *. cbn [Server.poll_loop].
    destruct (Hpolls k) as [Ht [cs Hcs]]; [lia|].
    destruct (Z.ltb_spec (time_at o (S k)) deadline); [|lia].
    rewrite (Hnot k) by lia. cbn [andb]. rewrite Hcs.
    assert (Hobs : fold_left Server.scan_cookie cs
                     ((server_observed o k).1, (server_observed o k).2)
                   = server_observed o (S k)).
    { simpl. rewrite Hcs. simpl. by destruct (server_observed o k). }
    rewrite Hobs. destruct (server_observed o (S k)) as [g2 gw] eqn:E.
    cbn [fst snd] in *. rewrite Hseen, andb_false_r.
    destruct (Py.truthy g2 && Py.truthy gw); eauto.
  - cbn [Server.poll_loop].
    destruct (Hpolls k) as [Ht [cs Hcs]]; [lia|].
    destruct (Z.ltb_spec (time_at o (S k)) deadline); [|lia].
    rewrite (Hnot k) by lia. cbn [andb]. rewrite Hcs.
    assert (Hobs : fold_left Server.scan_cookie cs
                     ((server_observed o k).1, (server_observed o k).2)
                   = server_observed o (S k)).
    { simpl. rewrite Hcs. simpl. by destruct (server_observed o k). }
    rewrite Hobs. destruct (server_observed o (S k)) as [g2 gw] eqn:E.
    assert (Hb : Server.is_None g2 || Server.is_None gw = true).
    { pose proof (Hnot (S k)) as Hb. rewrite E in Hb. apply Hb. lia. }
    assert (Hf : Py.truthy g2 && Py.truthy gw = false).
    { destruct g2, gw; simpl in Hb; try done. by rewrite andb_false_r. }
    rewrite Hf.
    replace (k + S n)%nat with (S k + n)%nat in * by lia.
    destruct (IH (S k) (tr ++ [EvCookies true; EvSleep])) as [tr' Htr'].
    + intros j Hj. apply Hpolls. lia.
    + intros j Hj. apply Hnot. lia.
    + done.
    + rewrite E in Htr'. cbn [fst snd] in Htr'. eauto.
Qed.

Lemma capture_cookies_seen (headless : bool) (timeout_seconds : Z)
    (o : oracle) (n : nat) :
  driver_ok o →
  (∀ j, (j ≤ n)%nat →
     time_at o (S j) < time_at o 0 + timeout_seconds
     ∧ is_Some (cookies_at o j)) →
  (∀ j, (j ≤ n)%nat →
     Server.is_None (server_observed o j).1
     || Server.is_None (server_observed o j).2 = true) →
  Server.is_None (server_observed o (S n)).1
  || Server.is_None (server_observed o (S n)).2 = false →
  ∃ tr, Server._capture_cookies_via_browser headless timeout_seconds
          (S (S n)) o
        = Some (tr, server_observed o (S n))
    ∧ browser_running tr = false.
Proof.
  intros (Hi & Hs & Hl & Hc & Hp & Hg & Hx) Hpolls Hnot Hseen.
  destruct (server_poll_loop_seen o (time_at o 0 + timeout_seconds) n 0%nat
              [EvStart true; EvLaunch headless true; EvNewContext true;
               EvNewPage true; EvGoto true]) as [tr' Htr'].
  { intros j Hj. apply Hpolls. lia. }
  { intros j Hj. apply Hnot. lia. }
  { done. }
  cbn [Nat.add] in Htr'. change (server_observed o 0) with
    (@None string, @None string) in Htr'. cbn [fst snd] in Htr'.
  exists (tr' ++ [EvClose true; EvStop]). split.
  - unfold Server._capture_cookies_via_browser.
    rewrite Hs, Hl, Hc, Hp, Hg. cbn [negb]. rewrite Htr', Hx.
    by destruct (server_observed o (S n)).
  - apply browser_running_close_stop.
Qed.

(** X16.  When the driver operations succeed and the [n]-th poll, before
    the deadline, is the first after which neither cookie is [None], and
    both values are non-empty, the tool [authenticate] stores the two
    values for the resolved session and closes the browser; the next
    [get_league] of that session, when it returns, returns an object built
    after the login with the two captured values. *)
Theorem authenticate_stores_captured (ok : nat → bool)
    (env : gmap string string) (timeout_seconds : Z)
    (session_id : option string) (o : oracle) (n : nat) (a : Server.api)
    (l y : Z) :
  reachable ok a →
  driver_ok o →
  (∀ j, (j ≤ n)%nat →
     time_at o (S j) < time_at o 0 + timeout_seconds
     ∧ is_Some (cookies_at o j)) →
  (∀ j, (j ≤ n)%nat →
     Server.is_None (server_observed o j).1
     || Server.is_None (server_observed o j).2 = true) →
  Py.truthy (server_observed o (S n)).1
  && Py.truthy (server_observed o (S n)).2 = true →
  let sid := Server._resolve_session_id env session_id in
  ∃ tr s2 sw,
    server_observed o (S n) = (Some s2, Some sw)
    ∧ Server.authenticate env timeout_seconds session_id (S (S n)) o a
      = Some (Server.store_credentials sid s2 sw a, tr,
              Server.auth_ok_msg s2 sw)
    ∧ browser_running tr = false
    ∧ ∀ lg, (Server.get_league ok sid l y
               (Server.store_credentials sid s2 sw a)).2 = Ok lg →
        (Server.calls a ≤ obj_id lg)%nat
        ∧ lg_espn_s2 lg = Some s2 ∧ lg_swid lg = Some sw.
Proof.
  intros Hr Hok Hpolls Hnot Hboth sid.
  destruct (both_nonempty _ _ Hboth) as (s2 & sw & E2 & Ew & N2 & Nw).
  destruct (capture_cookies_seen false timeout_seconds o n Hok Hpolls Hnot)
    as (tr & Hrun & Hrel).
  { by rewrite E2, Ew. }
  assert (Eobs : server_observed o (S n) = (Some s2, Some sw)).
  { destruct (server_observed o (S n)). simpl in E2, Ew. by subst. }
  exists tr, s2, sw. split; [done|]. split; [|split; [done|]].
  - unfold Server.authenticate. rewrite Hrun, Eobs. fold sid.
    destruct s2, sw; done.
  - intros lg Hlg.
    destruct (store_credentials_rotation ok a sid s2 sw l y
                (reachable_inv ok a Hr)) as (_ & _ & H3).
    destruct (H3 lg Hlg) as (? & _ & _ & _ & ? & ?). done.
Qed.

(** Somebody logs in between the first and the second poll; the site
    writes the cookie names in lower case. *)
Definition server_login_at_second_poll : oracle :=
  {| import_ok := true; start_ok := true; launch_ok := true;
     new_context_ok := true; new_page_ok := true; goto_ok := true;
     close_ok := true; time_at := λ k, Z.of_nat k;
     cookies_at := λ k,
       match k with
       | O => Some [<["value" := "x"]> (<["name" := "other"]> ∅)]
       | _ => Some [<["value" := "{B2}"]> (<["name" := "swid"]> ∅);
                    <["value" := "A1"]> (<["name" := "espn_s2"]> ∅)]
       end;
     wall_at := λ _, 0 |}.

Lemma authenticate_stores_captured_witness :
  ∃ tr, Server.authenticate ∅ 300 None 3 server_login_at_second_poll
          Server.init
        = Some (Server.store_credentials "default_session" "A1" "{B2}"
                  Server.init, tr, Server.auth_ok_msg "A1" "{B2}").
Proof.
  destruct (authenticate_stores_captured (λ _, true) ∅ 300 None
              server_login_at_second_poll 1 Server.init 7 2024)
    as (tr & s2 & sw & Hobs & Hrun & _).
  - apply reach_init.
  - by repeat split.
  - intros j Hj. assert (j = 0%nat ∨ j = 1%nat) as [-> | ->] by lia;
      (split; [simpl; lia | by eexists]).
  - intros j Hj. assert (j = 0%nat ∨ j = 1%nat) as [-> | ->] by lia;
      by vm_compute.
  - by vm_compute.
  - exists tr. vm_compute in Hobs. injection Hobs as <- <-. exact Hrun.
Defined.

(** X17.  [_capture_cookies_via_browser] stops waiting as soon as neither
    cookie is [None]: when after the [n]-th poll both cookies have been
    seen but one of them with an empty value, the tool [authenticate]
    reports a failure at once, however far the deadline is, and stores
    nothing. *)
Theorem authenticate_empty_cookie_fails (env : gmap string string)
    (timeout_seconds : Z) (session_id : option string) (o : oracle)
    (n : nat) (a : Server.api) :
  driver_ok o →
  (∀ j, (j ≤ n)%nat →
     time_at o (S j) < time_at o 0 + timeout_seconds
     ∧ is_Some (cookies_at o j)) →
  (∀ j, (j ≤ n)%nat →
     Server.is_None (server_observed o j).1
     || Server.is_None (server_observed o j).2 = true) →
  Server.is_None (server_observed o (S n)).1
  || Server.is_None (server_observed o (S n)).2 = false →
  Py.truthy (server_observed o (S n)).1
  && Py.truthy (server_observed o (S n)).2 = false →
  ∃ tr, Server.authenticate env timeout_seconds session_id (S (S n)) o a
        = Some (a, tr, Server.auth_failed_msg)
    ∧ browser_running tr = false.
Proof.
  intros Hok Hpolls Hnot Hseen Hempty.
  destruct (capture_cookies_seen false timeout_seconds o n Hok Hpolls Hnot
              Hseen) as (tr & Hrun & Hrel).
  exists tr. split; [|done].
  unfold Server.authenticate. rewrite Hrun.
  destruct (server_observed o (S n)) as [g2 gw]. cbn [fst snd] in Hempty.
  apply andb_false_iff in Hempty as [-> | ->]; [done|].
  by rewrite orb_true_r.
Qed.

(** The first poll sees a [SWID] cookie and an [espn_s2] cookie whose value
    is empty; the deadline is five minutes away. *)
Definition empty_espn_s2_cookie : oracle :=
  {| import_ok := true; start_ok := true; launch_ok := true;
     new_context_ok := true; new_page_ok := true; goto_ok := true;
     close_ok := true; time_at := λ k, Z.of_nat k;
     cookies_at := λ _,
       Some [<["value" := "{B2}"]> (<["name" := "SWID"]> ∅);
             <["value" := ""]> (<["name" := "espn_s2"]> ∅)];
     wall_at := λ _, 0 |}.

Lemma authenticate_empty_cookie_fails_witness :
  ∃ tr, Server.authenticate ∅ 300 None 2 empty_espn_s2_cookie Server.init
        = Some (Server.init, tr, Server.auth_failed_msg).
Proof.
  destruct (authenticate_empty_cookie_fails ∅ 300 None empty_espn_s2_cookie
              0 Server.init) as (tr & Hrun & _).
  - by repeat split.
  - intros j Hj. assert (j = 0%nat) as -> by lia.
    split; [simpl; lia | by eexists].
  - intros j Hj. assert (j = 0%nat) as -> by lia. by vm_compute.
  - by vm_compute.
  - by vm_compute.
  - by exists tr.
Defined.

(** *** Concurrent calls, continued *)

(** The steps a call still has to take: a call that has not started checks
    the credentials, may wait for the lock, runs its browser session and
    returns. *)
Definition rank (p : pc) : nat :=
  match p with
  | Ready => 3
  | Waiting => 2
  | Capturing _ => 1
  | Done _ _ => 0
  end.

Definition work (l : list pc) : nat := foldr (λ p n, rank p + n)%nat 0%nat l.

Lemma work_insert (l : list pc) (i : nat) (p q : pc) :
  l !! i = Some p →
  (work (<[i := q]> l) + rank p = work l + rank q)%nat.
Proof.
  revert i. induction l as [|x l IH]; intros [|i] H; simplify_eq/=.
  - lia.
  - specialize (IH i H). lia.
Qed.

Lemma work_init (n : nat) : work (replicate n Ready) = (3 * n)%nat.
Proof. induction n as [|n IH]; simpl; [done|]. rewrite IH. lia. Qed.

Lemma run_task_work (mode : Auth.persist_mode)
    (capture : nat → result (string * string)) (i : nat) (s s' : sys) :
  run_task mode capture i s = Some s' →
  (work (tasks s') < work (tasks s))%nat.
Proof.
  unfold run_task.
  destruct (tasks s !! i) as [[| |n|slow r]|] eqn:Hi; try done.
  - destruct (valid (world s)); [|destruct (negb _ && _)];
      intros [= <-]; simpl;
      match goal with |- context [<[i := ?q]> _] =>
        pose proof (work_insert (tasks s) i Ready q Hi) end;
      simpl in *; lia.
  - destruct (waiters s) as [|j rest]; [done|].
    destruct (negb _ && _); [|done]. intros [= <-]. simpl.
    pose proof (work_insert (tasks s) i Waiting (Capturing (captures s)) Hi).
    simpl in *. lia.
  - intros [= <-]. unfold finish.
    destruct (capture n) as [[a b]|e];
      [destruct (Auth.set a b mode (world s)) as [w' [[]|e]]|]; simpl;
      match goal with |- context [<[i := ?q]> _] =>
        pose proof (work_insert (tasks s) i (Capturing n) q Hi) end;
      simpl in *; lia.
Qed.

Lemma exec_work (mode : Auth.persist_mode)
    (capture : nat → result (string * string)) (sched : list nat) :
  ∀ s s', exec mode capture sched s = Some s' →
    (work (tasks s') + length sched ≤ work (tasks s))%nat.
Proof.
  induction sched as [|i sched IH]; intros s s'; simpl.
  - intros [= <-]. lia.
  - destruct (run_task mode capture i s) as [s1|] eqn:E; [|done].
    intros H. specialize (IH _ _ H).
    pose proof (run_task_work mode capture i s s1 E). lia.
Qed.

(** The queue of the lock holds exactly the calls that wait for it, each
    once. *)
Definition queue_inv (s : sys) : Prop :=
  NoDup (waiters s) ∧ ∀ i, i ∈ waiters s ↔ tasks s !! i = Some Waiting.

Lemma queue_inv_with_task (s : sys) (i : nat) (p q : pc) (w : Auth.world)
    (l : bool) (qs : list nat) (c : nat) :
  queue_inv s → tasks s !! i = Some p →
  NoDup qs →
  (∀ k, k ≠ i → k ∈ qs ↔ k ∈ waiters s) →
  (i ∈ qs ↔ q = Waiting) →
  queue_inv (with_task i q w l qs c s).
Proof.
  intros [Hnd Hq] Hi Hnd' Hother Hself. split; [done|].
  intros k. simpl. destruct (decide (k = i)) as [->|Hne].
  - rewrite list_lookup_insert_eq by by apply lookup_lt_Some in Hi.
    rewrite Hself. split; [by intros ->|by intros [= ->]].
  - rewrite list_lookup_insert_ne by done. rewrite Hother by done. apply Hq.
Qed.

Lemma queue_inv_run_task (mode : Auth.persist_mode)
    (capture : nat → result (string * string)) (i : nat) (s s' : sys) :
  queue_inv s → run_task mode capture i s = Some s' → queue_inv s'.
Proof.
  intros Hs. pose proof Hs as [Hnd Hq]. unfold run_task.
  destruct (tasks s !! i) as [[| |n|slow r]|] eqn:Hi; try done.
  - assert (Hni : i ∉ waiters s).
    { intros Hin. apply Hq in Hin. congruence. }
    destruct (valid (world s)).
    { intros [= <-]. apply (queue_inv_with_task s i Ready); try done. }
    destruct (negb (locked s) && bool_decide (waiters s = [])) eqn:Hfree.
    + apply andb_true_iff in Hfree as [_ He].
      apply bool_decide_eq_true in He.
      intros [= <-]. apply (queue_inv_with_task s i Ready); try done.
      * apply NoDup_nil_2.
      * intros k _. by rewrite He.
      * split; [by intros ?%elem_of_nil|done].
    + intros [= <-]. apply (queue_inv_with_task s i Ready); try done.
      * apply NoDup_app. split; [done|]. split; [|apply NoDup_singleton].
        intros k Hk ->%list_elem_of_singleton. done.
      * intros k Hne. rewrite elem_of_app, list_elem_of_singleton.
        split; [intros [?|?]; done|by left].
      * split; [done|]. intros _. rewrite elem_of_app, list_elem_of_singleton.
        by right.
  - destruct (waiters s) as [|j rest] eqn:Hw; [done|].
    destruct (negb (locked s) && bool_decide (j = i)) eqn:Hfree; [|done].
    apply andb_true_iff in Hfree as [_ He]. apply bool_decide_eq_true in He.
    subst j. apply NoDup_cons in Hnd as [Hni Hnd].
    intros [= <-]. apply (queue_inv_with_task s i Waiting); try done.
    intros k Hne. rewrite Hw, elem_of_cons. split; [by right|].
    intros [?|?]; done.
  - assert (Hni : i ∉ waiters s).
    { intros Hin. apply Hq in Hin. congruence. }
    intros [= <-]. unfold finish.
    destruct (capture n) as [[a b]|e];
      [destruct (Auth.set a b mode (world s)) as [w' [[]|e]]|];
      apply (queue_inv_with_task s i (Capturing n)); try done.
Qed.

Lemma queue_inv_exec (mode : Auth.persist_mode)
    (capture : nat → result (string * string)) (sched : list nat) :
  ∀ s s', queue_inv s → exec mode capture sched s = Some s' → queue_inv s'.
Proof.
  induction sched as [|i sched IH]; intros s s' Hs; simpl.
  - by intros [= <-].
  - destruct (run_task mode capture i s) as [s1|] eqn:E; [|done].
    apply IH. by apply (queue_inv_run_task mode capture i s).
Qed.

Lemma queue_inv_init (w : Auth.world) (n : nat) : queue_inv (init w n).
Proof.
  split; simpl; [apply NoDup_nil_2|].
  intros i. split; [by intros ?%elem_of_nil|].
  intros H. apply lookup_replicate in H as [? _]. done.
Qed.

Lemma count_pos (f : pc → bool) (l : list pc) :
  (0 < count f l)%nat → ∃ i p, l !! i = Some p ∧ f p = true.
Proof.
  unfold count. induction l as [|x l IH]; simpl; [lia|].
  destruct (f x) eqn:E.
  - intros _. by exists 0%nat, x.
  - intros H. destruct (IH H) as (i & p & Hi & Hp). by exists (S i), p.
Qed.

Lemma not_all_done (l : list pc) :
  forallb is_done l = false → ∃ i p, l !! i = Some p ∧ is_done p = false.
Proof.
  induction l as [|x l IH]; simpl; [done|].
  destruct (is_done x) eqn:E; simpl.
  - intros H. destruct (IH H) as (i & p & Hi & Hp). by exists (S i), p.
  - intros _. by exists 0%nat, x.
Qed.

Lemma run_task_progress (mode : Auth.persist_mode)
    (capture : nat → result (string * string)) (s : sys) :
  lock_inv s → queue_inv s → all_done s = false →
  ∃ i s', run_task mode capture i s = Some s'.
Proof.
  intros [Hc _] [_ Hq] Hnd.
  destruct (not_all_done _ Hnd) as (i & p & Hi & Hp).
  destruct p as [| |n|slow r]; [| | |done].
  - exists i. unfold run_task. rewrite Hi.
    destruct (valid (world s)); [|destruct (negb _ && _)]; eauto.
  - destruct (locked s) eqn:Hl.
    + destruct (count_pos is_capturing (tasks s)) as (k & q & Hk & Hcap);
        [lia|].
      destruct q as [| |m|]; try done.
      exists k. unfold run_task. rewrite Hk. eauto.
    + apply Hq in Hi. destruct (waiters s) as [|j rest] eqn:Hw.
      { by apply elem_of_nil in Hi. }
      assert (Hj : tasks s !! j = Some Waiting).
      { apply Hq. apply elem_of_cons. by left. }
      exists j. unfold run_task. rewrite Hj, Hw, Hl. simpl.
      rewrite bool_decide_eq_true_2 by done. eauto.
  - exists i. unfold run_task. rewrite Hi. eauto.
Qed.

(** X18.  Concurrent calls of [ensure_authenticated] cannot block each
    other for ever: however [n] calls made at once are scheduled, as long
    as one of them has not returned some call can run (the lock is given
    back after every browser session, also after one that failed, and the
    call at the head of the queue can take it), and no call runs more than
    three times, so that at most [3 * n] steps are taken in all. *)
Theorem calls_never_deadlock (mode : Auth.persist_mode)
    (capture : nat → result (string * string)) (w : Auth.world) (n : nat)
    (sched : list nat) (s : sys) :
  exec mode capture sched (init w n) = Some s →
  (length sched ≤ 3 * n)%nat
  ∧ (all_done s = false → ∃ i s', run_task mode capture i s = Some s').
Proof.
  intros Hrun. split.
  - pose proof (exec_work mode capture sched _ _ Hrun) as H.
    simpl in H. rewrite work_init in H. lia.
  - apply run_task_progress.
    + exact (lock_inv_exec mode capture sched _ _ (lock_inv_init w n) Hrun).
    + exact (queue_inv_exec mode capture sched _ _ (queue_inv_init w n) Hrun).
Qed.

(** Every browser session fails. *)
Definition no_login (n : nat) : result (string * string) :=
  Raise (TimeoutError Auth.timeout_msg).

Lemma calls_never_deadlock_witness :
  let w := Auth.fresh_world ∅ Auth.NoFile in
  ∃ s, exec Auth.pm_env no_login [0; 1; 0]%nat (init w 2) = Some s
    ∧ ∃ i s', run_task Auth.pm_env no_login i s = Some s'.
Proof.
  intros w. eexists. split; [by vm_compute|].
  refine (proj2 (calls_never_deadlock Auth.pm_env no_login w 2
                   [0; 1; 0]%nat _ _) _); by vm_compute.
Defined.

(** With valid credentials in the store, nothing changes state but the
    calls themselves, which only read. *)
Definition fast_inv (w : Auth.world) (s : sys) : Prop :=
  world s = w ∧ captures s = 0%nat
  ∧ ∀ i p, tasks s !! i = Some p →
      p = Ready ∨ p = Done false (Ok (tokens w)).

Lemma fast_inv_run_task (mode : Auth.persist_mode)
    (capture : nat → result (string * string)) (w : Auth.world) (i : nat)
    (s s' : sys) :
  valid w = true → fast_inv w s → run_task mode capture i s = Some s' →
  fast_inv w s'.
Proof.
  intros Hv (Hw & Hc & Ht). unfold run_task.
  destruct (tasks s !! i) as [p|] eqn:Hi; [|done].
  destruct (Ht i p Hi) as [-> | ->]; [|done].
  rewrite Hw, Hv. intros [= <-]. split; [done|]. split; [done|].
  intros k p. simpl. destruct (decide (k = i)) as [->|Hne].
  - rewrite list_lookup_insert_eq by by apply lookup_lt_Some in Hi.
    intros [= <-]. by right.
  - rewrite list_lookup_insert_ne by done. apply Ht.
Qed.

Lemma fast_inv_exec (mode : Auth.persist_mode)
    (capture : nat → result (string * string)) (w : Auth.world)
    (sched : list nat) :
  valid w = true →
  ∀ s s', fast_inv w s → exec mode capture sched s = Some s' → fast_inv w s'.
Proof.
  intros Hv. induction sched as [|i sched IH]; intros s s' Hs; simpl.
  - by intros [= <-].
  - destruct (run_task mode capture i s) as [s1|] eqn:E; [|done].
    apply IH. by apply (fast_inv_run_task mode capture w i s).
Qed.

(** X19.  When the store holds valid credentials, concurrent calls of
    [ensure_authenticated] open no browser, however they are scheduled:
    the store is left as it is, and every call that has returned returned
    the stored tokens from its first check. *)
Theorem valid_credentials_no_browser (mode : Auth.persist_mode)
    (capture : nat → result (string * string)) (w : Auth.world) (n : nat)
    (sched : list nat) (s : sys) :
  valid w = true →
  exec mode capture sched (init w n) = Some s →
  captures s = 0%nat ∧ world s = w ∧ locked s = false
  ∧ ∀ i slow r, tasks s !! i = Some (Done slow r) →
      slow = false ∧ r = Ok (tokens w).
Proof.
  intros Hv Hrun.
  assert (Hinit : fast_inv w (init w n)).
  { split; [done|]. split; [done|]. intros i p H. simpl in H.
    apply lookup_replicate in H as [-> _]. by left. }
  pose proof (fast_inv_exec mode capture w sched Hv _ _ Hinit Hrun)
    as (Hw & Hc & Ht).
  split; [done|]. split; [done|]. split.
  - pose proof (lock_inv_exec mode capture sched _ _ (lock_inv_init w n) Hrun)
      as [Hcap _].
    destruct (locked s); [|done].
    destruct (count_pos is_capturing (tasks s)) as (k & q & Hk & Hq); [lia|].
    destruct (Ht k q Hk) as [-> | ->]; done.
  - intros i slow r Hi. destruct (Ht i _ Hi) as [? | [= -> ->]]; done.
Qed.

Lemma valid_credentials_no_browser_witness :
  let w := Auth.fresh_world
             (<["SWID" := "{B2}"]> (<["ESPN_S2" := "A1"]> ∅)) Auth.NoFile in
  ∃ s, exec Auth.pm_env two_logins [1; 0]%nat (init w 2) = Some s
    ∧ captures s = 0%nat
    ∧ tasks s !! 0%nat = Some (Done false (Ok ("A1", "{B2}"))).
Proof.
  intros w. eexists. split; [by vm_compute|].
  split; [|by vm_compute].
  refine (proj1 (valid_credentials_no_browser Auth.pm_env two_logins w 2
                   [1; 0]%nat _ _ _)); by vm_compute.
Defined.

(** *** The tools *)

Lemma prefix_nil (s : string) : String.prefix "" s = true.
Proof. by destruct s. Qed.

Lemma prefix_spec (n h : string) :
  String.prefix n h = true ↔ ∃ b, h = n +:+ b.
Proof.
  revert h. induction n as [|c n IH]; intros h.
  - rewrite prefix_nil. split; [|done]. intros _. by exists h.
  - destruct h as [|d h].
    + split; [done|]. by intros [b Hb].
    + rewrite prefix_cons, andb_true_iff, bool_decide_eq_true, IH.
      split.
      * intros [-> [b ->]]. by exists b.
      * intros [b Hb].
        change (String d h = String c (n +:+ b)) in Hb.
        injection Hb as -> ->. split; [done|]. by exists b.
Qed.

Lemma contains_spec (n h : string) :
  Tools.contains n h = true ↔ ∃ a b, h = a +:+ n +:+ b.
Proof.
  induction h as [|c h IH].
  - cbn [Tools.contains]. rewrite prefix_spec. split.
    + intros [b Hb]. by exists "", b.
    + intros (a & b & Hab). destruct a as [|c a]; [by exists b|done].
  - cbn [Tools.contains]. rewrite orb_true_iff, prefix_spec, IH. split.
    + intros [[b Hb] | (a & b & ->)].
      * by exists "", b.
      * by exists (String c a), b.
    + intros (a & b & Hab). destruct a as [|d a].
      * left. by exists b.
      * change (String c h = String d (a +:+ n +:+ b)) in Hab.
        injection Hab as -> ->. right. by exists a, b.
Qed.

Lemma lower_app (a b : string) :
  Tools.lower (a +:+ b) = Tools.lower a +:+ Tools.lower b.
Proof.
  induction a as [|c a IH]; [done|].
  change (String (Tools.lower_char c) (Tools.lower (a +:+ b))
          = String (Tools.lower_char c) (Tools.lower a +:+ Tools.lower b)).
  by rewrite IH.
Qed.

(** The lower-cased name of the player holds the lower-cased query. *)
Definition name_matches (player_name : string) (p : Tools.Player) : Prop :=
  ∃ a b, Tools.lower (Tools.name p)
         = a +:+ Tools.lower player_name +:+ b.

(** The players of a league in the order of the search: team after team,
    each roster from its first player. *)
Definition rostered (teams : list Tools.Team) : list Tools.Player :=
  concat (map Tools.roster teams).

(** [p] is the first player of [l] that matches. *)
Definition first_match (player_name : string) (l : list Tools.Player)
    (p : Tools.Player) : Prop :=
  ∃ pre post, l = pre ++ p :: post ∧ name_matches player_name p
    ∧ ∀ x, In x pre → ¬ name_matches player_name x.

Lemma scan_roster_spec (q : string) (ros : list Tools.Player) :
  match Tools.scan_roster q ros None with
  | Some p => first_match q ros p
  | None => ∀ x, In x ros → ¬ name_matches q x
  end.
Proof.
  induction ros as [|x ros IH]; simpl; [by intros x []|].
  destruct (Tools.contains _ _) eqn:E.
  - exists [], ros. split; [done|]. split; [by apply contains_spec|].
    by intros y [].
  - assert (Hx : ¬ name_matches q x).
    { intros H. apply contains_spec in H. congruence. }
    destruct (Tools.scan_roster q ros None) as [p|].
    + destruct IH as (pre & post & -> & Hm & Hpre).
      exists (x :: pre), post. split; [done|]. split; [done|].
      intros y [<-|Hy]; [done|by apply Hpre].
    + intros y [<-|Hy]; [done|by apply IH].
Qed.

Lemma scan_teams_spec (q : string) (teams : list Tools.Team) :
  match Tools.scan_teams q teams None with
  | Some p => first_match q (rostered teams) p
  | None => ∀ x, In x (rostered teams) → ¬ name_matches q x
  end.
Proof.
  induction teams as [|t teams IH]; [by intros x []|].
  cbn [Tools.scan_teams]. unfold rostered. cbn [map concat].
  pose proof (scan_roster_spec q (Tools.roster t)) as Ht.
  destruct (Tools.scan_roster q (Tools.roster t) None) as [p|].
  - destruct Ht as (pre & post & -> & Hm & Hpre).
    exists pre, (post ++ rostered teams). split; [|done].
    by rewrite <- app_assoc.
  - destruct (Tools.scan_teams q teams None) as [p|].
    + destruct IH as (pre & post & Hl & Hm & Hpre).
      exists (Tools.roster t ++ pre), post. split; [|split; [done|]].
      * fold (rostered teams). rewrite Hl. by rewrite <- app_assoc.
      * intros y Hy. apply in_app_or in Hy as [Hy|Hy];
          [by apply Ht|by apply Hpre].
    + intros y Hy. apply in_app_or in Hy as [Hy|Hy];
        [by apply Ht|by apply IH].
Qed.

Lemma get_player_stats_spec (league_id : Z) (player_name : string)
    (teams : list Tools.Team) :
  match Tools.get_player_stats league_id player_name teams with
  | Tools.Data p => first_match player_name (rostered teams) p
  | Tools.Reply msg =>
      msg = "Player '" +:+ player_name +:+ "' not found in league "
            +:+ pretty league_id
      ∧ ∀ x, In x (rostered teams) → ¬ name_matches player_name x
  | Tools.IndexError => False
  end.
Proof.
  unfold Tools.get_player_stats.
  pose proof (scan_teams_spec player_name teams) as H.
  by destruct (Tools.scan_teams player_name teams None).
Qed.

(** X20.  [get_player_stats] answers with the first player, in the order
    of the teams and then of each roster, whose lower-cased name holds the
    lower-cased [player_name] as a substring; it answers that no player
    was found only when no rostered player matches. *)
Theorem get_player_stats_first_match (league_id : Z) (player_name : string)
    (teams : list Tools.Team) :
  match Tools.get_player_stats league_id player_name teams with
  | Tools.Data p => first_match player_name (rostered teams) p
  | Tools.Reply msg =>
      msg = "Player '" +:+ player_name +:+ "' not found in league "
            +:+ pretty league_id
      ∧ ∀ x, In x (rostered teams) → ¬ name_matches player_name x
  | Tools.IndexError => False
  end.
Proof. apply get_player_stats_spec. Qed.

(** X21.  An empty [player_name] is a substring of every name:
    [get_player_stats] then answers with the first rostered player of the
    league, and with the not-found text only when all rosters are empty. *)
Theorem get_player_stats_empty_name (league_id : Z)
    (teams : list Tools.Team) :
  Tools.get_player_stats league_id "" teams
  = match rostered teams with
    | p :: _ => Tools.Data p
    | [] => Tools.Reply ("Player '' not found in league " +:+ pretty league_id)
    end.
Proof.
  pose proof (get_player_stats_spec league_id "" teams) as H.
  destruct (Tools.get_player_stats league_id "" teams) as [msg|p|]; [| |done].
  - destruct H as [-> Hno]. destruct (rostered teams) as [|p l]; [done|].
    destruct (Hno p); [by left|]. by exists "", (Tools.lower (Tools.name p)).
  - destruct H as (pre & post & -> & _ & Hpre).
    destruct pre as [|x pre]; [done|].
    destruct (Hpre x); [by left|]. by exists "", (Tools.lower (Tools.name x)).
Qed.

(** X22.  The team selection of [get_team_roster] and [get_team_info]
    never raises [IndexError] and never counts from the end of the list:
    for [1 <= team_id <= len(league.teams)] it takes the team at position
    [team_id - 1], and for every other [team_id], also [0] and the negative
    ones that index a Python list from the end, it answers with the
    invalid-id text. *)
Theorem select_team_in_bounds (team_id : Z) (teams : list Tools.Team) :
  match Tools.select_team team_id teams with
  | Tools.Data team =>
      1 ≤ team_id ≤ Z.of_nat (length teams)
      ∧ teams !! Z.to_nat (team_id - 1) = Some team
  | Tools.Reply msg =>
      (team_id < 1 ∨ Z.of_nat (length teams) < team_id)
      ∧ msg = "Invalid team_id. Must be between 1 and "
              +:+ pretty (Z.of_nat (length teams))
  | Tools.IndexError => False
  end.
Proof.
  unfold Tools.select_team. cbv zeta.
  destruct (Z.ltb_spec team_id 1); simpl; [split; [lia|done]|].
  destruct (Z.ltb_spec (Z.of_nat (length teams)) team_id); simpl;
    [split; [lia|done]|].
  unfold Tools.index.
  destruct (Z.leb_spec 0 (team_id - 1)); [|lia].
  destruct (Z.ltb_spec (team_id - 1) (Z.of_nat (length teams))); [|lia].
  simpl.
  destruct (teams !! Z.to_nat (team_id - 1)) as [t|] eqn:E.
  - split; [lia|done].
  - apply lookup_ge_None in E. lia.
Qed.

Lemma classify_error_cases (e : Tools.exc) :
  ∃ code,
    Tools._classify_error e = (Tools.auth, code, Some Tools.auth_suggestion)
    ∨ Tools._classify_error e = (Tools.not_found, code, None)
    ∨ Tools._classify_error e = (Tools.runtime, code, None).
Proof.
  unfold Tools._classify_error. cbv zeta.
  destruct (_ || _ || _ || _); [eauto|].
  destruct (bool_decide _ || _); eauto.
Qed.

(** X23.  An error whose message mentions [private], [unauthorized] or
    [forbidden], in any capitalisation, is reported by [_error_json] in
    the category [auth] with the suggestion to authenticate, whatever its
    status code, also [404]; and the suggestion is part of the answer for
    the category [auth] only. *)
Theorem error_json_auth_words (context : string) (e : Tools.exc)
    (a w b : string) :
  Tools.text e = a +:+ w +:+ b →
  Tools.lower w = "private" ∨ Tools.lower w = "unauthorized"
  ∨ Tools.lower w = "forbidden" →
  Tools.pl_category (Tools._error_json context e) = Tools.auth
  ∧ Tools.suggestion (Tools._error_json context e)
    = Some Tools.auth_suggestion
  ∧ Tools.pl_status_code (Tools._error_json context e)
    = Tools._extract_http_status e
  ∧ ∀ context' e',
      is_Some (Tools.suggestion (Tools._error_json context' e'))
      ↔ Tools.pl_category (Tools._error_json context' e') = Tools.auth.
Proof.
  intros Ht Hw.
  assert (Hc : Tools.contains (Tools.lower w) (Tools.lower (Tools.text e))
               = true).
  { apply contains_spec. exists (Tools.lower a), (Tools.lower b).
    by rewrite Ht, !lower_app. }
  assert (Hany : Tools.contains "private" (Tools.lower (Tools.text e))
                 || Tools.contains "unauthorized" (Tools.lower (Tools.text e))
                 || Tools.contains "forbidden" (Tools.lower (Tools.text e))
                 = true).
  { destruct Hw as [Hw | [Hw | Hw]]; rewrite Hw in Hc; rewrite Hc;
      by rewrite ?orb_true_r. }
  assert (Hcl : Tools._classify_error e
                = (Tools.auth, Tools._extract_http_status e,
                   Some Tools.auth_suggestion)).
  { unfold Tools._classify_error. cbv zeta.
    destruct (Tools.contains "private" _), (Tools.contains "unauthorized" _),
             (Tools.contains "forbidden" _); try done;
      by rewrite ?orb_true_r. }
  unfold Tools._error_json at 1 2 3. rewrite Hcl. cbn.
  split; [done|]. split; [done|]. split; [done|].
  intros context' e'. unfold Tools._error_json.
  destruct (classify_error_cases e') as (code & [H | [H | H]]);
    rewrite H; cbn.
  - split; [done|]. intros _. by eexists.
  - split; [by intros [? ?] | by intros [=]].
  - split; [by intros [? ?] | by intros [=]].
Qed.

Lemma error_json_auth_words_witness :
  let e := {| Tools.response_status_code := Some 404;
              Tools.exc_status_code := None; Tools.exc_status := None;
              Tools.text := "League 7 is PRIVATE" |} in
  Tools.pl_category (Tools._error_json "get_league_info" e) = Tools.auth
  ∧ Tools.pl_status_code (Tools._error_json "get_league_info" e) = Some 404.
Proof.
  intros e.
  destruct (error_json_auth_words "get_league_info" e "League 7 is "
              "PRIVATE" "" eq_refl (or_introl eq_refl)) as (Hc & _ & Hs & _).
  split; [exact Hc | exact Hs].
Defined.
